(** * Forensic-report backend: batch analysis, retry policy and section splitter

    A shallow embedding of the document-batch analysis core of the
    repository (src/inference/service.py, src/inference/models/gemini_model.py,
    src/controller/gemini_case_handler.py, src/inference/postprocessing.py and
    src/utils/text_parser.py) and of the code around it (the image
    descriptions, src/inference/loader.py, the loading of the prompt table,
    src/inference/pipeline.py, src/inference/preprocessing.py), followed by
    the properties proved about it.

    Conventions of the embedding:
    - a Python [str] is a list of 8-bit characters; [lower], [strip] and
      case-insensitive matching follow Python on ASCII text;
    - a Python [int] is a [Z]; list positions found by [find] are [Z] with
      the sentinel [-1], slices follow Python's clamping rules;
    - a function that may raise returns an [outcome];
    - the language model is an oracle giving the result of the k-th
      [generate_content] call; a function that calls it takes the index of
      its first call and returns, with its outcome, the trace of the model
      calls and [time.sleep] delays it made;
    - [time.sleep] is an oracle too: it returns, or it raises (a negative
      delay, a delay too large for the clock), and the exception leaves the
      [except] clause that called it. *)

From Stdlib Require Import String Ascii DecimalString.
From Stdlib Require Import List ZArith Lia Bool Arith.
Import ListNotations.

Local Open Scope Z_scope.

(* ================================================================== *)
(** * Part I: the embedding *)
(* ================================================================== *)

(** ** Python built-ins used by the code *)

Module Py.

Definition str := list ascii.

(** A string literal of the source. *)
Definition lit (s : string) : str := list_ascii_of_string s.

(** [len(x)] *)
Definition len {A} (l : list A) : Z := Z.of_nat (List.length l).

(** Truthiness of a string: [if s:] *)
Definition truthy (s : str) : bool :=
  match s with [] => false | _ :: _ => true end.

(** Normalisation of one slice bound: negative bounds count from the end,
    then the bound is clamped to [0, len]. *)
Definition clamp (n i : Z) : nat :=
  Z.to_nat (Z.min n (Z.max 0 (if i <? 0 then i + n else i))).

(** [l[lo:hi]] *)
Definition slice {A} (l : list A) (lo hi : Z) : list A :=
  let a := clamp (len l) lo in
  let b := clamp (len l) hi in
  firstn (b - a) (skipn a l).

(** [l[lo:]] *)
Definition slice_from {A} (l : list A) (lo : Z) : list A :=
  skipn (clamp (len l) lo) l.

(** [l[:hi]] *)
Definition slice_to {A} (l : list A) (hi : Z) : list A :=
  firstn (clamp (len l) hi) l.

(** [s.startswith(prefix)] *)
Fixpoint startswith (s prefix : str) : bool :=
  match prefix with
  | [] => true
  | p :: prefix' =>
      match s with
      | [] => false
      | c :: s' => Ascii.eqb c p && startswith s' prefix'
      end
  end.

(** Lowest index at which [sub] occurs in [s]. *)
Fixpoint index (s sub : str) {struct s} : option nat :=
  if startswith s sub then Some O
  else match s with
       | [] => None
       | _ :: s' => option_map S (index s' sub)
       end.

(** [s.find(sub)] *)
Definition find (s sub : str) : Z :=
  match index s sub with
  | Some i => Z.of_nat i
  | None => -1
  end.

(** [sub in s] *)
Definition contains (sub s : str) : bool :=
  match index s sub with
  | Some _ => true
  | None => false
  end.

(** [c.isspace()] on ASCII: TAB..CR, FS..US and the blank. *)
Definition isspace (c : ascii) : bool :=
  let n := nat_of_ascii c in
  ((9 <=? n) && (n <=? 13) || (28 <=? n) && (n <=? 32))%nat.

Fixpoint lstrip (s : str) : str :=
  match s with
  | [] => []
  | c :: s' => if isspace c then lstrip s' else s
  end.

Definition rstrip (s : str) : str := rev (lstrip (rev s)).

(** [s.strip()] *)
Definition strip (s : str) : str := rstrip (lstrip s).

Definition lower_char (c : ascii) : ascii :=
  let n := nat_of_ascii c in
  if ((65 <=? n) && (n <=? 90))%nat then ascii_of_nat (n + 32) else c.

(** [s.lower()] *)
Definition lower (s : str) : str := map lower_char s.

(** [s.replace(old, new)] for a non-empty [old]: every occurrence, scanning
    from the left; [skip] counts the characters of a match still to drop. *)
Fixpoint replace_go (old new s : str) (skip : nat) : str :=
  match s with
  | [] => []
  | c :: s' =>
      match skip with
      | S k => replace_go old new s' k
      | O => if startswith s old
             then new ++ replace_go old new s' (List.length old - 1)
             else c :: replace_go old new s' O
      end
  end.

Definition replace (s old new : str) : str := replace_go old new s O.

(** [s.replace(old, new, 1)] *)
Definition replace1 (s old new : str) : str :=
  match index s old with
  | Some i => firstn i s ++ new ++ skipn (i + List.length old) s
  | None => s
  end.

(** [s.split(sep)] for a non-empty [sep]; the fuel bounds the number of
    pieces, [split] below gives enough. *)
Fixpoint split_fuel (fuel : nat) (s sep : str) : list str :=
  match fuel with
  | O => [s]
  | S fuel' =>
      match index s sep with
      | None => [s]
      | Some i => firstn i s :: split_fuel fuel' (skipn (i + List.length sep) s) sep
      end
  end.

Definition split (s sep : str) : list str := split_fuel (List.length s) s sep.

(** [c.isdigit()] on ASCII *)
Definition isdigit (c : ascii) : bool :=
  let n := nat_of_ascii c in ((48 <=? n) && (n <=? 57))%nat.

Definition digit_val (c : ascii) : Z := Z.of_nat (nat_of_ascii c) - 48.

(** [int(s)] for a string of decimal digits; [None] is [ValueError]
    (the empty string). *)
Definition int_of_digits (s : str) : option Z :=
  match s with
  | [] => None
  | _ => Some (fold_left (fun acc c => 10 * acc + digit_val c) s 0)
  end.

(** [str(n)] for a natural number. *)
Definition str_of_nat (n : nat) : str :=
  lit (NilEmpty.string_of_uint (Nat.to_uint n)).

(** [range(start, stop, step)] for [step > 0]; [range_fuel] unrolls the
    iteration, [range] gives it enough fuel. [None] is the [ValueError]
    of a zero step; a negative step from [start <= stop] is empty. *)
Fixpoint range_fuel (fuel : nat) (i stop step : Z) : list Z :=
  match fuel with
  | O => []
  | S fuel' => if i <? stop then i :: range_fuel fuel' (i + step) stop step else []
  end.

Definition range (start stop step : Z) : option (list Z) :=
  if step =? 0 then None
  else if step <? 0 then Some []
  else Some (range_fuel (Z.to_nat (stop - start)) start stop step).

End Py.

Import Py.

(** ** Document Batcher: [process_documents_in_batches]

    service.py 345-351 and gemini_case_handler.py 560-566 are the same
    code. [all_content] is the list of contents already extracted from the
    case files; the download and extraction before it are outside the
    embedding. [None] is the [ValueError] raised by [range] and re-raised
    by the handler. *)

Section Batcher.
Context {Doc : Type}.

Definition process_documents_in_batches
    (all_content : list Doc) (max_batch_size : Z) : option (list (list Doc)) :=
  match all_content with
  | [] => Some []
  | _ :: _ =>
      match range 0 (len all_content) max_batch_size with
      | None => None
      | Some starts =>
          Some (map (fun i => slice all_content i (i + max_batch_size)) starts)
      end
  end.

End Batcher.

(** ** Retry-delay extraction: [extract_retry_delay]

    gemini_model.py 17-55 and gemini_case_handler.py 36-74 are the same
    text. The [try ... except Exception] around the body turns the
    [IndexError] of [split(...)[1]] and the [ValueError] of [int('')] into
    the default delay. *)

Definition extract_retry_delay (error_message : str) (default_delay : Z) : Z :=
  if negb (contains (lit "429") error_message) then default_delay
  else if contains (lit "retry_delay") error_message then
    match nth_error (split error_message (lit "retry_delay {")) 1 with
    | None => default_delay
    | Some after_marker =>
        match nth_error (split after_marker (lit "}")) 0 with
        | None => default_delay
        | Some retry_delay_section =>
            match nth_error (split retry_delay_section (lit "seconds:")) 1 with
            | None => default_delay
            | Some after_seconds =>
                let seconds_str := strip after_seconds in
                match int_of_digits (filter isdigit seconds_str) with
                | None => default_delay
                | Some seconds => seconds + 2
                end
            end
        end
    end
  else default_delay.

(** ** The language model, exceptions and effects *)

(** What the code reads from the object returned by [generate_content]. *)
Record Response := mkResponse {
  block_reason : option str;  (* str(prompt_feedback.block_reason) when set *)
  text : str;                 (* response.text, empty when missing or falsy *)
  finish_reason : str         (* candidates[0].finish_reason, or UNKNOWN *)
}.

(** One [generate_content] call either returns a response or raises an
    exception [e], of which the code only uses [str(e)]. *)
Inductive attempt :=
| Responds (r : Response)
| Throws (error_str : str).

(** The model as an oracle: the result of the k-th call of a run. The
    request payload (documents, prompt, synthesis instructions) is not
    part of the embedding. *)
Definition Model := nat -> attempt.

Inductive exn :=
| APIRateLimitError (msg : str)
| APIError (msg : str)
| ModelLoadingError (msg : str)
| ModelNotFoundError (msg : str)
| RuntimeError (msg : str)
| ValueError (msg : str)
| ModelException (msg : str)   (* an exception of the model, re-raised as is *)
| SleepException (msg : str).  (* the exception raised by [time.sleep] *)

(** [str(e)] *)
Definition exn_str (e : exn) : str :=
  match e with
  | APIRateLimitError m | APIError m | ModelLoadingError m | ModelNotFoundError m
  | RuntimeError m | ValueError m | ModelException m | SleepException m => m
  end.

Inductive outcome (A : Type) :=
| Return (a : A)
| Raise (e : exn).
Arguments Return {A} a.
Arguments Raise {A} e.

(** The observable effects of a run, in order: the k-th model call and
    a [time.sleep(delay)] that returned. *)
Inductive event :=
| EvCall (k : nat)
| EvSleep (delay : Z).

Definition is_call (e : event) : bool :=
  match e with EvCall _ => true | EvSleep _ => false end.

(** Number of model calls in a trace. *)
Definition ncalls (t : list event) : nat := List.length (filter is_call t).

(** The rate-limit test of gemini_model.py 153 and
    gemini_case_handler.py 774. *)
Definition is_rate_limit (error_str : str) : bool :=
  contains (lit "429") error_str
  || contains (lit "rate limit") (lower error_str)
  || contains (lit "quota") (lower error_str).

(** The narrower test of the handler's synthesis loop,
    gemini_case_handler.py 661. *)
Definition is_rate_limit_synthesis (error_str : str) : bool :=
  contains (lit "429") error_str
  || contains (lit "rate limit") (lower error_str).

Definition format_error_phrase : str :=
  lit "Unable to determine the intended type of the `dict`".

Definition rate_limit_message : str :=
  lit "Rate limit exceeded after maximum retries.".

(** [time.sleep(secs)] returns, or raises an exception that is neither
    an [APIError] nor an [APIRateLimitError]: a [ValueError] for a negative
    delay, an [OverflowError] or an [OSError] for a delay that the clock of
    the platform cannot hold. The oracle gives the [str(e)] of the
    exception, [None] when the call returns; the code uses nothing else of
    it. *)
Definition Sleep := Z -> option str.

(** Results of the effectful functions: [None] only when the fuel of a
    loop runs out, which does not happen from the entry points (see the
    totality lemmas of Part II). *)
Definition run (A : Type) := option (outcome A * list event).

(** ** [GeminiModel.predict], gemini_model.py 110-162

    [k] is the index of the next model call. *)

Module GeminiModel.

(** [self.model] at the call of [predict]: set by an earlier [load], or
    [None]. In the second case [predict] calls [load], lines 77-98, which
    sets it or raises [ModelLoadingError]; [load_error] is the message of
    that exception, [None] when the loading succeeds. *)
Inductive model_state :=
| Loaded
| NotLoaded (load_error : option str).

Section WithModel.
Variable sleep : Sleep.
Variable model : Model.
Variables max_retries base_retry_delay : Z.

(** The body of the [try]: the text returned, or the [str(e)] of the
    exception that reaches the [except] clause. *)
Definition try_generate (k : nat) : str + str :=
  match model k with
  | Throws error_str => inr error_str
  | Responds r =>
      match block_reason r with
      | Some reason =>
          inr (lit "Content generation blocked (" ++ reason ++ lit ")")
      | None =>
          if negb (truthy (text r))
          then inr (lit "No text returned (Reason: " ++ finish_reason r ++ lit ").")
          else inl (text r)
      end
  end.

Fixpoint predict_loop (fuel : nat) (retry_count : Z) (k : nat) : run str :=
  match fuel with
  | O => None
  | S fuel' =>
      if retry_count <=? max_retries then
        match try_generate k with
        | inl response_text => Some (Return response_text, [EvCall k])
        | inr error_str =>
            if is_rate_limit error_str then
              let retry_delay :=
                extract_retry_delay error_str (base_retry_delay * 2 ^ retry_count) in
              match sleep retry_delay with
              | Some msg => Some (Raise (SleepException msg), [EvCall k])
              | None =>
                  match predict_loop fuel' (retry_count + 1) (S k) with
                  | None => None
                  | Some (r, t) => Some (r, EvCall k :: EvSleep retry_delay :: t)
                  end
              end
            else
              Some (Raise (APIError (lit "Gemini API error: " ++ error_str)), [EvCall k])
        end
      else Some (Raise (APIRateLimitError rate_limit_message), [])
  end.

Definition predict (self_model : model_state) (k : nat) : run str :=
  match self_model with
  | NotLoaded (Some msg) => Some (Raise (ModelLoadingError msg), [])
  | _ => predict_loop (S (Z.to_nat (max_retries + 1))) 0 k
  end.

End WithModel.
End GeminiModel.

(** ** The prompt table

    [self.system_prompts] is a Python dict from section keys to prompt
    texts; the fuzzy search iterates over its keys in insertion order, so
    the table is an association list (of distinct keys for a dict; the
    properties proved hold for every list). *)

Definition table := list (str * str).

Definition str_eqb (a b : str) : bool :=
  if list_eq_dec ascii_dec a b then true else false.

(** [d.get(key)] *)
Fixpoint get (d : table) (key : str) : option str :=
  match d with
  | [] => None
  | (k, v) :: d' => if str_eqb k key then Some v else get d' key
  end.

(** [key in d] *)
Definition has_key (d : table) (key : str) : bool :=
  match get d key with Some _ => true | None => false end.

(** [list(d.keys())] *)
Definition keys (d : table) : list str := map fst d.

(** [not system_prompt_text], for a variable holding [None] or a string. *)
Definition falsy (v : option str) : bool :=
  match v with
  | Some (_ :: _) => false
  | _ => true
  end.

Definition default_prompt (section : str) : str :=
  lit "Analyze the provided documents and extract information for the '"
  ++ section ++ lit "' section of the report.".

(** ** [GeminiHandler], gemini_case_handler.py *)

Module GeminiHandler.
Section WithHandler.
Variable system_prompts : table.
Variable case_type : str.

(** The fuzzy search of lines 708-714: [spt] is [system_prompt_text]. *)
Fixpoint similar_key (section : str) (available_keys : list str) (spt : option str)
  : option str :=
  match available_keys with
  | [] => spt
  | key :: rest =>
      if contains (lower section) (lower key) || contains (lower key) (lower section)
      then
        let spt' := get system_prompts key in
        if falsy spt' then similar_key section rest spt' else spt'
      else similar_key section rest spt
  end.

(** Prompt resolution of [query_with_batch], lines 686-734. *)
Definition resolve_prompt (section : str) : str :=
  let spt :=
    if truthy case_type
    then get system_prompts (section ++ lit "_" ++ case_type)
    else None in
  let spt := if falsy spt then get system_prompts section else spt in
  let spt :=
    if falsy spt then
      let spt := similar_key section (keys system_prompts) spt in
      let spt :=
        if falsy spt then
          let section_with_underscores := replace section (lit " ") (lit "_") in
          if has_key system_prompts section_with_underscores
          then get system_prompts section_with_underscores
          else spt
        else spt in
      let spt :=
        if falsy spt then
          let section_with_spaces := replace section (lit "_") (lit " ") in
          if has_key system_prompts section_with_spaces
          then get system_prompts section_with_spaces
          else spt
        else spt in
      if falsy spt then Some (default_prompt section) else spt
    else spt in
  match spt with
  | Some system_prompt_text => system_prompt_text
  | None => []
  end.

Variable sleep : Sleep.
Variable model : Model.
Variables base_retry_delay max_retries : Z.

(** The retry loop of [query_with_batch], lines 755-790. *)
Fixpoint query_loop (fuel : nat) (retry_count : Z) (k : nat) : run str :=
  match fuel with
  | O => None
  | S fuel' =>
      if retry_count <=? max_retries then
        match model k with
        | Responds r =>
            match block_reason r with
            | Some reason =>
                Some (Return (lit "Error: Content generation blocked (" ++ reason ++ lit ")"),
                      [EvCall k])
            | None =>
                if negb (truthy (text r))
                then Some (Return (lit "Error: No text returned (Reason: "
                                   ++ finish_reason r ++ lit ")."), [EvCall k])
                else Some (Return (text r), [EvCall k])
            end
        | Throws error_str =>
            if is_rate_limit error_str then
              let retry_delay :=
                extract_retry_delay error_str (base_retry_delay * 2 ^ retry_count) in
              match sleep retry_delay with
              | Some msg => Some (Raise (SleepException msg), [EvCall k])
              | None =>
                  match query_loop fuel' (retry_count + 1) (S k) with
                  | None => None
                  | Some (r, t) => Some (r, EvCall k :: EvSleep retry_delay :: t)
                  end
              end
            else if contains format_error_phrase error_str then
              match query_loop fuel' (retry_count + 1) (S k) with
              | None => None
              | Some (r, t) => Some (r, EvCall k :: t)
              end
            else
              Some (Raise (RuntimeError (lit "Gemini query failed: " ++ error_str)),
                    [EvCall k])
        end
      else Some (Return (lit "Error: Rate limit exceeded after maximum retries."), [])
  end.

(** [query_with_batch(batch, section, base_retry_delay, max_retries)];
    the resolved prompt is appended to the batch and sent with it. *)
Definition query_with_batch {Doc} (batch : list Doc) (section : str) (k : nat)
  : run str :=
  match batch with
  | [] => Some (Return (lit "Error: Empty batch provided for querying."), [])
  | _ :: _ =>
      let system_prompt_text := resolve_prompt section in
      query_loop (S (Z.to_nat (max_retries + 1))) 0 k
  end.

(** The synthesis retry loop of [create_unified_analysis], lines 642-669:
    only [429] and [rate limit] are retried, any other exception of the
    model is re-raised unchanged. *)
Fixpoint synthesis_loop (fuel : nat) (retry_count : Z) (k : nat) : run str :=
  match fuel with
  | O => None
  | S fuel' =>
      if retry_count <=? max_retries then
        match model k with
        | Responds r =>
            match block_reason r with
            | Some reason =>
                Some (Return (lit "Error: Content generation blocked (" ++ reason ++ lit ")"),
                      [EvCall k])
            | None =>
                if negb (truthy (text r))
                then Some (Return (lit "Error: No text returned from final synthesis (Reason: "
                                   ++ finish_reason r ++ lit ")."), [EvCall k])
                else Some (Return (text r), [EvCall k])
            end
        | Throws error_str =>
            if is_rate_limit_synthesis error_str then
              let retry_delay :=
                extract_retry_delay error_str (base_retry_delay * 2 ^ retry_count) in
              match sleep retry_delay with
              | Some msg => Some (Raise (SleepException msg), [EvCall k])
              | None =>
                  match synthesis_loop fuel' (retry_count + 1) (S k) with
                  | None => None
                  | Some (r, t) => Some (r, EvCall k :: EvSleep retry_delay :: t)
                  end
              end
            else Some (Raise (ModelException error_str), [EvCall k])
        end
      else
        Some (Return (lit "Error: Could not create unified analysis due to repeated rate limit or other errors."),
              [])
  end.

(** The loop over the batches, lines 587-598; [i] is the index of the
    batch, an exception of a query ends the loop. *)
Fixpoint run_batches {Doc} (batches : list (list Doc)) (section : str)
    (i k : nat) : run (list str * bool) :=
  match batches with
  | [] => Some (Return ([], false), [])
  | batch :: rest =>
      match query_with_batch batch section k with
      | None => None
      | Some (Raise e, t) => Some (Raise e, t)
      | Some (Return response, t) =>
          match run_batches rest section (S i) (k + ncalls t) with
          | None => None
          | Some (Raise e, t') => Some (Raise e, t ++ t')
          | Some (Return (batch_results, processing_failed), t') =>
              if startswith response (lit "Error:")
              then Some (Return ((lit "[[ERROR PROCESSING BATCH " ++ str_of_nat (i + 1)
                                  ++ lit ": " ++ response ++ lit "]]") :: batch_results,
                                 true), t ++ t')
              else Some (Return (response :: batch_results, processing_failed), t ++ t')
          end
      end
  end.

(** [create_unified_analysis(section, batch_size, base_retry_delay,
    max_retries)], lines 571-671, from the extracted contents on. *)
Definition create_unified_analysis {Doc} (all_content : list Doc) (section : str)
    (batch_size : Z) : run str :=
  match process_documents_in_batches all_content batch_size with
  | None => Some (Raise (ValueError (lit "range() arg 3 must not be zero")), [])
  | Some [] =>
      Some (Return (lit "Error: No documents found or processed successfully for this case."),
            [])
  | Some batches =>
      match run_batches batches section 0 0 with
      | None => None
      | Some (Raise e, t) => Some (Raise e, t)
      | Some (Return (batch_results, processing_failed), t) =>
          match batch_results, processing_failed with
          | [only], false => Some (Return only, t)
          | _, _ =>
              match synthesis_loop (S (Z.to_nat (max_retries + 1))) 0 (ncalls t) with
              | None => None
              | Some (r, t') => Some (r, t ++ t')
              end
          end
      end
  end.

End WithHandler.
End GeminiHandler.

(** ** [InferenceService], service.py *)

Module InferenceService.

(** Prompt resolution either finds a prompt or makes [query_with_batch]
    return an error string at once. *)
Inductive resolution :=
| Prompt (system_prompt_text : str)
| EarlyReturn (error : str).

Section WithService.
Variable system_prompts : table.
Variable case_type : str.

(** The flexible matching of lines 547-559: the first key that matches
    ends the search, whatever its value. *)
Fixpoint flexible_match (section section_normalized : str)
    (available_keys : list str) (spt : option str) : option str :=
  match available_keys with
  | [] => spt
  | key :: rest =>
      if contains (lower section) (lower key)
         || contains (lower key) (lower section)
         || contains (lower section_normalized) (lower key)
         || contains (lower key) (lower section_normalized)
      then get system_prompts key
      else flexible_match section section_normalized rest spt
  end.

(** Prompt resolution of [query_with_batch], lines 489-563. *)
Definition resolve_prompt (section : str) : resolution :=
  let section_normalized := replace section (lit " ") (lit "_") in
  let section_with_spaces := replace section_normalized (lit "_") (lit " ") in
  let spt :=
    if truthy case_type then
      let spt := get system_prompts (section_normalized ++ lit "_" ++ case_type) in
      if falsy spt
      then get system_prompts (section_with_spaces ++ lit "_" ++ case_type)
      else spt
    else None in
  let spt :=
    if falsy spt then
      let spt := get system_prompts section_normalized in
      if falsy spt then get system_prompts section_with_spaces else spt
    else spt in
  if falsy spt then
    match system_prompts with
    | [] =>
        EarlyReturn
          (lit "Error: Not enough information is provided. No system prompts found in MongoDB.")
    | _ :: _ =>
        let spt :=
          flexible_match section section_normalized (keys system_prompts) spt in
        match spt with
        | Some (c :: system_prompt_text) => Prompt (c :: system_prompt_text)
        | _ =>
            EarlyReturn
              (lit "Error: Not enough information is provided. No system prompt found for section '"
               ++ section ++ lit "'.")
        end
    end
  else
    match spt with
    | Some system_prompt_text => Prompt system_prompt_text
    | None => Prompt []
    end.

Variable sleep : Sleep.
Variable model : Model.
Variables base_retry_delay max_retries : Z.

(** [model.predict] on the object that [model_loader.get_model] has
    returned: the loader hands out loaded models only (loader.py 29-65),
    and the service is modelled from the return of [get_model] on. *)
Definition predict :=
  GeminiModel.predict sleep model max_retries base_retry_delay GeminiModel.Loaded.

(** [query_with_batch], lines 466-610: every exception of [predict] is
    turned into an error string; a format error runs [predict] a second
    time on the repaired contents. *)
Definition query_with_batch {Doc} (batch : list Doc) (section : str) (k : nat)
  : run str :=
  match batch with
  | [] => Some (Return (lit "Error: Empty batch provided for querying."), [])
  | _ :: _ =>
      match resolve_prompt section with
      | EarlyReturn error => Some (Return error, [])
      | Prompt system_prompt_text =>
          match predict k with
          | None => None
          | Some (Return response, t) => Some (Return response, t)
          | Some (Raise (APIRateLimitError _), t) =>
              Some (Return (lit "Error: Rate limit exceeded after maximum retries."), t)
          | Some (Raise (APIError error_str), t) =>
              if contains format_error_phrase error_str then
                match predict (k + ncalls t) with
                | None => None
                | Some (Return response, t') => Some (Return response, t ++ t')
                | Some (Raise retry_e, t') =>
                    Some (Return (lit "Error: Failed to fix format and retry: "
                                  ++ exn_str retry_e), t ++ t')
                end
              else Some (Return (lit "Error: " ++ error_str), t)
          | Some (Raise e, t) =>
              Some (Return (lit "Error: Gemini query failed: " ++ exn_str e), t)
          end
      end
  end.

(** The loop over the batches, lines 381-393. *)
Fixpoint run_batches {Doc} (batches : list (list Doc)) (section : str)
    (i k : nat) : run (list str * bool) :=
  match batches with
  | [] => Some (Return ([], false), [])
  | batch :: rest =>
      match query_with_batch batch section k with
      | None => None
      | Some (Raise e, t) => Some (Raise e, t)
      | Some (Return response, t) =>
          match run_batches rest section (S i) (k + ncalls t) with
          | None => None
          | Some (Raise e, t') => Some (Raise e, t ++ t')
          | Some (Return (batch_results, processing_failed), t') =>
              if startswith response (lit "Error:")
              then Some (Return ((lit "[[ERROR PROCESSING BATCH " ++ str_of_nat (i + 1)
                                  ++ lit ": " ++ response ++ lit "]]") :: batch_results,
                                 true), t ++ t')
              else Some (Return (response :: batch_results, processing_failed), t ++ t')
          end
      end
  end.

(** [create_unified_analysis], lines 356-464, from the extracted contents
    on; the synthesis call goes through [predict]. *)
Definition create_unified_analysis {Doc} (all_content : list Doc) (section : str)
    (batch_size : Z) : run str :=
  match process_documents_in_batches all_content batch_size with
  | None => Some (Raise (ValueError (lit "range() arg 3 must not be zero")), [])
  | Some [] =>
      Some (Return (lit "Error: No documents found or processed successfully for this case."),
            [])
  | Some batches =>
      match run_batches batches section 0 0 with
      | None => None
      | Some (Raise e, t) => Some (Raise e, t)
      | Some (Return (batch_results, processing_failed), t) =>
          match batch_results, processing_failed with
          | [only], false => Some (Return only, t)
          | _, _ =>
              match predict (ncalls t) with
              | None => None
              | Some (Return unified_response, t') => Some (Return unified_response, t ++ t')
              | Some (Raise (APIRateLimitError _), t') =>
                  Some (Return (lit "Error: Could not create unified analysis due to persistent API rate limits."),
                        t ++ t')
              | Some (Raise (APIError msg), t') =>
                  Some (Return (lit "Error: " ++ msg), t ++ t')
              | Some (Raise e, t') =>
                  Some (Return (lit "Error: An unexpected error occurred during analysis: "
                                ++ exn_str e), t ++ t')
              end
          end
      end
  end.

End WithService.
End InferenceService.

(** ** Section splitter, postprocessing.py 120-254 *)

Module Postprocessing.

Definition nl : ascii := "010"%char.

Definition canonical_findings : str := lit "**1.4 Findings**".

Definition findings_headers : list str :=
  [ lit "**1.4 Findings**";
    lit "**Findings**";
    lit "**1.4. Findings**";
    lit "**1.4 FINDINGS**";
    lit "**FINDINGS**" ].

Definition background_headers : list str :=
  [ lit "**2. Background Information**";
    lit "**2.0 Background Information**";
    lit "**Background Information**";
    lit "**BACKGROUND INFORMATION**";
    lit "**2. BACKGROUND INFORMATION**";
    lit "**2.0 BACKGROUND INFORMATION**" ].

(** The two scanning loops (lines 155-172): [start] and [found] are the
    position and the header of the earliest occurrence so far. *)
Fixpoint earliest_header (response_text : str) (headers : list str)
    (start : Z) (found : option str) : Z * option str :=
  match headers with
  | [] => (start, found)
  | header :: rest =>
      let pos := find response_text header in
      if negb (pos =? -1) && ((start =? -1) || (pos <? start))
      then earliest_header response_text rest pos (Some header)
      else earliest_header response_text rest start found
  end.

Definition extract_findings_and_background (response_text : str) : str * str :=
  let findings_part : str := [] in
  let background_part := response_text in
  let '(start_findings, found_findings_header) :=
    earliest_header response_text findings_headers (-1) None in
  let '(start_background, found_background_header) :=
    earliest_header response_text background_headers (-1) None in
  let '(findings_part, background_part) :=
    if negb (start_findings =? -1) then
      let '(findings_part, background_part) :=
        if negb (start_background =? -1)
        then (strip (slice response_text start_findings start_background),
              strip (slice_from response_text start_background))
        else (strip (slice_from response_text start_findings), [])
      in
      let findings_part :=
        match found_findings_header with
        | Some header =>
            if negb (str_eqb header canonical_findings)
            then replace1 findings_part header canonical_findings
            else findings_part
        | None => findings_part
        end in
      (findings_part, background_part)
    else if negb (start_background =? -1) then
      let pre_background := strip (slice_to response_text start_background) in
      let findings_part :=
        if truthy pre_background
        then canonical_findings ++ [nl] ++ pre_background
        else findings_part in
      (findings_part, strip (slice_from response_text start_background))
    else (findings_part, background_part)
  in
  let findings_part :=
    if negb (truthy findings_part) && truthy background_part then
      let lower_background := lower background_part in
      if contains (lit "finding") lower_background && negb (start_background =? -1)
      then
        if truthy (strip (slice_to response_text start_background))
        then canonical_findings ++ [nl] ++ strip (slice_to response_text start_background)
        else findings_part
      else findings_part
    else findings_part in
  let background_part :=
    if negb (truthy background_part) && truthy response_text
       && negb (truthy findings_part)
    then response_text
    else background_part in
  (findings_part, background_part).

Definition background_marker : str := lit "**Background Information**".

Definition parse_background_response (response_text : str) : str * str :=
  let background_index := find response_text background_marker in
  if negb (background_index =? -1) then
    (strip (slice_to response_text background_index),
     strip (slice_from response_text background_index))
  else extract_findings_and_background response_text.

End Postprocessing.

(** ** The regular expressions of text_parser.py

    The two patterns use literals, concatenation, alternation and the
    greedy [?] only. [rmatch] is the backtracking matcher of [re] under
    [re.IGNORECASE]: alternatives are tried from left to right, an optional
    group first with and then without its body; [k] continues on the text
    left after the match. *)

Module Re.

Inductive regex :=
| Eps
| Lit (s : str)
| Seq (r1 r2 : regex)
| Alt (r1 r2 : regex)
| Opt (r : regex).

(** [s] starts with [p], letters compared without case. *)
Fixpoint startswith_ci (s p : str) : bool :=
  match p with
  | [] => true
  | pc :: p' =>
      match s with
      | [] => false
      | c :: s' => Ascii.eqb (lower_char c) (lower_char pc) && startswith_ci s' p'
      end
  end.

Fixpoint rmatch {A} (r : regex) (s : str) (k : str -> option A) : option A :=
  match r with
  | Eps => k s
  | Lit p => if startswith_ci s p then k (skipn (List.length p) s) else None
  | Seq r1 r2 => rmatch r1 s (fun s' => rmatch r2 s' k)
  | Alt r1 r2 =>
      match rmatch r1 s k with
      | Some x => Some x
      | None => rmatch r2 s k
      end
  | Opt r1 =>
      match rmatch r1 s k with
      | Some x => Some x
      | None => k s
      end
  end.

(** Length of the match of [r] at the start of [s]. *)
Definition match_here (r : regex) (s : str) : option nat :=
  rmatch r s (fun rest => Some (List.length s - List.length rest)%nat).

(** [re.search(r, s, re.IGNORECASE)]: [(m.start(), m.end())] of the
    leftmost match; [i] is the position of [s] in the whole text. *)
Fixpoint search_from (r : regex) (s : str) (i : nat) : option (Z * Z) :=
  match match_here r s with
  | Some n => Some (Z.of_nat i, Z.of_nat (i + n))
  | None =>
      match s with
      | [] => None
      | _ :: s' => search_from r s' (S i)
      end
  end.

Definition search (r : regex) (s : str) : option (Z * Z) := search_from r s O.

(** [re.match(r, s, re.IGNORECASE)] as a truth value. *)
Definition matches_at_start (r : regex) (s : str) : bool :=
  match match_here r s with Some _ => true | None => false end.

(** [re.sub(r, repl, s, flags=re.IGNORECASE, count=1)] for a pattern
    without empty matches and a replacement without escapes. *)
Definition sub1 (r : regex) (repl s : str) : str :=
  match search r s with
  | Some (a, b) => slice_to s a ++ repl ++ slice_from s b
  | None => s
  end.

End Re.

(** ** [parse_text_to_json], text_parser.py 10-104

    The result is the pair of the fields [response_of_findings] and
    [response] of the returned dictionary. *)

Module TextParser.
Import Re Postprocessing.

(** [findings_pattern], line 33: an optional pair of stars; then [1.4]
    with an optional dot, or [1.4] and a blank, or nothing; then FINDINGS or
    Findings; then an optional pair of stars. *)
Definition findings_pattern : regex :=
  Seq (Opt (Lit (lit "**")))
   (Seq (Alt (Seq (Lit (lit "1.4")) (Opt (Lit (lit "."))))
             (Alt (Lit (lit "1.4 ")) Eps))
    (Seq (Alt (Lit (lit "FINDINGS")) (Lit (lit "Findings")))
         (Opt (Lit (lit "**"))))).

(** [background_pattern], line 34: an optional pair of stars; then [2.]
    with an optional [0] and an optional dot, or [2.0] and a blank, or [2.]
    and a blank, or nothing; then BACKGROUND INFORMATION or Background
    Information; then an optional pair of stars. *)
Definition background_pattern : regex :=
  Seq (Opt (Lit (lit "**")))
   (Seq (Alt (Seq (Lit (lit "2.")) (Seq (Opt (Lit (lit "0"))) (Opt (Lit (lit ".")))))
             (Alt (Lit (lit "2.0 ")) (Alt (Lit (lit "2. ")) Eps)))
    (Seq (Alt (Lit (lit "BACKGROUND INFORMATION")) (Lit (lit "Background Information")))
         (Opt (Lit (lit "**"))))).

Definition findings_prefix : str := canonical_findings ++ [nl].

Definition parse_text_to_json (text : str) : str * str :=
  if negb (truthy text) || str_eqb (strip text) [] then ([], [])
  else
    let findings_match := search findings_pattern text in
    let background_match := search background_pattern text in
    let '(findings_section, background_section) :=
      match findings_match, background_match with
      | Some (findings_start, _), Some (background_start, _) =>
          if findings_start <? background_start
          then (strip (slice text findings_start background_start),
                strip (slice_from text background_start))
          else (strip (slice_from text findings_start),
                strip (slice text background_start findings_start))
      | Some (findings_start, _), None =>
          (strip (slice_from text findings_start), [])
      | None, Some (background_start, _) =>
          let background_section := strip (slice_from text background_start) in
          let findings_section :=
            if 0 <? background_start then
              let pre_content := strip (slice_to text background_start) in
              if truthy pre_content then findings_prefix ++ pre_content else []
            else [] in
          (findings_section, background_section)
      | None, None =>
          if contains (lit "finding") (lower text)
          then (findings_prefix ++ strip text, [])
          else ([], strip text)
      end in
    let findings_section :=
      if contains (lit "This is some initial content without a header") text
      then findings_prefix
           ++ strip (slice_to text (find text (lit "**2. Background Information**")))
      else findings_section in
    let findings_section :=
      if contains (lit "The investigation found several findings related to the incident") text
      then findings_prefix ++ strip text
      else findings_section in
    let findings_section :=
      if truthy findings_section && negb (startswith findings_section canonical_findings)
      then
        let findings_section := sub1 findings_pattern canonical_findings findings_section in
        if negb (startswith findings_section canonical_findings)
        then findings_prefix ++ findings_section
        else findings_section
      else findings_section in
    let background_section :=
      if truthy background_section
         && negb (matches_at_start background_pattern background_section)
      then lit "**Background Information**" ++ [nl] ++ background_section
      else background_section in
    (findings_section, background_section).

End TextParser.

Import Postprocessing Re TextParser.

(** ** More Python built-ins: dict updates, [join], paths *)

Module Dict.
Section WithValue.
Context {V : Type}.

(** [d.get(key)], [d[key]] for a dict with values of any type. *)
Fixpoint lookup (d : list (str * V)) (key : str) : option V :=
  match d with
  | [] => None
  | (k, v) :: d' => if str_eqb k key then Some v else lookup d' key
  end.

(** [d[key] = value]: an existing key keeps its place, a new key goes to
    the end. *)
Fixpoint set (d : list (str * V)) (key : str) (value : V) : list (str * V) :=
  match d with
  | [] => [(key, value)]
  | (k, v) :: d' =>
      if str_eqb k key then (k, value) :: d' else (k, v) :: set d' key value
  end.

(** [del d[key]] for a key of [d]. *)
Fixpoint del (d : list (str * V)) (key : str) : list (str * V) :=
  match d with
  | [] => []
  | (k, v) :: d' => if str_eqb k key then d' else (k, v) :: del d' key
  end.

End WithValue.
End Dict.

(** [sep.join(parts)] *)
Fixpoint join (sep : str) (parts : list str) : str :=
  match parts with
  | [] => []
  | [p] => p
  | p :: rest => p ++ sep ++ join sep rest
  end.

(** [s.strip(chars)] *)
Module StripChars.

Fixpoint lstrip_chars (chars s : str) : str :=
  match s with
  | [] => []
  | c :: s' => if existsb (Ascii.eqb c) chars then lstrip_chars chars s' else s
  end.

Definition strip_chars (chars s : str) : str :=
  rev (lstrip_chars chars (rev (lstrip_chars chars s))).

End StripChars.

Import StripChars.

(** ** [GeminiHandler.Image_processing], gemini_case_handler.py 805-880

    [decode_error] and [save_error] are the [str(e)] of the exception of
    [base64.b64decode] and of writing the file, [None] when they succeed.
    One step of the oracle is one pass through the body of the [try]:
    reading the file back, creating the model and [generate_content]. The
    sleeps are of 5, 10 and 20 seconds, which [time.sleep] accepts. *)

Module GeminiHandlerImage.
Section WithModel.
Variable model : Model.

Definition max_retries : Z := 3.
Definition base_delay : Z := 5.

Fixpoint describe_loop (fuel : nat) (attempt : Z) (k : nat) : run str :=
  match fuel with
  | O => None
  | S fuel' =>
      if attempt <? max_retries then
        match model k with
        | Responds r =>
            match block_reason r with
            | Some _ => Some (Return (lit "Content was blocked by the model."), [EvCall k])
            | None =>
                if negb (truthy (text r))
                then Some (Return (lit "No description generated."), [EvCall k])
                else Some (Return (text r), [EvCall k])
            end
        | Throws error_str =>
            if is_rate_limit_synthesis error_str then
              match describe_loop fuel' (attempt + 1) (S k) with
              | None => None
              | Some (r, t) =>
                  Some (r, EvCall k :: EvSleep (base_delay * 2 ^ attempt) :: t)
              end
            else
              Some (Return (lit "Error generating image description: " ++ error_str),
                    [EvCall k])
        end
      else
        Some (Return (lit "Error: Repeated rate limit or network errors prevented generating image description."),
              [])
  end.

Definition Image_processing (decode_error save_error : option str) : run str :=
  match decode_error with
  | Some e => Some (Return (lit "Error: Invalid base64 image data. " ++ e), [])
  | None =>
      match save_error with
      | Some e => Some (Return (lit "Error: Could not save image. " ++ e), [])
      | None => describe_loop (S (Z.to_nat max_retries)) 0 0
      end
  end.

End WithModel.
End GeminiHandlerImage.

(** ** [GeminiModel.predict_with_image], gemini_model.py 164-232 *)

Module GeminiImageModel.

(** What the code reads from the response of the image model:
    [safety_ratings] are the pairs [(rating.blocked, str(rating.category))]
    of [prompt_feedback], none when the feedback is missing; [image_text]
    is [response.text] when the attribute exists; [parts] are the
    [part.text] of [response.parts], [None] for a part without text. *)
Record ImageResponse := mkImageResponse {
  safety_ratings : list (bool * str);
  image_text : option str;
  parts : option (list (option str))
}.

Inductive image_attempt :=
| ImageResponds (r : ImageResponse)
| ImageThrows (error_str : str).

Definition ImageModel := nat -> image_attempt.

Section WithModel.
Variable sleep : Sleep.
Variable model : ImageModel.
Variables max_retries base_retry_delay : Z.

(** The loop over the safety ratings: the category of the first blocked
    one. *)
Fixpoint first_blocked (ratings : list (bool * str)) : option str :=
  match ratings with
  | [] => None
  | (blocked, category) :: rest =>
      if blocked then Some category else first_blocked rest
  end.

(** The body of the inner [try] after the decoding: the text returned, or
    the [str(e)] of the exception that reaches the [except] clause. *)
Definition describe (k : nat) : str + str :=
  match model k with
  | ImageThrows error_str => inr error_str
  | ImageResponds r =>
      match first_blocked (safety_ratings r) with
      | Some category => inr (lit "Image description blocked: " ++ category)
      | None =>
          match image_text r with
          | Some response_text => inl response_text
          | None =>
              match parts r with
              | Some ps =>
                  inl (concat (map (fun part => match part with
                                                | Some part_text => part_text
                                                | None => []
                                                end) ps))
              | None => inr (lit "No description generated.")
              end
          end
      end
  end.

Fixpoint predict_with_image_loop (decode_error : option str)
    (fuel : nat) (retry_count : Z) (k : nat) : run str :=
  match fuel with
  | O => None
  | S fuel' =>
      if retry_count <=? max_retries then
        let '(attempt, calls) :=
          match decode_error with
          | Some e => (inr (lit "Failed to decode base64 image: " ++ e), [])
          | None => (describe k, [EvCall k])
          end in
        match attempt with
        | inl response_text => Some (Return response_text, calls)
        | inr error_str =>
            if is_rate_limit error_str then
              let retry_delay :=
                extract_retry_delay error_str (base_retry_delay * 2 ^ retry_count) in
              match sleep retry_delay with
              | Some msg => Some (Raise (SleepException msg), calls)
              | None =>
                  match predict_with_image_loop decode_error fuel' (retry_count + 1)
                          (k + List.length calls) with
                  | None => None
                  | Some (r, t) => Some (r, calls ++ EvSleep retry_delay :: t)
                  end
              end
            else
              Some (Raise (APIError (lit "Error generating image description: "
                                     ++ error_str)), calls)
        end
      else
        Some (Raise (APIRateLimitError
                       (lit "Rate limit exceeded after maximum retries for image processing.")),
              [])
  end.

(** [predict_with_image(image_b64, prompt, max_retries, base_retry_delay)];
    [decode_error] is the [str(e)] of the exception of [b64decode] on
    [image_b64], [None] when it decodes. *)
Definition predict_with_image (decode_error : option str) (k : nat) : run str :=
  predict_with_image_loop decode_error (S (Z.to_nat (max_retries + 1))) 0 k.

End WithModel.
End GeminiImageModel.

(** ** [ModelLoader], loader.py, with [GeminiModel.load] and [unload],
    gemini_model.py 77-108

    [self.models] is a dict from [model_type_model_name] to the model
    object; [model_classes] has the one key [gemini]. Each function takes
    the dict and returns it with its result. *)

Module ModelLoader.

(** The fields of a [GeminiModel] object that loading reads and writes;
    [loaded] is [self.model is not None]. *)
Record model_object := mkModel {
  model_name : str;
  api_key : str;
  loaded : bool
}.

(** [GeminiModel.load()]: the loaded object, or the message of the
    [ModelLoadingError]. [genai_error] is the [str(e)] of an exception of
    [genai.configure] or [genai.GenerativeModel], [None] when they
    succeed. *)
Definition load (m : model_object) (genai_error : option str) : model_object + str :=
  if negb (truthy (api_key m)) then
    inr (lit "Failed to load Gemini model: "
         ++ lit "Missing Google API key. Set GOOGLE_API_KEY in the environment variables.")
  else
    match genai_error with
    | Some e => inr (lit "Failed to load Gemini model: " ++ e)
    | None => inl (mkModel (model_name m) (api_key m) true)
    end.

(** [GeminiModel.unload()] *)
Definition unload (m : model_object) : model_object :=
  mkModel (model_name m) (api_key m) false.

Definition cache := list (str * model_object).

Definition model_key (model_type model_name : str) : str :=
  model_type ++ lit "_" ++ model_name.

(** [get_model(model_type, model_name, api_key=...)] *)
Definition get_model (models : cache) (model_type model_name api_key : str)
    (genai_error : option str) : (model_object + exn) * cache :=
  let model_key := model_key model_type model_name in
  match Dict.lookup models model_key with
  | Some model => (inl model, models)
  | None =>
      if negb (str_eqb model_type (lit "gemini")) then
        (inr (ModelNotFoundError (lit "Model type '" ++ model_type ++ lit "' not found.")),
         models)
      else
        match load (mkModel model_name api_key false) genai_error with
        | inl model => (inl model, Dict.set models model_key model)
        | inr e =>
            (inr (ModelLoadingError (lit "Failed to load model '" ++ model_key
                                     ++ lit "': " ++ e)), models)
        end
  end.

(** [unload_model(model_type, model_name)]; [unload] does not raise. *)
Definition unload_model (models : cache) (model_type model_name : str) : bool * cache :=
  let model_key := model_key model_type model_name in
  match Dict.lookup models model_key with
  | Some model => (true, Dict.del models model_key)
  | None => (true, models)
  end.

(** [unload_all_models()]: the loop runs over a copy of the items. *)
Definition unload_all_models (models : cache) : bool * cache :=
  fold_left (fun '(success, models) '(model_key, model) =>
               (success, Dict.del models model_key))
            models (true, models).

End ModelLoader.

(** ** Loading the prompt table

    A document of the [system_prompts] collection is taken with its fields
    holding strings (the [_id] is skipped by the code), in the order of its
    keys: a [table]. *)

Module PromptTables.

Definition document := table.

Definition non_section_fields : list str :=
  [lit "_id"; lit "case_type"; lit "description"; lit "prompt_id"; lit "id"].

(** [prompt.get("case_type", "")] *)
Definition case_type_of (prompt : document) : str :=
  match get prompt (lit "case_type") with
  | Some case_type => case_type
  | None => []
  end.

(** The body of the loop over the fields of one document, service.py
    125-151 and gemini_case_handler.py 183-208; [specific] is the test
    that guards the case-specific key. *)
Definition add_section (self_case_type : str) (specific : bool)
    (result : table) (field : str * str) : table :=
  let '(key, value) := field in
  if existsb (str_eqb key) non_section_fields then result
  else
    let section_key := key in
    let result :=
      if specific
      then Dict.set result (section_key ++ lit "_" ++ self_case_type) value
      else result in
    let result := Dict.set result section_key value in
    if contains (lit "_") section_key
    then Dict.set result (replace section_key (lit "_") (lit " ")) value
    else result.

(** *** [InferenceService.load_system_prompts], service.py 50-162 *)

(** Lines 93-97 *)
Definition case_type_mapping (prompts : list document) : table :=
  fold_left (fun mapping prompt =>
               let case_type := case_type_of prompt in
               if truthy case_type
               then Dict.set mapping (lower case_type) case_type
               else mapping)
            prompts [].

(** Lines 111-116: the first case type that contains the current one or
    is contained in it. *)
Fixpoint partial_match (current_case_type_lower : str) (items : table) : option str :=
  match items with
  | [] => None
  | (db_case_type_lower, original_case_type) :: rest =>
      if contains db_case_type_lower current_case_type_lower
         || contains current_case_type_lower db_case_type_lower
      then Some original_case_type
      else partial_match current_case_type_lower rest
  end.

(** Lines 102-116 *)
Definition best_match (self_case_type : str) (prompts : list document) : option str :=
  if truthy self_case_type then
    let current_case_type_lower := lower self_case_type in
    let mapping := case_type_mapping prompts in
    if has_key mapping current_case_type_lower
    then get mapping current_case_type_lower
    else partial_match current_case_type_lower mapping
  else None.

Definition add_prompt (self_case_type : str) (best_match : option str)
    (result : table) (prompt : document) : table :=
  let case_type := case_type_of prompt in
  let specific :=
    match best_match with
    | Some b => truthy case_type && truthy b && str_eqb case_type b
    | None => false
    end in
  fold_left (add_section self_case_type specific) prompt result.

(** [db] is the content of the collection, [None] when the database
    raises. *)
Definition load_system_prompts (self_case_type : str) (db : option (list document))
  : table :=
  match db with
  | None => []
  | Some [] => []
  | Some prompts =>
      fold_left (add_prompt self_case_type (best_match self_case_type prompts))
                prompts []
  end.

(** *** [GeminiHandler.get_default_prompts], gemini_case_handler.py 276-302 *)

Definition get_default_prompts : table :=
  let default_prompts :=
    [ (lit "Background_Information",
       lit "Analyze the provided documents and extract key background information for the case.");
      (lit "Site_Inspection",
       lit "Analyze the provided documents and extract information about the site inspection.");
      (lit "Discussion",
       lit "Analyze the provided documents and provide a discussion of the findings.");
      (lit "Summary_of_Opinions",
       lit "Analyze the provided documents and summarize the key opinions.");
      (lit "Conclusion",
       lit "Analyze the provided documents and provide a conclusion.");
      (lit "Exhibits",
       lit "Analyze the provided documents and list any exhibits.") ] in
  fold_left (fun default_prompts '(key, value) =>
               let new_key := replace key (lit "_") (lit " ") in
               Dict.set default_prompts new_key value)
            default_prompts default_prompts.

(** *** [GeminiHandler.load_system_prompts_from_file], 227-274

    The file is missing, or reading it raises, or it holds a JSON object
    from case types to objects from section names to prompt texts. *)

Inductive prompts_file :=
| FileMissing
| FileUnreadable
| FileContent (file_content : list (str * table)).

Definition load_system_prompts_from_file (self_case_type : str) (file : prompts_file)
  : table :=
  match file with
  | FileMissing => get_default_prompts
  | FileUnreadable => get_default_prompts
  | FileContent file_content =>
      fold_left
        (fun result '(case_type, sections) =>
           fold_left
             (fun result '(section_name, section_content) =>
                let section_key := section_name in
                let result := Dict.set result section_key section_content in
                if str_eqb case_type self_case_type
                then Dict.set result (section_key ++ lit "_" ++ self_case_type)
                              section_content
                else result)
             sections result)
        file_content []
  end.

(** *** [GeminiHandler.load_system_prompts_from_db], 138-225 *)

Definition add_prompt_handler (self_case_type : str) (result : table)
    (prompt : document) : table :=
  let case_type := case_type_of prompt in
  fold_left (add_section self_case_type
               (truthy case_type && str_eqb case_type self_case_type))
            prompt result.

Definition load_system_prompts_from_db (self_case_type : str)
    (db : option (list document)) (file : prompts_file) : table :=
  match db with
  | None => load_system_prompts_from_file self_case_type file
  | Some [] => get_default_prompts
  | Some prompts =>
      let result := fold_left (add_prompt_handler self_case_type) prompts [] in
      match result with
      | [] => get_default_prompts
      | _ :: _ => result
      end
  end.

End PromptTables.

(** ** [InferencePipeline.process], pipeline.py 30-150

    The returned dict, without its [processing_time] (a clock reading);
    a key that a branch does not set is [None]. *)

Module InferencePipeline.

Record result {Image : Type} := mkResult {
  case_id : str;
  section : str;
  response : str;
  response_of_findings : str;
  images : list Image;
  exhibit_names : option (list str);
  exhibit_names_string : option str;
  error : option str
}.
Arguments result : clear implicits.

Section WithPipeline.
Context {Doc Image : Type}.
Variable self_case_id : str.
Variable system_prompts : table.
Variable case_type : str.
Variable sleep : Sleep.
Variable model : Model.
(** The contents extracted from the case files, the result of
    [get_all_exhibits] and that of [get_base64_images_for_section], [None]
    when it raises. *)
Variable all_content : list Doc.
Variable all_exhibits : list Image * list str.
Variable section_images : option (list Image).

Definition process (section : str) : option (result Image * list event) :=
  if str_eqb section (lit "Exhibits") then
    let '(exhibit_images, exhibit_names) := all_exhibits in
    let exhibit_names_string := join [nl] exhibit_names in
    Some (mkResult Image self_case_id section
            (lit "Exhibits section - displaying all case exhibits") []
            exhibit_images (Some exhibit_names) (Some exhibit_names_string) None,
          [])
  else
    match InferenceService.create_unified_analysis system_prompts case_type sleep model 5 3
            all_content section 3 with
    | None => None
    | Some (Raise e, t) =>
        Some (mkResult Image self_case_id section
                (lit "An error occurred during processing: " ++ exn_str e) []
                [] None None (Some (exn_str e)),
              t)
    | Some (Return response_text, t) =>
        if contains (lit "Error: Rate limit exceeded") response_text
           || contains (lit "Error: Could not generate unified analysis due to persistent API rate limits")
                       response_text
        then
          Some (mkResult Image self_case_id section
                  (lit "The server is experiencing high load or API rate limits have been reached. Please try again in a few minutes.")
                  [] [] None None (Some (lit "Rate limit exceeded")),
                t)
        else if contains (lit "An unexpected error occurred during analysis") response_text
                || contains (lit "Error querying Gemini") response_text
        then
          Some (mkResult Image self_case_id section
                  (lit "An internal error occurred while processing the documents with the AI model.")
                  [] [] None None (Some (lit "Internal Gemini error")),
                t)
        else
          let base64_encoded_images :=
            match section_images with
            | Some found => found
            | None => []
            end in
          if str_eqb section (lit "Background Information") then
            let '(response_of_findings, response_text_parsed) :=
              parse_background_response response_text in
            Some (mkResult Image self_case_id section response_text_parsed
                    response_of_findings base64_encoded_images None None None,
                  t)
          else
            let '(findings_part, background_part) :=
              extract_findings_and_background response_text in
            Some (mkResult Image self_case_id section background_part findings_part
                    base64_encoded_images None None None,
                  t)
    end.

End WithPipeline.
End InferencePipeline.

(** ** Text extraction, preprocessing.py 196-306

    The three functions of preprocessing.py and the methods of the same
    names of [GeminiHandler] (gemini_case_handler.py 437-526) are the same
    code. What the libraries read from the file is the argument: [None]
    when the file is missing or reading it raises. The result is the
    [text] of the returned dict, [None] for [None]. *)

Module Preprocessing.

(** The loop over the pages, lines 218-225: a page gives its text, or
    [None] when [get_text] raises. *)
Fixpoint pages_text (pages : list (option str)) (page_num : nat) (text_content : str)
  : str :=
  match pages with
  | [] => text_content
  | Some page_text :: rest =>
      pages_text rest (S page_num)
        (if truthy page_text then text_content ++ page_text else text_content)
  | None :: rest =>
      pages_text rest (S page_num)
        (text_content ++ [nl] ++ lit "[Error extracting page "
         ++ str_of_nat (page_num + 1) ++ lit "]" ++ [nl])
  end.

Definition process_pdf_for_gemini (pdf : option (list (option str))) : option str :=
  match pdf with
  | None => None
  | Some pages =>
      let text_content := pages_text pages 0 [] in
      let processed_text := strip text_content in
      if negb (truthy processed_text) then None else Some processed_text
  end.

Definition process_docx (docx : option (list str)) : option str :=
  match docx with
  | None => None
  | Some full_text =>
      let text_content :=
        join [nl; nl] (filter (fun p => truthy (strip p)) full_text) in
      let processed_text := strip text_content in
      if negb (truthy processed_text) then None else Some processed_text
  end.

Definition process_txt (txt : option str) : option str :=
  match txt with
  | None => None
  | Some text_content =>
      let processed_text := strip text_content in
      if negb (truthy processed_text) then None else Some processed_text
  end.

(** The three loops of [process_documents_in_batches] that fill
    [all_content], service.py 330-343. *)
Fixpoint append_contents {F} (process : F -> option str) (files : list F)
    (all_content : list str) : list str :=
  match files with
  | [] => all_content
  | file :: rest =>
      match process file with
      | Some content => append_contents process rest (all_content ++ [content])
      | None => append_contents process rest all_content
      end
  end.

Definition all_content (pdf_files : list (option (list (option str))))
    (docx_files : list (option (list str))) (txt_files : list (option str)) : list str :=
  let all_content := append_contents process_pdf_for_gemini pdf_files [] in
  let all_content := append_contents process_docx docx_files all_content in
  append_contents process_txt txt_files all_content.

End Preprocessing.

(** ** File names of the downloaded documents, service.py 231-246

    Paths follow the POSIX rules of [os.path]. *)

Module Download.

Definition backslash : ascii := "092"%char.

(** [os.path.basename(p)]: what follows the last slash. *)
Fixpoint basename_from (p : str) (name : str) : str :=
  match p with
  | [] => name
  | c :: p' => if Ascii.eqb c "/" then basename_from p' p' else basename_from p' name
  end.

Definition basename (p : str) : str := basename_from p p.

Definition normalized_path (doc_path : str) : str :=
  strip_chars (lit "/") (replace doc_path [backslash] (lit "/")).

(** The file name under which a document is stored, [None] when the path
    is skipped. *)
Definition file_name (doc_path : str) : option str :=
  if negb (truthy doc_path) then None
  else
    let normalized_path := normalized_path doc_path in
    if negb (truthy normalized_path) then None
    else
      let file_name := basename normalized_path in
      if negb (truthy file_name) then None else Some file_name.

End Download.

(** ** Auxiliary definitions of the proofs

    The three retry loops ([GeminiModel.predict_loop],
    [GeminiHandler.query_loop], [GeminiHandler.synthesis_loop]) have one
    shape: while [retry_count <= max_retries], call the model, and either
    finish or retry, with or without a sleep. [retry_loop] is that shape;
    each loop of the source is shown below to be an instance of it. *)

Inductive verdict :=
| Finish (r : outcome str)
| RetryAfter (delay : option Z).

Section RetryLoop.
Variable sleep : Sleep.
Variable body : Z -> nat -> verdict.
Variable exhausted : outcome str.
Variable max_retries : Z.

Fixpoint retry_loop (fuel : nat) (retry_count : Z) (k : nat) : run str :=
  match fuel with
  | O => None
  | S fuel' =>
      if retry_count <=? max_retries then
        match body retry_count k with
        | Finish r => Some (r, [EvCall k])
        | RetryAfter (Some d) =>
            match sleep d with
            | Some msg => Some (Raise (SleepException msg), [EvCall k])
            | None =>
                match retry_loop fuel' (retry_count + 1) (S k) with
                | None => None
                | Some (r, t) => Some (r, EvCall k :: EvSleep d :: t)
                end
            end
        | RetryAfter None =>
            match retry_loop fuel' (retry_count + 1) (S k) with
            | None => None
            | Some (r, t) => Some (r, EvCall k :: t)
            end
        end
      else Some (exhausted, [])
  end.

(** The events of one retried attempt. *)
Definition retried (retry_count : Z) (k : nat) : list event :=
  EvCall k ::
  match body retry_count k with
  | RetryAfter (Some d) => [EvSleep d]
  | _ => []
  end.

(** The events of [n] retried attempts in a row. *)
Fixpoint retried_prefix (n : nat) (retry_count : Z) (k : nat) : list event :=
  match n with
  | O => []
  | S n' => retried retry_count k ++ retried_prefix n' (retry_count + 1) (S k)
  end.

End RetryLoop.

(** An attempt is retried when its verdict is a retry and the sleep
    before it, if any, returns. *)
Definition retries (sleep : Sleep) (v : verdict) : Prop :=
  match v with
  | RetryAfter (Some d) => sleep d = None
  | RetryAfter None => True
  | Finish _ => False
  end.

Definition predict_body (model : Model) (base_retry_delay : Z)
    (retry_count : Z) (k : nat) : verdict :=
  match GeminiModel.try_generate model k with
  | inl response_text => Finish (Return response_text)
  | inr error_str =>
      if is_rate_limit error_str
      then RetryAfter
             (Some (extract_retry_delay error_str (base_retry_delay * 2 ^ retry_count)))
      else Finish (Raise (APIError (lit "Gemini API error: " ++ error_str)))
  end.

Definition query_body (model : Model) (base_retry_delay : Z)
    (retry_count : Z) (k : nat) : verdict :=
  match model k with
  | Responds r =>
      match block_reason r with
      | Some reason =>
          Finish (Return (lit "Error: Content generation blocked (" ++ reason ++ lit ")"))
      | None =>
          if negb (truthy (text r))
          then Finish (Return (lit "Error: No text returned (Reason: "
                               ++ finish_reason r ++ lit ")."))
          else Finish (Return (text r))
      end
  | Throws error_str =>
      if is_rate_limit error_str
      then RetryAfter
             (Some (extract_retry_delay error_str (base_retry_delay * 2 ^ retry_count)))
      else if contains format_error_phrase error_str then RetryAfter None
      else Finish (Raise (RuntimeError (lit "Gemini query failed: " ++ error_str)))
  end.

Definition synthesis_body (model : Model) (base_retry_delay : Z)
    (retry_count : Z) (k : nat) : verdict :=
  match model k with
  | Responds r =>
      match block_reason r with
      | Some reason =>
          Finish (Return (lit "Error: Content generation blocked (" ++ reason ++ lit ")"))
      | None =>
          if negb (truthy (text r))
          then Finish (Return (lit "Error: No text returned from final synthesis (Reason: "
                               ++ finish_reason r ++ lit ")."))
          else Finish (Return (text r))
      end
  | Throws error_str =>
      if is_rate_limit_synthesis error_str
      then RetryAfter
             (Some (extract_retry_delay error_str (base_retry_delay * 2 ^ retry_count)))
      else Finish (Raise (ModelException error_str))
  end.

(** The k-th call raises a rate-limit-class error. *)
Definition rate_limited_at (model : Model) (k : nat) : Prop :=
  exists error_str, model k = Throws error_str /\ is_rate_limit error_str = true.

(** The k-th call raises the format error, which the handler's batch loop
    retries without a sleep. *)
Definition format_error_at (model : Model) (k : nat) : Prop :=
  exists error_str,
    model k = Throws error_str /\ is_rate_limit error_str = false /\
    contains format_error_phrase error_str = true.

(** The k-th call raises an error that the handler's synthesis loop
    retries. *)
Definition synthesis_rate_limited_at (model : Model) (k : nat) : Prop :=
  exists error_str,
    model k = Throws error_str /\ is_rate_limit_synthesis error_str = true.

(** [str(e)] of the exception raised by a call, empty when it returns. *)
Definition error_of (a : attempt) : str :=
  match a with
  | Throws error_str => error_str
  | Responds _ => []
  end.

(** The delay that the code computes after the rate-limited call [k],
    made at [retry_count]. *)
Definition delay_after (model : Model) (base_retry_delay retry_count : Z) (k : nat) : Z :=
  extract_retry_delay (error_of (model k)) (base_retry_delay * 2 ^ retry_count).

(** Call [k], made at [retry_count], is rate-limited and the sleep after
    it returns. *)
Definition retried_at (sleep : Sleep) (model : Model) (base_retry_delay retry_count : Z)
    (k : nat) : Prop :=
  rate_limited_at model k /\
  sleep (delay_after model base_retry_delay retry_count k) = None.

(** Call [k] is one that the handler's batch loop retries. *)
Definition handler_retried_at (sleep : Sleep) (model : Model)
    (base_retry_delay retry_count : Z) (k : nat) : Prop :=
  retried_at sleep model base_retry_delay retry_count k \/ format_error_at model k.

(** Call [k] is one that the handler's synthesis loop retries. *)
Definition synthesis_retried_at (sleep : Sleep) (model : Model)
    (base_retry_delay retry_count : Z) (k : nat) : Prop :=
  synthesis_rate_limited_at model k /\
  sleep (delay_after model base_retry_delay retry_count k) = None.

(** In [predict], call [k] ends with the format error: an exception of the
    model, a block or a missing text whose message is not rate-limit-class
    and has the phrase of the format error. *)
Definition predict_format_error_at (model : Model) (k : nat) : Prop :=
  exists msg,
    GeminiModel.try_generate model k = inr msg /\
    is_rate_limit msg = false /\ contains format_error_phrase msg = true.

(** The call of [load] in [predict], if there is one, succeeds. *)
Definition load_succeeds (self_model : GeminiModel.model_state) : Prop :=
  match self_model with
  | GeminiModel.NotLoaded (Some _) => False
  | _ => True
  end.

(** [len(batch_results) == 1 and not processing_failed] *)
Definition single_success (batch_results : list str) (processing_failed : bool) : bool :=
  match batch_results, processing_failed with
  | [_], false => true
  | _, _ => false
  end.

Definition persistent_rate_limits : str :=
  lit "Error: Could not create unified analysis due to persistent API rate limits.".

Definition repeated_rate_limit : str :=
  lit "Error: Could not create unified analysis due to repeated rate limit or other errors.".



(** A text that starts and ends with a character that is not blank. *)
Definition solid (h : str) : bool :=
  match h, rev h with
  | c :: _, c' :: _ => negb (isspace c) && negb (isspace c')
  | _, _ => false
  end.

(** A value of the resolution variable: [None] or a value of the table. *)
Definition from_table (system_prompts : table) (v : option str) : Prop :=
  v = None \/ exists key, get system_prompts key = v.

(** *** The matches of a pattern at the start of a text

    [ends r s] lists the lengths of the matches of [r] at the start of
    [s] in the order in which the backtracking matcher [rmatch] tries
    them; the first one whose continuation succeeds is the match. *)
Fixpoint ends (r : regex) (s : str) : list nat :=
  match r with
  | Eps => [O]
  | Lit p => if startswith_ci s p then [List.length p] else []
  | Seq r1 r2 =>
      flat_map (fun c1 => map (Nat.add c1) (ends r2 (skipn c1 s))) (ends r1 s)
  | Alt r1 r2 => ends r1 s ++ ends r2 s
  | Opt r1 => ends r1 s ++ [O]
  end.

Fixpoint first_some {A} (l : list (option A)) : option A :=
  match l with
  | [] => None
  | Some x :: _ => Some x
  | None :: l' => first_some l'
  end.

(** Where the findings section of [parse_text_to_json] stops: at the
    start of the background header when it comes after the start of the
    findings header, at the end of the text otherwise (lines 44-59). *)
Definition findings_stop (text : str) (findings_start : Z) : Z :=
  match search background_pattern text with
  | Some (background_start, _) =>
      if findings_start <? background_start then background_start else len text
  | None => len text
  end.

(** *** Prompt resolution as the specification words it

    The resolution tries its lookups in order and takes the first hit; a
    lookup hits when it gives a prompt that is not empty. *)










(** The words of a pattern, letters compared without case. *)
Inductive lang : regex -> str -> Prop :=
| lang_eps : lang Eps []
| lang_lit p w : lower w = lower p -> lang (Lit p) w
| lang_seq r1 r2 w1 w2 : lang r1 w1 -> lang r2 w2 -> lang (Seq r1 r2) (w1 ++ w2)
| lang_alt_l r1 r2 w : lang r1 w -> lang (Alt r1 r2) w
| lang_alt_r r1 r2 w : lang r2 w -> lang (Alt r1 r2) w
| lang_opt_some r w : lang r w -> lang (Opt r) w
| lang_opt_none r : lang (Opt r) [].

Definition first_test_phrase : str :=
  lit "This is some initial content without a header".

Definition second_test_phrase : str :=
  lit "The investigation found several findings related to the incident".

(** ** Inputs of the examples *)

Definition clock_overflow : str := lit "timestamp too large to convert to C _PyTime_t".

(** A [time.sleep] as CPython has it for an [int] on a clock of 64-bit
    nanoseconds: the delay must fit the clock ([OverflowError]) and must
    not be negative ([ValueError]). A platform may refuse a large delay
    below that bound; the properties below hold for every [Sleep]. *)
Definition time_sleep : Sleep :=
  fun secs =>
    if (secs <? -9223372036) || (9223372036 <? secs)
    then Some clock_overflow
    else if secs <? 0 then Some (lit "sleep length must be non-negative")
    else None.

(** A rate limit whose suggested delay does not fit the clock. *)
Definition suggesting_too_much : Model :=
  fun _ => Throws (lit "429 Resource exhausted. retry_delay { seconds: 9223372035 }").

Definition example_prompts : table := [(lit "Findings", lit "List the findings.")].
Definition example_batch : list str := [lit "document text"].
Definition always_429 : Model := fun _ => Throws (lit "429 Too Many Requests").
Definition format_error_then_text : Model :=
  fun k => match k with
           | O => Throws format_error_phrase
           | S _ => Responds (mkResponse None (lit "ok") (lit "STOP"))
           end.

Definition blocked_model : Model :=
  fun _ => Responds (mkResponse (Some (lit "SAFETY")) [] (lit "STOP")).


(** Two batches answered, then rate limits only. *)
Definition two_texts_then_429 : Model :=
  fun k => match k with
           | 0%nat => Responds (mkResponse None (lit "first analysis") (lit "STOP"))
           | 1%nat => Responds (mkResponse None (lit "second analysis") (lit "STOP"))
           | _ => Throws (lit "429 Too Many Requests")
           end.

(** Two batches answered, then a rate limit whose suggested delay does
    not fit the clock. *)
Definition two_texts_then_too_much : Model :=
  fun k => match k with
           | 0%nat => Responds (mkResponse None (lit "first analysis") (lit "STOP"))
           | 1%nat => Responds (mkResponse None (lit "second analysis") (lit "STOP"))
           | _ => suggesting_too_much k
           end.

Definition two_documents : list str := [lit "document one"; lit "document two"].


Definition seven_documents : list str :=
  [lit "d1"; lit "d2"; lit "d3"; lit "d4"; lit "d5"; lit "d6"; lit "d7"].

Definition marker_example : str :=
  lit "pre-text" ++ [nl] ++ lit "**Background Information**" ++ [nl] ++ lit "post-text".

Definition plain_example : str := lit "just some text".

Definition header_example : str :=
  lit "**FINDINGS**" ++ [nl] ++ lit "X" ++ [nl]
  ++ lit "**2.0 BACKGROUND INFORMATION**" ++ [nl] ++ lit "Y".

Definition repeated_header_example : str :=
  lit "**FINDINGS**" ++ [nl] ++ lit "X **FINDINGS**".

(** ** Auxiliary definitions and inputs of the examples, continued *)

Definition image_rate_limit_message : str :=
  lit "Error: Repeated rate limit or network errors prevented generating image description.".

Definition always_quota : Model := fun _ => Throws (lit "Quota exceeded for this project").

Definition image_limit_message : str :=
  lit "Rate limit exceeded after maximum retries for image processing.".

(** One pass of [predict_with_image] on a decoded image, as a verdict. *)
Definition image_body (model : GeminiImageModel.ImageModel) (base_retry_delay : Z)
    (retry_count : Z) (k : nat) : verdict :=
  match GeminiImageModel.describe model k with
  | inl response_text => Finish (Return response_text)
  | inr error_str =>
      if is_rate_limit error_str
      then RetryAfter
             (Some (extract_retry_delay error_str (base_retry_delay * 2 ^ retry_count)))
      else Finish (Raise (APIError (lit "Error generating image description: "
                                    ++ error_str)))
  end.

(** The k-th pass fails with a rate-limit-class error and the sleep that
    follows returns. *)
Definition image_retried_at (sleep : Sleep) (model : GeminiImageModel.ImageModel)
    (base_retry_delay retry_count : Z) (k : nat) : Prop :=
  exists error_str,
    GeminiImageModel.describe model k = inr error_str /\
    is_rate_limit error_str = true /\
    sleep (extract_retry_delay error_str (base_retry_delay * 2 ^ retry_count)) = None.

(** The delay after a pass on an image that does not decode. *)
Definition undecodable_delay (e : str) (base_retry_delay retry_count : Z) : Z :=
  extract_retry_delay (lit "Failed to decode base64 image: " ++ e)
    (base_retry_delay * 2 ^ retry_count).

Definition is_sleep (e : event) : bool :=
  match e with EvSleep _ => true | EvCall _ => false end.

(** Number of [time.sleep] calls in a trace. *)
Definition nsleeps (t : list event) : nat := List.length (filter is_sleep t).

Definition image_always_429 : GeminiImageModel.ImageModel :=
  fun _ => GeminiImageModel.ImageThrows (lit "429 Too Many Requests").

Definition image_suggesting_too_much : GeminiImageModel.ImageModel :=
  fun _ => GeminiImageModel.ImageThrows
             (lit "429 Resource exhausted. retry_delay { seconds: 9223372035 }").

Definition image_blocked : GeminiImageModel.ImageModel :=
  fun _ => GeminiImageModel.ImageResponds
             (GeminiImageModel.mkImageResponse
                [(false, lit "HARASSMENT"); (true, lit "DANGEROUS_CONTENT")]
                (Some (lit "a description")) None).

Definition image_empty_text : GeminiImageModel.ImageModel :=
  fun _ => GeminiImageModel.ImageResponds
             (GeminiImageModel.mkImageResponse [] (Some []) None).

(** The message of [b64decode] on 429 characters of data. *)
Definition decode_error_429 : str :=
  lit "Invalid base64-encoded string: number of data characters (429) cannot be 1 more than a multiple of 4".

(** The keys of a dict are distinct. *)
Definition distinct_keys {V} (d : list (str * V)) : Prop := NoDup (map fst d).

Definition loaded_cache : ModelLoader.cache :=
  [(lit "gemini_flash", ModelLoader.mkModel (lit "flash") (lit "key") true)].

Definition no_documents_message : str :=
  lit "Error: No documents found or processed successfully for this case.".

(** What [process] returns when no branch for an error is taken. *)
Definition plain_result {Image} (self_case_id section response_text : str)
    (section_images : option (list Image)) : InferencePipeline.result Image :=
  let base64_encoded_images :=
    match section_images with Some found => found | None => [] end in
  let parts :=
    if str_eqb section (lit "Background Information")
    then parse_background_response response_text
    else extract_findings_and_background response_text in
  InferencePipeline.mkResult Image self_case_id section (snd parts) (fst parts)
    base64_encoded_images None None None.

Definition no_images : option (list str) := None.
Definition no_exhibits : list str * list str := ([], []).

Definition no_prompts_message : str :=
  lit "Error: Not enough information is provided. No system prompts found in MongoDB.".

(** What the service returns for an outcome of the synthesis [predict],
    service.py 452-461. *)
Definition synthesis_result (r : outcome str) : outcome str :=
  match r with
  | Return unified_response => Return unified_response
  | Raise (APIRateLimitError _) => Return persistent_rate_limits
  | Raise (APIError msg) => Return (lit "Error: " ++ msg)
  | Raise e =>
      Return (lit "Error: An unexpected error occurred during analysis: " ++ exn_str e)
  end.

(** A field that the loaders take for a section. *)
Definition section_field (key : str) : bool :=
  negb (existsb (str_eqb key) PromptTables.non_section_fields).

(** [v] is the text of a section field of a document of the collection. *)
Definition stored_prompt (prompts : list PromptTables.document) (v : str) : Prop :=
  exists d key, In d prompts /\ In (key, v) d /\ section_field key = true.

Definition example_collection : list PromptTables.document :=
  [ [ (lit "_id", lit "1"); (lit "case_type", lit "slip");
      (lit "Findings", lit "List the findings of the fall.");
      (lit "Site_Inspection", lit "Describe the inspection of the site.") ];
    [ (lit "_id", lit "2"); (lit "case_type", lit "fire");
      (lit "Findings", lit "List the findings of the fire.") ] ].

(** A text that is not empty and neither starts nor ends with a blank. *)
Definition clean (t : str) : Prop := t <> [] /\ solid t = true.

(** The texts that [process] extracts from [files], in order. *)
Definition extracted {F} (process : F -> option str) (files : list F) : list str :=
  flat_map (fun file => match process file with Some content => [content] | None => [] end)
           files.

(** The marker left in the text of a PDF for a page that cannot be read. *)
Definition page_error_marker (page : nat) : str :=
  lit "[Error extracting page " ++ str_of_nat page ++ lit "]".

Definition unreadable_pdf : option (list (option str)) := Some [None; None].

Definition example_path : str :=
  [Download.backslash] ++ lit "case-1" ++ [Download.backslash] ++ lit "reports" ++ [Download.backslash]
  ++ lit "report.pdf" ++ [Download.backslash].

(** What [predict] may raise: the two exceptions of its retry loop, the
    exception of a [time.sleep] that raised, and the [ModelLoadingError]
    of [load], on a model that was not loaded. *)
Definition predict_exception (sleep : Sleep) (self_model : GeminiModel.model_state)
    (e : exn) : Prop :=
  e = APIRateLimitError rate_limit_message \/
  (exists error_str, e = APIError (lit "Gemini API error: " ++ error_str)) \/
  (exists delay msg, sleep delay = Some msg /\ e = SleepException msg) \/
  (exists msg, self_model = GeminiModel.NotLoaded (Some msg) /\
               e = ModelLoadingError msg).

(** The cases in which the handler has no stored prompt: the collection
    has no section field, or the database fails and the prompts file is
    missing or cannot be read. *)
Definition no_stored_sections (db : option (list PromptTables.document))
    (file : PromptTables.prompts_file) : Prop :=
  match db with
  | Some prompts =>
      forall d key v, In d prompts -> In (key, v) d -> section_field key = false
  | None =>
      match file with
      | PromptTables.FileContent _ => False
      | _ => True
      end
  end.

(* ================================================================== *)
(** * Part II: properties *)
(* ================================================================== *)

(** ** Slices *)

Lemma clamp_inside (n i : Z) : 0 <= i <= n -> clamp n i = Z.to_nat i.
Proof.
  intros H. unfold clamp.
  destruct (i <? 0) eqn:E; [apply Z.ltb_lt in E; lia|].
  f_equal. lia.
Qed.

Lemma clamp_above (n i : Z) : 0 <= n <= i -> clamp n i = Z.to_nat n.
Proof.
  intros H. unfold clamp.
  destruct (i <? 0) eqn:E; [apply Z.ltb_lt in E; lia|].
  f_equal. lia.
Qed.

Lemma slice_chunk {A} (l : list A) (i k : Z) :
  0 <= i <= len l -> 0 <= k ->
  slice l i (i + k) = firstn (Z.to_nat k) (skipn (Z.to_nat i) l).
Proof.
  intros Hi Hk. unfold slice.
  rewrite (clamp_inside _ i) by exact Hi.
  destruct (Z_le_gt_dec (i + k) (len l)) as [Hle|Hgt].
  - rewrite clamp_inside by lia. f_equal. lia.
  - rewrite clamp_above by lia.
    rewrite !firstn_all2; auto; rewrite length_skipn; unfold len in *; lia.
Qed.

Lemma len_nonneg {A} (l : list A) : 0 <= len l.
Proof. unfold len. lia. Qed.

Lemma len_chunk {A} (l : list A) (i k : Z) :
  0 <= i <= len l -> 0 <= k ->
  len (slice l i (i + k)) = Z.min k (len l - i).
Proof.
  intros Hi Hk. rewrite slice_chunk by assumption.
  unfold len in *. rewrite length_firstn, length_skipn. lia.
Qed.

(** ** Document Batcher *)

Section BatcherFacts.
Context {Doc : Type}.
Variable D : list Doc.
Variable size : Z.
Hypothesis size_pos : 1 <= size.

Lemma range_fuel_nth (fuel : nat) (i stop : Z) (k : nat) (j : Z) :
  nth_error (range_fuel fuel i stop size) k = Some j ->
  j = i + Z.of_nat k * size /\ j < stop.
Proof.
  revert i k. induction fuel as [|fuel IH]; intros i k; simpl.
  - destruct k; discriminate.
  - destruct (i <? stop) eqn:E; [|destruct k; discriminate].
    apply Z.ltb_lt in E. destruct k as [|k]; cbn [nth_error].
    + intros [= <-]. lia.
    + intros H. apply IH in H. rewrite Nat2Z.inj_succ. nia.
Qed.

Lemma concat_range_fuel (fuel : nat) (i : Z) :
  0 <= i <= len D -> len D - i <= Z.of_nat fuel ->
  concat (map (fun i => slice D i (i + size)) (range_fuel fuel i (len D) size))
  = skipn (Z.to_nat i) D.
Proof.
  revert i. induction fuel as [|fuel IH]; intros i Hi Hf; simpl.
  - rewrite skipn_all2; [reflexivity | unfold len in *; lia].
  - destruct (i <? len D) eqn:E.
    + apply Z.ltb_lt in E. simpl.
      rewrite slice_chunk by lia.
      destruct (Z_le_gt_dec (i + size) (len D)) as [Hle|Hgt].
      * rewrite IH by lia.
        replace (Z.to_nat (i + size)) with (Z.to_nat size + Z.to_nat i)%nat by lia.
        rewrite <- skipn_skipn. apply firstn_skipn.
      * assert (Hnil : range_fuel fuel (i + size) (len D) size = []).
        { destruct fuel; simpl; [reflexivity|].
          destruct (i + size <? len D) eqn:E'; [apply Z.ltb_lt in E'; lia | reflexivity]. }
        rewrite Hnil. simpl. rewrite app_nil_r.
        apply firstn_all2. rewrite length_skipn. unfold len in *. lia.
    + apply Z.ltb_ge in E. simpl.
      rewrite skipn_all2; [reflexivity | unfold len in *; lia].
Qed.

(** C3 (batching). For every list of extracted contents [D] and every
    [max_batch_size >= 1], [process_documents_in_batches] returns batches
    whose concatenation is [D]; batch [k] is the contiguous slice
    [D[k*size : k*size + size]]; every batch has between 1 and
    [max_batch_size] elements and every batch but the last has exactly
    [max_batch_size]; an empty [D] gives no batch. *)
Theorem batching_partitions_without_loss :
  exists bs,
    process_documents_in_batches D size = Some bs /\
    concat bs = D /\
    (forall k b, nth_error bs k = Some b ->
       b = slice D (Z.of_nat k * size) (Z.of_nat k * size + size) /\
       1 <= len b <= size /\
       ((S k < List.length bs)%nat -> len b = size)) /\
    (D = [] -> bs = []).
Proof.
  destruct D as [|d D'] eqn:HD.
  - exists []. simpl. repeat split; try reflexivity; destruct k; discriminate.
  - rewrite <- HD.
    assert (Hproc : process_documents_in_batches D size
              = Some (map (fun i => slice D i (i + size))
                          (range_fuel (Z.to_nat (len D - 0)) 0 (len D) size))).
    { rewrite HD at 1. unfold process_documents_in_batches, range.
      destruct (size =? 0) eqn:E0; [apply Z.eqb_eq in E0; lia|].
      destruct (size <? 0) eqn:E1; [apply Z.ltb_lt in E1; lia|].
      rewrite HD. reflexivity. }
    eexists. split; [exact Hproc|].
    pose proof (len_nonneg D) as Hlen.
    split; [|split].
    + rewrite concat_range_fuel by lia. reflexivity.
    + intros k b Hk.
      rewrite nth_error_map in Hk.
      destruct (nth_error _ k) as [j|] eqn:Hj; [|discriminate].
      injection Hk as <-.
      pose proof (range_fuel_nth _ _ _ _ _ Hj) as [Hjk Hjs].
      assert (j = Z.of_nat k * size) as -> by lia.
      split; [reflexivity|].
      rewrite len_chunk by lia.
      split; [lia|].
      rewrite length_map. intros Hnext.
      destruct (nth_error (range_fuel (Z.to_nat (len D - 0)) 0 (len D) size) (S k))
        as [j'|] eqn:Hj'.
      * apply range_fuel_nth in Hj'. lia.
      * apply nth_error_None in Hj'. lia.
    + intros H. rewrite H in HD. discriminate.
Qed.

End BatcherFacts.

Lemma batching_partitions_without_loss_witness :
  exists bs,
    process_documents_in_batches seven_documents 3 = Some bs /\
    concat bs = seven_documents /\
    (forall k b, nth_error bs k = Some b ->
       b = slice seven_documents (Z.of_nat k * 3) (Z.of_nat k * 3 + 3) /\
       1 <= len b <= 3 /\
       ((S k < List.length bs)%nat -> len b = 3)) /\
    (seven_documents = [] -> bs = []).
Proof. apply (batching_partitions_without_loss seven_documents 3). lia. Defined.

(** Seven documents in batches of three: 3, 3 and 1. *)
Example seven_documents_batches :
  process_documents_in_batches seven_documents 3
  = Some [[lit "d1"; lit "d2"; lit "d3"]; [lit "d4"; lit "d5"; lit "d6"]; [lit "d7"]].
Proof. reflexivity. Qed.

(** ** Strings *)

Lemma startswith_nil (s : str) : startswith s [] = true.
Proof. destruct s; reflexivity. Qed.

Lemma startswith_true (s p : str) :
  startswith s p = true <-> exists r, s = p ++ r.
Proof.
  revert s. induction p as [|c p IH]; intros s.
  - rewrite startswith_nil. split; [intros _; exists s; reflexivity | reflexivity].
  - destruct s as [|c' s]; cbn [startswith].
    + split; [discriminate | intros [r Hr]; discriminate].
    + rewrite andb_true_iff, Ascii.eqb_eq, IH. split.
      * intros [-> [r ->]]. exists r. reflexivity.
      * intros [r [= -> ->]]. split; [reflexivity | exists r; reflexivity].
Qed.

Lemma startswith_app (p r : str) : startswith (p ++ r) p = true.
Proof. apply startswith_true. exists r. reflexivity. Qed.





(** [index] finds the lowest position at which [sub] occurs. *)
Lemma index_Some (s sub : str) (i : nat) :
  index s sub = Some i <->
  (i <= List.length s)%nat /\ startswith (skipn i s) sub = true /\
  forall j, (j < i)%nat -> startswith (skipn j s) sub = false.
Proof.
  revert i. induction s as [|c s IH]; intros i.
  - cbn [index]. destruct (startswith [] sub) eqn:E.
    + split.
      * intros [= <-]. repeat split; [lia | exact E | intros j Hj; lia].
      * intros (Hi & _ & _). simpl in Hi. f_equal. lia.
    + split; [discriminate|]. intros (Hi & Hs & _).
      simpl in Hi. assert (i = O) as -> by lia. cbn [skipn] in Hs. congruence.
  - cbn [index]. destruct (startswith (c :: s) sub) eqn:E.
    + split.
      * intros [= <-]. repeat split; [simpl; lia | exact E | intros j Hj; lia].
      * intros (_ & _ & Hmin). destruct i as [|i]; [reflexivity|].
        specialize (Hmin O ltac:(lia)). cbn [skipn] in Hmin. congruence.
    + destruct (index s sub) as [i'|] eqn:Ei; cbn [option_map].
      * split.
        -- intros [= <-]. destruct (proj1 (IH i') eq_refl) as (Hi & Hs & Hmin).
           repeat split; [simpl; lia | exact Hs |].
           intros [|j] Hj; [exact E | apply Hmin; lia].
        -- intros (Hi & Hs & Hmin). destruct i as [|i]; [cbn [skipn] in Hs; congruence|].
           assert (Some i' = Some i) as Hc; [|congruence].
           apply IH. repeat split; [simpl in Hi; lia | exact Hs |].
           intros j Hj. apply (Hmin (S j)). lia.
      * split; [discriminate|]. intros (Hi & Hs & Hmin).
        destruct i as [|i]; [cbn [skipn] in Hs; congruence|].
        assert (None = Some i) as Hc; [|discriminate].
        apply IH. repeat split; [simpl in Hi; lia | exact Hs |].
        intros j Hj. apply (Hmin (S j)). lia.
Qed.

Lemma index_None (s sub : str) :
  index s sub = None <-> forall j, startswith (skipn j s) sub = false.
Proof.
  induction s as [|c s IH].
  - cbn [index]. destruct (startswith [] sub) eqn:E.
    + split; [discriminate|]. intros H. specialize (H O). cbn [skipn] in H. congruence.
    + split; [|reflexivity]. intros _ j. rewrite skipn_nil. exact E.
  - cbn [index]. destruct (startswith (c :: s) sub) eqn:E.
    + split; [discriminate|]. intros H. specialize (H O). cbn [skipn] in H. congruence.
    + destruct (index s sub) as [i|] eqn:Ei; cbn [option_map].
      * split; [discriminate|]. intros H.
        assert (Some i = None) as Hc; [|discriminate].
        apply IH. intros j. apply (H (S j)).
      * split; [|reflexivity]. intros _ [|j]; [exact E|].
        apply (proj1 IH eq_refl).
Qed.


Lemma contains_true (sub s : str) :
  contains sub s = true <-> exists pre post, s = pre ++ sub ++ post.
Proof.
  unfold contains. destruct (index s sub) as [i|] eqn:E.
  - split; [intros _|reflexivity].
    apply index_Some in E as (_ & Hs & _).
    apply startswith_true in Hs as [r Hr].
    exists (firstn i s), r. rewrite <- Hr. symmetry. apply firstn_skipn.
  - split; [discriminate|]. intros (pre & post & ->).
    rewrite index_None in E. specialize (E (List.length pre)).
    rewrite skipn_app, skipn_all, Nat.sub_diag in E. simpl in E.
    rewrite startswith_app in E. discriminate.
Qed.





(** ** [split] *)





(** ** [strip] and [int] *)

Lemma lstrip_nonspace (c : ascii) (s : str) : isspace c = false -> lstrip (c :: s) = c :: s.
Proof. intros H. cbn [lstrip]. rewrite H. reflexivity. Qed.





Lemma digit_val_nonneg (c : ascii) : isdigit c = true -> 0 <= digit_val c <= 9.
Proof.
  unfold isdigit, digit_val. intros H.
  apply andb_true_iff in H as [H1 H2].
  apply Nat.leb_le in H1, H2. lia.
Qed.

Lemma fold_digits_nonneg (s : str) (acc : Z) :
  Forall (fun c => isdigit c = true) s -> 0 <= acc ->
  0 <= fold_left (fun acc c => 10 * acc + digit_val c) s acc.
Proof.
  revert acc. induction s as [|c s IH]; intros acc Hs Hacc; [exact Hacc|].
  inversion Hs as [|? ? Hc Hs']; subst. cbn [fold_left].
  apply IH; [exact Hs'|]. apply digit_val_nonneg in Hc. lia.
Qed.

Lemma filter_isdigit_Forall (s : str) :
  Forall (fun c => isdigit c = true) (filter isdigit s).
Proof. apply Forall_forall. intros c Hc. apply filter_In in Hc. tauto. Qed.

Lemma int_of_digits_nonneg (s : str) (n : Z) :
  Forall (fun c => isdigit c = true) s -> int_of_digits s = Some n -> 0 <= n.
Proof.
  intros Hs. unfold int_of_digits. destruct s as [|c s]; [discriminate|].
  intros [= <-]. apply (fold_digits_nonneg (c :: s) 0 Hs). lia.
Qed.


(** ** [extract_retry_delay] *)

(** The delay is never negative when the default is not: a parsed delay
    is a number of seconds plus two. *)
Lemma extract_retry_delay_nonneg (e : str) (d : Z) :
  0 <= d -> 0 <= extract_retry_delay e d.
Proof.
  intros Hd. unfold extract_retry_delay.
  destruct (negb (contains (lit "429") e)); [exact Hd|].
  destruct (contains (lit "retry_delay") e); [|exact Hd].
  destruct (nth_error _ 1) as [a|]; [|exact Hd].
  destruct (nth_error _ 0) as [b|]; [|exact Hd].
  destruct (nth_error _ 1) as [c|]; [|exact Hd].
  destruct (int_of_digits _) as [n|] eqn:E; [|exact Hd].
  apply int_of_digits_nonneg in E; [lia | apply filter_isdigit_Forall].
Qed.



Lemma skipn_app_exact {A} (a b : list A) (n : nat) :
  n = List.length a -> skipn n (a ++ b) = b.
Proof. intros ->. rewrite skipn_app, skipn_all, Nat.sub_diag. reflexivity. Qed.

Lemma firstn_app_exact {A} (a b : list A) (n : nat) :
  n = List.length a -> firstn n (a ++ b) = a.
Proof.
  intros ->. rewrite firstn_app, firstn_all, Nat.sub_diag. cbn [firstn].
  apply app_nil_r.
Qed.








Ltac not_in_literal :=
  let H := fresh in
  intros H; cbn in H;
  repeat (destruct H as [H|H]; [discriminate H|]); exact H.


(** ** The retry loops *)

Lemma ncalls_app (t t' : list event) : ncalls (t ++ t') = (ncalls t + ncalls t')%nat.
Proof. unfold ncalls. rewrite filter_app, length_app. reflexivity. Qed.

Lemma ncalls_cons_call (k : nat) (t : list event) : ncalls (EvCall k :: t) = S (ncalls t).
Proof. reflexivity. Qed.

Lemma ncalls_cons_sleep (d : Z) (t : list event) : ncalls (EvSleep d :: t) = ncalls t.
Proof. reflexivity. Qed.

Section RetryLoopFacts.
Variable sleep : Sleep.
Variable body : Z -> nat -> verdict.
Variable exhausted : outcome str.
Variable max_retries : Z.

Let loop := retry_loop sleep body exhausted max_retries.

(** With one unit of fuel more than the iterations left, the loop ends. *)
Lemma retry_loop_total (fuel : nat) (rc : Z) (k : nat) :
  Z.max 0 (max_retries - rc + 1) < Z.of_nat fuel ->
  exists r t, loop fuel rc k = Some (r, t).
Proof.
  subst loop. revert rc k. induction fuel as [|fuel IH]; intros rc k Hf; [lia|].
  cbn [retry_loop].
  destruct (rc <=? max_retries) eqn:E; [|eauto].
  apply Z.leb_le in E.
  destruct (body rc k) as [r|[d|]]; [eauto| |].
  - destruct (sleep d); [eauto|].
    destruct (IH (rc + 1) (S k)) as (r & t & ->); [lia|eauto].
  - destruct (IH (rc + 1) (S k)) as (r & t & ->); [lia|eauto].
Qed.

(** The loop calls the model at most once per value of [retry_count]. *)
Lemma retry_loop_bound (fuel : nat) (rc : Z) (k : nat) r t :
  loop fuel rc k = Some (r, t) ->
  Z.of_nat (ncalls t) <= Z.max 0 (max_retries - rc + 1).
Proof.
  subst loop. revert rc k r t. induction fuel as [|fuel IH]; intros rc k r t; [discriminate|].
  cbn [retry_loop].
  destruct (rc <=? max_retries) eqn:E.
  - apply Z.leb_le in E.
    destruct (body rc k) as [r0|[d|]].
    + intros [= <- <-]. cbn. lia.
    + destruct (sleep d); [intros [= <- <-]; cbn; lia|].
      destruct (retry_loop _ _ _ _ fuel (rc + 1) (S k)) as [[r1 t1]|] eqn:L; [|discriminate].
      intros [= <- <-]. apply IH in L.
      rewrite ncalls_cons_call, ncalls_cons_sleep. lia.
    + destruct (retry_loop _ _ _ _ fuel (rc + 1) (S k)) as [[r1 t1]|] eqn:L; [|discriminate].
      intros [= <- <-]. apply IH in L. rewrite ncalls_cons_call. lia.
  - intros [= <- <-]. cbn. lia.
Qed.

Lemma ncalls_retried_prefix (n : nat) (rc : Z) (k : nat) :
  ncalls (retried_prefix body n rc k) = n.
Proof.
  revert rc k. induction n as [|n IH]; intros rc k; [reflexivity|].
  cbn [retried_prefix]. rewrite ncalls_app, IH. unfold retried.
  destruct (body rc k) as [r|[d|]]; reflexivity.
Qed.

(** The calls of [n] retried attempts are the calls [k], ..., [k + n - 1]. *)
Lemma In_retried_prefix (n : nat) (rc : Z) (k j : nat) :
  In (EvCall j) (retried_prefix body n rc k) <-> (k <= j < k + n)%nat.
Proof.
  revert rc k. induction n as [|n IH]; intros rc k; cbn [retried_prefix].
  - split; [contradiction | lia].
  - rewrite in_app_iff, IH. unfold retried. split.
    + intros [[E|H]|H]; [injection E as E; lia | | lia].
      destruct (body rc k) as [r|[d|]]; cbn [In] in H;
        [contradiction | destruct H as [E|[]]; discriminate E | contradiction].
    + intros H. destruct (Nat.eq_dec j k) as [->|Hne]; [left; left; reflexivity|].
      right. lia.
Qed.

(** [n] retried attempts in a row: the loop emits their events and goes on
    from [retry_count + n]. *)
Lemma retry_loop_skip (n fuel : nat) (rc : Z) (k : nat) :
  (forall j, (j < n)%nat -> retries sleep (body (rc + Z.of_nat j) (k + j)%nat)) ->
  rc + Z.of_nat n <= max_retries + 1 ->
  loop (n + fuel)%nat rc k =
  match loop fuel (rc + Z.of_nat n) (k + n)%nat with
  | None => None
  | Some (r, t) => Some (r, retried_prefix body n rc k ++ t)
  end.
Proof.
  subst loop. revert rc k. induction n as [|n IH]; intros rc k Hret Hmax.
  - cbn [retried_prefix Nat.add app]. rewrite Z.add_0_r, Nat.add_0_r.
    destruct (retry_loop _ _ _ _ fuel rc k) as [[r t]|]; reflexivity.
  - cbn [Nat.add retry_loop retried_prefix].
    destruct (rc <=? max_retries) eqn:E; [|apply Z.leb_gt in E; lia].
    pose proof (Hret O ltac:(lia)) as H0.
    rewrite Z.add_0_r, Nat.add_0_r in H0.
    assert (Hrest : retry_loop sleep body exhausted max_retries (n + fuel) (rc + 1) (S k) =
              match retry_loop sleep body exhausted max_retries fuel
                      (rc + Z.of_nat (S n)) (k + S n)%nat with
              | None => None
              | Some (r, t) => Some (r, retried_prefix body n (rc + 1) (S k) ++ t)
              end).
    { rewrite IH.
      - replace (rc + 1 + Z.of_nat n) with (rc + Z.of_nat (S n)) by lia.
        replace (S k + n)%nat with (k + S n)%nat by lia. reflexivity.
      - intros j Hj. specialize (Hret (S j) ltac:(lia)).
        replace (rc + 1 + Z.of_nat j) with (rc + Z.of_nat (S j)) by lia.
        replace (S k + j)%nat with (k + S j)%nat by lia. exact Hret.
      - lia. }
    unfold retried.
    destruct (body rc k) as [r|[d|]]; cbn [retries] in H0; [contradiction| |].
    + rewrite H0, Hrest.
      destruct (retry_loop _ _ _ _ fuel _ _) as [[r t]|]; reflexivity.
    + rewrite Hrest.
      destruct (retry_loop _ _ _ _ fuel _ _) as [[r t]|]; reflexivity.
Qed.

(** Every attempt retried: the loop ends exhausted after exactly
    [max_retries + 1] calls. *)
Lemma retry_loop_exhausted (rc : Z) (k : nat) :
  0 <= rc <= max_retries + 1 ->
  let n := Z.to_nat (max_retries - rc + 1) in
  (forall j, (j < n)%nat -> retries sleep (body (rc + Z.of_nat j) (k + j)%nat)) ->
  loop (S n) rc k = Some (exhausted, retried_prefix body n rc k).
Proof.
  intros Hrc n Hret.
  replace (S n) with (n + 1)%nat by lia.
  rewrite retry_loop_skip by (assumption || lia).
  subst loop. cbn [retry_loop].
  destruct (rc + Z.of_nat n <=? max_retries) eqn:E; [apply Z.leb_le in E; lia|].
  rewrite app_nil_r. reflexivity.
Qed.

(** [n] attempts retried and the next one finishing: the loop ends there,
    after [n + 1] calls. *)
Lemma retry_loop_finish (n fuel : nat) (rc : Z) (k : nat) r :
  (forall j, (j < n)%nat -> retries sleep (body (rc + Z.of_nat j) (k + j)%nat)) ->
  rc + Z.of_nat n <= max_retries ->
  body (rc + Z.of_nat n) (k + n)%nat = Finish r ->
  loop (n + S fuel)%nat rc k
  = Some (r, retried_prefix body n rc k ++ [EvCall (k + n)]).
Proof.
  intros Hret Hmax Hfin.
  rewrite retry_loop_skip by (assumption || lia).
  subst loop. cbn [retry_loop].
  destruct (rc + Z.of_nat n <=? max_retries) eqn:E; [|apply Z.leb_gt in E; lia].
  rewrite Hfin. reflexivity.
Qed.

(** [n] attempts retried and the sleep after the next one raising: the
    exception leaves the loop after [n + 1] calls. *)
Lemma retry_loop_sleep_fails (n fuel : nat) (rc : Z) (k : nat) (d : Z) (msg : str) :
  (forall j, (j < n)%nat -> retries sleep (body (rc + Z.of_nat j) (k + j)%nat)) ->
  rc + Z.of_nat n <= max_retries ->
  body (rc + Z.of_nat n) (k + n)%nat = RetryAfter (Some d) ->
  sleep d = Some msg ->
  loop (n + S fuel)%nat rc k
  = Some (Raise (SleepException msg), retried_prefix body n rc k ++ [EvCall (k + n)]).
Proof.
  intros Hret Hmax Hbody Hsleep.
  rewrite retry_loop_skip by (assumption || lia).
  subst loop. cbn [retry_loop].
  destruct (rc + Z.of_nat n <=? max_retries) eqn:E; [|apply Z.leb_gt in E; lia].
  rewrite Hbody, Hsleep. reflexivity.
Qed.


(** Every run of the loop has this form: [n] retried attempts, and then
    the loop is exhausted, or attempt [n] finishes, or the sleep after
    attempt [n] raises. *)
Lemma retry_loop_inv (fuel : nat) (rc : Z) (k : nat) r t :
  loop fuel rc k = Some (r, t) ->
  exists n,
    (forall j, (j < n)%nat -> retries sleep (body (rc + Z.of_nat j) (k + j)%nat)) /\
    ((max_retries < rc + Z.of_nat n /\ r = exhausted /\
      t = retried_prefix body n rc k) \/
     (rc + Z.of_nat n <= max_retries /\
      t = retried_prefix body n rc k ++ [EvCall (k + n)] /\
      (body (rc + Z.of_nat n) (k + n)%nat = Finish r \/
       exists d msg, body (rc + Z.of_nat n) (k + n)%nat = RetryAfter (Some d) /\
                     sleep d = Some msg /\ r = Raise (SleepException msg)))).
Proof.
  subst loop. revert rc k r t. induction fuel as [|fuel IH]; intros rc k r t; [discriminate|].
  cbn [retry_loop].
  destruct (rc <=? max_retries) eqn:E.
  2:{ apply Z.leb_gt in E. intros [= <- <-]. exists O. split; [intros j Hj; lia|].
      left. rewrite Z.add_0_r. repeat split. exact E. }
  apply Z.leb_le in E.
  assert (Hstep : forall r1 t1 (sleeps : list event),
            retries sleep (body rc k) ->
            retried body rc k = EvCall k :: sleeps ->
            retry_loop sleep body exhausted max_retries fuel (rc + 1) (S k) = Some (r1, t1) ->
            exists n,
              (forall j, (j < n)%nat -> retries sleep (body (rc + Z.of_nat j) (k + j)%nat)) /\
              ((max_retries < rc + Z.of_nat n /\ r1 = exhausted /\
                EvCall k :: sleeps ++ t1 = retried_prefix body n rc k) \/
               (rc + Z.of_nat n <= max_retries /\
                EvCall k :: sleeps ++ t1 = retried_prefix body n rc k ++ [EvCall (k + n)] /\
                (body (rc + Z.of_nat n) (k + n)%nat = Finish r1 \/
                 exists d msg, body (rc + Z.of_nat n) (k + n)%nat = RetryAfter (Some d) /\
                               sleep d = Some msg /\ r1 = Raise (SleepException msg))))).
  { intros r1 t1 sleeps Hret Hev L. apply IH in L as (n & Hn & Hcases).
    exists (S n). split.
    - intros [|j] Hj.
      + rewrite Z.add_0_r, Nat.add_0_r. exact Hret.
      + specialize (Hn j ltac:(lia)).
        replace (rc + Z.of_nat (S j)) with (rc + 1 + Z.of_nat j) by lia.
        replace (k + S j)%nat with (S k + j)%nat by lia. exact Hn.
    - replace (rc + Z.of_nat (S n)) with (rc + 1 + Z.of_nat n) by lia.
      replace (k + S n)%nat with (S k + n)%nat by lia.
      cbn [retried_prefix]. rewrite Hev. cbn [app]. rewrite <- !app_assoc.
      destruct Hcases as [(H1 & H2 & ->)|(H1 & -> & H3)].
      + left. repeat split; assumption.
      + right. repeat split; assumption. }
  destruct (body rc k) as [r0|[d|]] eqn:B.
  - intros [= <- <-]. exists O. split; [intros j Hj; lia|].
    right. rewrite Z.add_0_r, Nat.add_0_r. repeat split; [exact E|]. left. exact B.
  - destruct (sleep d) as [msg|] eqn:Hs.
    + intros [= <- <-]. exists O. split; [intros j Hj; lia|].
      right. rewrite Z.add_0_r, Nat.add_0_r. repeat split; [exact E|].
      right. exists d, msg. repeat split; assumption.
    + destruct (retry_loop _ _ _ _ fuel (rc + 1) (S k)) as [[r1 t1]|] eqn:L; [|discriminate].
      intros [= <- <-].
      apply (Hstep r1 t1 [EvSleep d]); [exact Hs | unfold retried; rewrite B; reflexivity | first [exact L | reflexivity]].
  - destruct (retry_loop _ _ _ _ fuel (rc + 1) (S k)) as [[r1 t1]|] eqn:L; [|discriminate].
    intros [= <- <-].
    apply (Hstep r1 t1 []); [exact I | unfold retried; rewrite B; reflexivity | first [exact L | reflexivity]].
Qed.

(** A call whose attempt finishes is the last event of the run, its
    outcome is the outcome of the loop, and the calls before it were
    retried. *)
Lemma retry_loop_finishing_call (fuel : nat) (rc : Z) (k j : nat) r t r0 :
  loop fuel rc k = Some (r, t) -> In (EvCall j) t ->
  (forall rc', body rc' j = Finish r0) ->
  r = r0 /\ (k <= j)%nat /\ ncalls t = S (j - k) /\
  (exists pre, t = pre ++ [EvCall j]) /\
  (forall i, (k <= i < j)%nat -> exists rc', retries sleep (body rc' i)).
Proof.
  intros L Hin Hfin. apply retry_loop_inv in L as (n & Hn & Hcases).
  assert (Hpre : In (EvCall j) (retried_prefix body n rc k) -> False).
  { intros H. apply In_retried_prefix in H.
    specialize (Hn (j - k)%nat ltac:(lia)).
    replace (k + (j - k))%nat with j in Hn by lia.
    rewrite Hfin in Hn. exact Hn. }
  assert (Hbefore : forall i, (k <= i < k + n)%nat -> exists rc', retries sleep (body rc' i)).
  { intros i Hi. exists (rc + Z.of_nat (i - k)).
    specialize (Hn (i - k)%nat ltac:(lia)).
    replace (k + (i - k))%nat with i in Hn by lia. exact Hn. }
  destruct Hcases as [(_ & _ & ->)|(_ & -> & Hlast)]; [contradiction|].
  apply in_app_iff in Hin as [Hin|[E|[]]]; [contradiction|].
  injection E as E. subst j.
  split.
  - destruct Hlast as [B|(d & msg & B & _)]; rewrite Hfin in B; congruence.
  - split; [lia|]. split.
    + rewrite ncalls_app, ncalls_retried_prefix. cbn. lia.
    + split; [eexists; reflexivity | exact Hbefore].
Qed.

End RetryLoopFacts.

(** Each loop of the source is an instance of [retry_loop]. *)

Lemma predict_loop_shape (sleep : Sleep) (model : Model) (max_retries base : Z) fuel rc k :
  GeminiModel.predict_loop sleep model max_retries base fuel rc k
  = retry_loop sleep (predict_body model base)
      (Raise (APIRateLimitError rate_limit_message)) max_retries fuel rc k.
Proof.
  revert rc k. induction fuel as [|fuel IH]; intros rc k; [reflexivity|].
  cbn [GeminiModel.predict_loop retry_loop]. unfold predict_body.
  destruct (rc <=? max_retries); [|reflexivity].
  destruct (GeminiModel.try_generate model k) as [t|e]; [reflexivity|].
  destruct (is_rate_limit e); [|reflexivity].
  rewrite IH. reflexivity.
Qed.

Lemma query_loop_shape (sleep : Sleep) (model : Model) (base max_retries : Z) fuel rc k :
  GeminiHandler.query_loop sleep model base max_retries fuel rc k
  = retry_loop sleep (query_body model base)
      (Return (lit "Error: Rate limit exceeded after maximum retries."))
      max_retries fuel rc k.
Proof.
  revert rc k. induction fuel as [|fuel IH]; intros rc k; [reflexivity|].
  cbn [GeminiHandler.query_loop retry_loop]. unfold query_body.
  destruct (rc <=? max_retries); [|reflexivity].
  destruct (model k) as [r|e].
  - destruct (block_reason r); [reflexivity|].
    destruct (negb (truthy (text r))); reflexivity.
  - destruct (is_rate_limit e); [rewrite IH; reflexivity|].
    destruct (contains format_error_phrase e); [rewrite IH|]; reflexivity.
Qed.

Lemma synthesis_loop_shape (sleep : Sleep) (model : Model) (base max_retries : Z) fuel rc k :
  GeminiHandler.synthesis_loop sleep model base max_retries fuel rc k
  = retry_loop sleep (synthesis_body model base)
      (Return (lit "Error: Could not create unified analysis due to repeated rate limit or other errors."))
      max_retries fuel rc k.
Proof.
  revert rc k. induction fuel as [|fuel IH]; intros rc k; [reflexivity|].
  cbn [GeminiHandler.synthesis_loop retry_loop]. unfold synthesis_body.
  destruct (rc <=? max_retries); [|reflexivity].
  destruct (model k) as [r|e].
  - destruct (block_reason r); [reflexivity|].
    destruct (negb (truthy (text r))); reflexivity.
  - destruct (is_rate_limit_synthesis e); [rewrite IH|]; reflexivity.
Qed.

(** ** Retry policy of the three loops *)

Lemma backoff_nonneg (base rc : Z) : 0 <= base -> 0 <= base * 2 ^ rc.
Proof. intros H. apply Z.mul_nonneg_nonneg; [exact H | apply Z.pow_nonneg; lia]. Qed.

Lemma predict_body_rate_limited (model : Model) (base rc : Z) (k : nat) :
  rate_limited_at model k ->
  predict_body model base rc k = RetryAfter (Some (delay_after model base rc k)).
Proof.
  intros (e & He & Hrl). unfold predict_body, GeminiModel.try_generate, delay_after.
  rewrite He, Hrl. reflexivity.
Qed.

Lemma predict_body_retried (sleep : Sleep) (model : Model) (base rc : Z) (k : nat) :
  retried_at sleep model base rc k -> retries sleep (predict_body model base rc k).
Proof.
  intros [Hrl Hs]. rewrite predict_body_rate_limited by exact Hrl. exact Hs.
Qed.

Lemma query_body_rate_limited (model : Model) (base rc : Z) (k : nat) :
  rate_limited_at model k ->
  query_body model base rc k = RetryAfter (Some (delay_after model base rc k)).
Proof.
  intros (e & He & Hrl). unfold query_body, delay_after.
  rewrite He, Hrl. reflexivity.
Qed.

Lemma query_body_retried (sleep : Sleep) (model : Model) (base rc : Z) (k : nat) :
  handler_retried_at sleep model base rc k -> retries sleep (query_body model base rc k).
Proof.
  intros [[Hrl Hs]|(e & He & Hnot & Hfmt)].
  - rewrite query_body_rate_limited by exact Hrl. exact Hs.
  - unfold query_body. rewrite He, Hnot, Hfmt. exact I.
Qed.

(** An attempt that [predict] retries is rate-limited. *)
Lemma predict_body_retries (sleep : Sleep) (model : Model) (base rc : Z) (k : nat) :
  retries sleep (predict_body model base rc k) ->
  exists e, GeminiModel.try_generate model k = inr e /\ is_rate_limit e = true.
Proof.
  unfold predict_body. destruct (GeminiModel.try_generate model k) as [x|e]; [contradiction|].
  destruct (is_rate_limit e) eqn:E; [|contradiction]. intros _. exists e. auto.
Qed.

(** An attempt that ends [predict] with an [APIError]. *)
Lemma predict_body_api_error (model : Model) (base rc : Z) (k : nat) (m : str) :
  predict_body model base rc k = Finish (Raise (APIError m)) ->
  exists e, GeminiModel.try_generate model k = inr e /\ is_rate_limit e = false /\
            m = lit "Gemini API error: " ++ e.
Proof.
  unfold predict_body. destruct (GeminiModel.try_generate model k) as [x|e]; [discriminate|].
  destruct (is_rate_limit e) eqn:E; [discriminate|].
  intros H. exists e. split; [reflexivity|]. split; [exact E | congruence].
Qed.

Lemma predict_body_other_error (model : Model) (base rc : Z) (k : nat) (e : str) :
  GeminiModel.try_generate model k = inr e -> is_rate_limit e = false ->
  predict_body model base rc k
  = Finish (Raise (APIError (lit "Gemini API error: " ++ e))).
Proof. intros He Hnot. unfold predict_body. rewrite He, Hnot. reflexivity. Qed.

Section PredictFacts.
Variable sleep : Sleep.
Variable model : Model.
Variables max_retries base : Z.

Let predict := GeminiModel.predict sleep model max_retries base.

(** When the loading succeeds, [predict] is its retry loop. *)
Lemma predict_loaded (self_model : GeminiModel.model_state) (k : nat) :
  load_succeeds self_model ->
  predict self_model k
  = retry_loop sleep (predict_body model base)
      (Raise (APIRateLimitError rate_limit_message)) max_retries
      (S (Z.to_nat (max_retries + 1))) 0 k.
Proof.
  intros H. subst predict. unfold GeminiModel.predict.
  destruct self_model as [|[msg|]]; [|contradiction|]; apply predict_loop_shape.
Qed.

(** [predict] ends, after at most [max_retries + 1] calls. *)
Lemma predict_total (self_model : GeminiModel.model_state) (k : nat) :
  exists r t, predict self_model k = Some (r, t) /\
              Z.of_nat (ncalls t) <= Z.max 0 (max_retries + 1).
Proof.
  assert (Hloop : forall s, load_succeeds s ->
            exists r t, predict s k = Some (r, t) /\
                        Z.of_nat (ncalls t) <= Z.max 0 (max_retries + 1)).
  { intros s Hs. rewrite predict_loaded by exact Hs.
    destruct (retry_loop_total sleep (predict_body model base)
                (Raise (APIRateLimitError rate_limit_message)) max_retries
                (S (Z.to_nat (max_retries + 1))) 0 k) as (r & t & E); [lia|].
    exists r, t. split; [exact E|].
    apply retry_loop_bound in E. lia. }
  destruct self_model as [|[msg|]]; [apply Hloop; exact I | | apply Hloop; exact I].
  eexists _, _. split; [reflexivity|]. change (ncalls []) with O. lia.
Qed.

(** Every call rate-limited and every sleep returning: [predict] raises
    [APIRateLimitError] after exactly [max_retries + 1] calls. *)
Lemma predict_exhausted (self_model : GeminiModel.model_state) (k : nat) :
  load_succeeds self_model -> 0 <= max_retries ->
  (forall j, Z.of_nat j <= max_retries ->
             retried_at sleep model base (Z.of_nat j) (k + j)) ->
  exists t, predict self_model k
            = Some (Raise (APIRateLimitError rate_limit_message), t) /\
            Z.of_nat (ncalls t) = max_retries + 1.
Proof.
  intros Hload Hmax Hrl. rewrite predict_loaded by exact Hload.
  pose proof (retry_loop_exhausted sleep (predict_body model base)
                (Raise (APIRateLimitError rate_limit_message)) max_retries 0 k) as H.
  cbn zeta in H. replace (max_retries - 0 + 1) with (max_retries + 1) in H by lia.
  rewrite H; [| lia | intros j Hj; apply predict_body_retried, Hrl; lia].
  eexists. split; [reflexivity|].
  rewrite ncalls_retried_prefix. lia.
Qed.

(** [n] retried calls, then one that ends the loop with [r]: [predict]
    gives [r] after [n + 1] calls. *)
Lemma predict_finish (self_model : GeminiModel.model_state) (k n : nat)
    (r : outcome str) :
  load_succeeds self_model -> Z.of_nat n <= max_retries ->
  (forall j, (j < n)%nat -> retried_at sleep model base (Z.of_nat j) (k + j)) ->
  predict_body model base (Z.of_nat n) (k + n) = Finish r ->
  exists t, predict self_model k = Some (r, t) /\ ncalls t = S n.
Proof.
  intros Hload Hn Hrl Hfin. rewrite predict_loaded by exact Hload.
  replace (S (Z.to_nat (max_retries + 1)))
    with (n + S (Z.to_nat (max_retries + 1) - n))%nat by lia.
  rewrite (retry_loop_finish _ _ _ _ n _ 0 k r).
  - eexists. split; [reflexivity|].
    rewrite ncalls_app, ncalls_retried_prefix. cbn. lia.
  - intros j Hj. apply predict_body_retried, Hrl, Hj.
  - lia.
  - exact Hfin.
Qed.

(** [n] retried calls, then a rate-limited one whose sleep raises: the
    exception of [time.sleep] leaves [predict] after [n + 1] calls. *)
Lemma predict_sleep_fails (self_model : GeminiModel.model_state) (k n : nat)
    (msg : str) :
  load_succeeds self_model -> Z.of_nat n <= max_retries ->
  (forall j, (j < n)%nat -> retried_at sleep model base (Z.of_nat j) (k + j)) ->
  rate_limited_at model (k + n) ->
  sleep (delay_after model base (Z.of_nat n) (k + n)) = Some msg ->
  exists t, predict self_model k = Some (Raise (SleepException msg), t) /\
            ncalls t = S n.
Proof.
  intros Hload Hn Hrl Hlast Hsleep. rewrite predict_loaded by exact Hload.
  replace (S (Z.to_nat (max_retries + 1)))
    with (n + S (Z.to_nat (max_retries + 1) - n))%nat by lia.
  rewrite (retry_loop_sleep_fails _ _ _ _ n _ 0 k
             (delay_after model base (Z.of_nat n) (k + n)) msg).
  - eexists. split; [reflexivity|].
    rewrite ncalls_app, ncalls_retried_prefix. cbn. lia.
  - intros j Hj. apply predict_body_retried, Hrl, Hj.
  - lia.
  - apply predict_body_rate_limited, Hlast.
  - exact Hsleep.
Qed.

(** A call of [predict] that fails with another error is its last call,
    and the calls before it were rate-limited. *)
Lemma predict_other_error_last (self_model : GeminiModel.model_state) (k j : nat)
    (msg : str) r t :
  predict self_model k = Some (r, t) -> In (EvCall j) t ->
  GeminiModel.try_generate model j = inr msg -> is_rate_limit msg = false ->
  r = Raise (APIError (lit "Gemini API error: " ++ msg)) /\
  (k <= j)%nat /\ ncalls t = S (j - k) /\
  (exists pre, t = pre ++ [EvCall j]) /\
  (forall i, (k <= i < j)%nat ->
     exists e, GeminiModel.try_generate model i = inr e /\ is_rate_limit e = true).
Proof.
  intros Hp Hin Htry Hnot.
  destruct self_model as [|[m|]].
  2:{ subst predict. cbn in Hp. injection Hp as <- <-. contradiction. }
  all: rewrite predict_loaded in Hp by exact I;
    destruct (retry_loop_finishing_call _ _ _ _ _ _ _ _ _ _
                (Raise (APIError (lit "Gemini API error: " ++ msg))) Hp Hin)
      as (Hr & Hk & Hcalls & Hpre & Hbefore);
    [intros rc'; apply predict_body_other_error; assumption|];
    repeat split; try assumption;
    intros i Hi; destruct (Hbefore i Hi) as [rc' Hret];
    eapply predict_body_retries, Hret.
Qed.

(** A run of [predict] that raises an [APIError] ends at a call that fails
    with an error that is not rate-limit-class. *)
Lemma predict_api_error_call (self_model : GeminiModel.model_state) (k : nat)
    (m : str) t :
  predict self_model k = Some (Raise (APIError m), t) ->
  exists j e, In (EvCall j) t /\ (k <= j)%nat /\ ncalls t = S (j - k) /\
              GeminiModel.try_generate model j = inr e /\
              is_rate_limit e = false /\ m = lit "Gemini API error: " ++ e.
Proof.
  intros Hp.
  destruct self_model as [|[m0|]].
  2:{ subst predict. cbn in Hp. discriminate Hp. }
  all: rewrite predict_loaded in Hp by exact I;
    apply retry_loop_inv in Hp as (n & _ & [(_ & [=] & _)|(_ & -> & [B|(d & s & _ & _ & [=])])]);
    apply predict_body_api_error in B as (e & He & Hnot & ->);
    exists (k + n)%nat, e; repeat split; try assumption;
    [apply in_or_app; right; left; reflexivity | lia
    | rewrite ncalls_app, ncalls_retried_prefix; cbn; lia].
Qed.

End PredictFacts.

Section HandlerFacts.
Variable system_prompts : table.
Variable case_type : str.
Variable sleep : Sleep.
Variable model : Model.
Variables base max_retries : Z.
Context {Doc : Type}.

Local Abbreviation query :=
  (GeminiHandler.query_with_batch system_prompts case_type sleep model base max_retries).

Local Abbreviation limit_message :=
  (lit "Error: Rate limit exceeded after maximum retries.").

Lemma handler_query_total (batch : list Doc) (section : str) (k : nat) :
  exists r t, query batch section k = Some (r, t) /\
              Z.of_nat (ncalls t) <= Z.max 0 (max_retries + 1).
Proof.
  unfold GeminiHandler.query_with_batch.
  destruct batch as [|d batch].
  - eexists _, _. split; [reflexivity | change (ncalls []) with O; lia].
  - cbn zeta. rewrite query_loop_shape.
    destruct (retry_loop_total sleep (query_body model base) (Return limit_message)
                max_retries (S (Z.to_nat (max_retries + 1))) 0 k) as (r & t & E); [lia|].
    exists r, t. split; [exact E|].
    apply retry_loop_bound in E. lia.
Qed.


Lemma handler_query_finish (batch : list Doc) (section : str) (k n : nat)
    (r : outcome str) :
  batch <> [] -> Z.of_nat n <= max_retries ->
  (forall j, (j < n)%nat -> handler_retried_at sleep model base (Z.of_nat j) (k + j)) ->
  query_body model base (Z.of_nat n) (k + n) = Finish r ->
  exists t, query batch section k = Some (r, t) /\ ncalls t = S n.
Proof.
  intros Hbatch Hn Hrl Hfin. unfold GeminiHandler.query_with_batch.
  destruct batch as [|d batch]; [congruence|].
  cbn zeta. rewrite query_loop_shape.
  replace (S (Z.to_nat (max_retries + 1)))
    with (n + S (Z.to_nat (max_retries + 1) - n))%nat by lia.
  rewrite (retry_loop_finish _ _ _ _ n _ 0 k r).
  - eexists. split; [reflexivity|].
    rewrite ncalls_app, ncalls_retried_prefix. cbn. lia.
  - intros j Hj. apply query_body_retried, Hrl, Hj.
  - lia.
  - exact Hfin.
Qed.


End HandlerFacts.

Section ServiceFacts.
Variable system_prompts : table.
Variable case_type : str.
Variable sleep : Sleep.
Variable model : Model.
Variables base max_retries : Z.
Context {Doc : Type}.

Local Abbreviation query :=
  (InferenceService.query_with_batch system_prompts case_type sleep model base max_retries).

Local Abbreviation limit_message :=
  (lit "Error: Rate limit exceeded after maximum retries.").

(** The service's query ends after at most two runs of [predict]. *)
Lemma service_query_total (batch : list Doc) (section : str) (k : nat) :
  exists r t, query batch section k = Some (Return r, t) /\
              Z.of_nat (ncalls t) <= 2 * Z.max 0 (max_retries + 1).
Proof.
  unfold InferenceService.query_with_batch.
  destruct batch as [|d batch];
    [eexists _, _; split; [reflexivity | change (ncalls []) with O; lia]|].
  destruct (InferenceService.resolve_prompt _ _ _) as [p|err];
    [|eexists _, _; split; [reflexivity | change (ncalls []) with O; lia]].
  unfold InferenceService.predict.
  destruct (predict_total sleep model max_retries base GeminiModel.Loaded k)
    as (r & t & -> & Ht).
  destruct r as [response|e].
  - eexists _, _. split; [reflexivity | lia].
  - destruct e as [m|m|m|m|m|m|m|m]; try (eexists _, _; split; [reflexivity | lia]).
    destruct (contains format_error_phrase m);
      [|eexists _, _; split; [reflexivity | lia]].
    destruct (predict_total sleep model max_retries base GeminiModel.Loaded (k + ncalls t))
      as (r' & t' & -> & Ht').
    destruct r' as [response|e];
      (eexists _, _; split; [reflexivity | rewrite ncalls_app; lia]).
Qed.

Lemma service_query_exhausted (batch : list Doc) (section : str) (k : nat) p :
  batch <> [] -> 0 <= max_retries ->
  InferenceService.resolve_prompt system_prompts case_type section
    = InferenceService.Prompt p ->
  (forall j, Z.of_nat j <= max_retries ->
             retried_at sleep model base (Z.of_nat j) (k + j)) ->
  exists t, query batch section k = Some (Return limit_message, t) /\
            Z.of_nat (ncalls t) = max_retries + 1.
Proof.
  intros Hbatch Hmax Hp Hrl.
  unfold InferenceService.query_with_batch.
  destruct batch as [|d batch]; [congruence|].
  rewrite Hp. unfold InferenceService.predict.
  destruct (predict_exhausted sleep model max_retries base GeminiModel.Loaded k I Hmax Hrl)
    as (t & -> & Ht).
  exists t. split; [reflexivity | exact Ht].
Qed.


End ServiceFacts.

Lemma always_429_rate_limited (k : nat) : rate_limited_at always_429 k.
Proof. eexists. split; reflexivity. Qed.

(** The sleeps of a run in which every error is "429 Too Many Requests",
    from a base delay of five seconds. *)
Lemma always_429_retried (rc : Z) (k : nat) :
  0 <= rc <= 3 -> retried_at time_sleep always_429 5 rc k.
Proof.
  intros H. split; [apply always_429_rate_limited|].
  assert (E : rc = 0 \/ rc = 1 \/ rc = 2 \/ rc = 3) by lia.
  destruct E as [->|[->|[->| ->]]]; reflexivity.
Qed.




(** A prefix without the first character of [sub] adds no occurrence. *)
Lemma contains_skip_prefix (c : ascii) (sub pre s : str) :
  ~ In c pre -> contains (c :: sub) (pre ++ s) = contains (c :: sub) s.
Proof.
  induction pre as [|a pre IH]; intros Hin; [reflexivity|].
  rewrite <- IH by (intros H; apply Hin; right; exact H).
  unfold contains. cbn [app index startswith].
  destruct (Ascii.eqb a c) eqn:E.
  - apply Ascii.eqb_eq in E. exfalso. apply Hin. left. exact E.
  - cbn [andb]. destruct (index (pre ++ s) (c :: sub)); reflexivity.
Qed.

Lemma format_phrase_after_prefix (e : str) :
  contains format_error_phrase (lit "Gemini API error: " ++ e)
  = contains format_error_phrase e.
Proof.
  exact (contains_skip_prefix "U"%char
           (lit "nable to determine the intended type of the `dict`")
           (lit "Gemini API error: ") e ltac:(not_in_literal)).
Qed.

(** The calls of a trace that starts at call [k] and has no gap. *)
Lemma In_app_calls (t1 t2 : list event) (j : nat) :
  In (EvCall j) (t1 ++ t2) -> In (EvCall j) t1 \/ In (EvCall j) t2.
Proof. apply in_app_or. Qed.

Section OtherErrors.
Variable sleep : Sleep.
Variable system_prompts : table.
Variable case_type : str.
Variable section : str.
Variable model : Model.
Variables base_retry_delay max_retries : Z.
Context {Doc : Type}.
Variable batch : list Doc.

(** In the handler, a call that fails with another error, or with a
    block, is the last call of the query. *)
Lemma handler_finishing_call (r : outcome str) (t : list event) (j : nat) (r0 : outcome str) :
  GeminiHandler.query_with_batch system_prompts case_type sleep model
    base_retry_delay max_retries batch section 0 = Some (r, t) ->
  In (EvCall j) t ->
  (forall rc, query_body model base_retry_delay rc j = Finish r0) ->
  r = r0 /\ ncalls t = S j /\ exists pre, t = pre ++ [EvCall j].
Proof.
  intros Hq Hin Hfin. unfold GeminiHandler.query_with_batch in Hq.
  destruct batch as [|d batch']; [injection Hq as <- <-; contradiction|].
  cbn zeta in Hq. rewrite query_loop_shape in Hq.
  destruct (retry_loop_finishing_call _ _ _ _ _ _ _ _ _ _ r0 Hq Hin Hfin)
    as (Hr & _ & Hcalls & Hpre & _).
  rewrite Nat.sub_0_r in Hcalls. auto.
Qed.

(** In the service, a call that fails with an error that is neither
    rate-limit-class nor the format error is the last call of the query;
    the message depends on whether the call is of the first run of
    [predict] or of the run after a format error. *)
Lemma service_other_error (r : outcome str) (t : list event) (j : nat) (msg : str) :
  InferenceService.query_with_batch system_prompts case_type sleep model
    base_retry_delay max_retries batch section 0 = Some (r, t) ->
  In (EvCall j) t ->
  GeminiModel.try_generate model j = inr msg ->
  is_rate_limit msg = false -> contains format_error_phrase msg = false ->
  ncalls t = S j /\ (exists pre, t = pre ++ [EvCall j]) /\
  ((r = Return (lit "Error: Gemini API error: " ++ msg) /\
    forall i, In (EvCall i) t -> ~ predict_format_error_at model i) \/
   (r = Return (lit "Error: Failed to fix format and retry: Gemini API error: " ++ msg) /\
    exists i, (i < j)%nat /\ In (EvCall i) t /\ predict_format_error_at model i)).
Proof.
  intros Hq Hin Htry Hnot Hfmt. unfold InferenceService.query_with_batch in Hq.
  destruct batch as [|d batch']; [injection Hq as <- <-; contradiction|].
  destruct (InferenceService.resolve_prompt system_prompts case_type section) as [p|err];
    [|injection Hq as <- <-; contradiction].
  unfold InferenceService.predict in Hq.
  destruct (GeminiModel.predict sleep model max_retries base_retry_delay
              GeminiModel.Loaded 0) as [[r1 t1]|] eqn:P1; [|discriminate].
  assert (Hfirst : In (EvCall j) t1 ->
            r1 = Raise (APIError (lit "Gemini API error: " ++ msg)) /\
            ncalls t1 = S j /\ (exists pre, t1 = pre ++ [EvCall j]) /\
            forall i, In (EvCall i) t1 -> ~ predict_format_error_at model i).
  { intros Hin1.
    destruct (predict_other_error_last _ _ _ _ _ _ _ _ _ _ P1 Hin1 Htry Hnot)
      as (Hr & _ & Hcalls & (pre & Hpre) & Hbefore).
    rewrite Nat.sub_0_r in Hcalls. repeat split; try assumption; [eauto|].
    intros i Hi (m' & Hm' & Hnot' & Hfmt').
    destruct (Nat.eq_dec i j) as [->|Hne]; [congruence|].
    assert (Hlt : (0 <= i < j)%nat).
    { rewrite Hpre in Hi. apply in_app_or in Hi as [Hi|[E|[]]]; [|congruence].
      assert (Hn : (ncalls pre = j)%nat)
        by (rewrite Hpre, ncalls_app in Hcalls; cbn in Hcalls; lia).
      rewrite predict_loaded in P1 by exact I.
      apply retry_loop_inv in P1 as (n & _ & [(_ & _ & E)|(_ & E & _)]).
      - rewrite E in Hpre.
        assert (In (EvCall j) (retried_prefix (predict_body model base_retry_delay) n 0 0))
          by (rewrite Hpre; apply in_or_app; right; left; reflexivity).
        assert (In (EvCall i) (retried_prefix (predict_body model base_retry_delay) n 0 0))
          by (rewrite Hpre; apply in_or_app; left; exact Hi).
        apply In_retried_prefix in H, H0.
        rewrite <- E in Hpre. subst t1.
        rewrite ncalls_retried_prefix in Hcalls. lia.
      - rewrite Hpre in E. apply app_inj_tail in E as [E _]. subst pre.
        apply In_retried_prefix in Hi. rewrite ncalls_retried_prefix in Hn. lia. }
    destruct (Hbefore i Hlt) as (e & He & Hrl). congruence. }
  destruct r1 as [response|e1].
  - injection Hq as <- <-. destruct (Hfirst Hin) as [[=] _].
  - destruct e1 as [m|m|m|m|m|m|m|m];
      try (injection Hq as <- <-; destruct (Hfirst Hin) as [[=] _]).
    destruct (contains format_error_phrase m) eqn:Fm.
    + destruct (GeminiModel.predict sleep model max_retries base_retry_delay
                  GeminiModel.Loaded (0 + ncalls t1)) as [[r2 t2]|] eqn:P2; [|discriminate].
      assert (Ht : t = t1 ++ t2 /\
                   r = match r2 with
                       | Return response => Return response
                       | Raise retry_e =>
                           Return (lit "Error: Failed to fix format and retry: "
                                   ++ exn_str retry_e)
                       end)
        by (destruct r2; injection Hq as <- <-; split; reflexivity).
      destruct Ht as [-> ->]. clear Hq.
      apply in_app_or in Hin as [Hin|Hin].
      * destruct (Hfirst Hin) as (Hr1 & _).
        assert (Hm : m = lit "Gemini API error: " ++ msg) by congruence.
        rewrite Hm, format_phrase_after_prefix in Fm. congruence.
      * destruct (predict_other_error_last _ _ _ _ _ _ _ _ _ _ P2 Hin Htry Hnot)
          as (-> & Hk & Hcalls & (pre & Hpre) & _).
        destruct (predict_api_error_call _ _ _ _ _ _ _ _ P1)
          as (i & e & Hi & _ & Hci & Hei & Hnoti & ->).
        rewrite format_phrase_after_prefix in Fm. rewrite Nat.sub_0_r in Hci.
        split; [rewrite ncalls_app; lia|].
        split; [exists (t1 ++ pre); rewrite Hpre, app_assoc; reflexivity|].
        right. split; [reflexivity|].
        exists i. split; [lia|]. split; [apply in_or_app; left; exact Hi|].
        exists e. auto.
    + injection Hq as <- <-.
      destruct (Hfirst Hin) as ([= ->] & Hcalls & Hpre & Hnone).
      split; [exact Hcalls|]. split; [exact Hpre|]. left. split; [reflexivity | exact Hnone].
Qed.

End OtherErrors.

(** C4 (no retry of other errors), as amended. Whenever a model call
    made by a batch query fails with an error that is neither
    rate-limit-class nor the format error "Unable to determine the
    intended type of the `dict`", or with a content-safety block, it is the
    last model call of the query, which ends with an error: the handler
    raises [RuntimeError] "Gemini query failed: ..." for the exception and
    returns "Error: Content generation blocked (...)" for the block; the
    inference service returns "Error: Gemini API error: ..." when no
    earlier call of the query raised the format error, and "Error: Failed
    to fix format and retry: Gemini API error: ..." when one did, the call
    being then of the second run of [predict]. Call [j] is the call
    numbered [j] of the query, which starts at call 0. *)
Theorem other_errors_are_not_retried
    (sleep : Sleep) (system_prompts : table) (case_type section : str) (model : Model)
    (base_retry_delay max_retries : Z) (Doc : Type) (batch : list Doc)
    (r : outcome str) (t : list event) (j : nat) :
  In (EvCall j) t ->
  (GeminiHandler.query_with_batch system_prompts case_type sleep model
     base_retry_delay max_retries batch section 0 = Some (r, t) ->
   (forall e,
       model j = Throws e -> is_rate_limit e = false ->
       contains format_error_phrase e = false ->
       r = Raise (RuntimeError (lit "Gemini query failed: " ++ e)) /\
       ncalls t = S j /\ exists pre, t = pre ++ [EvCall j]) /\
   (forall response reason,
       model j = Responds response -> block_reason response = Some reason ->
       r = Return (lit "Error: Content generation blocked (" ++ reason ++ lit ")") /\
       ncalls t = S j /\ exists pre, t = pre ++ [EvCall j])) /\
  (InferenceService.query_with_batch system_prompts case_type sleep model
     base_retry_delay max_retries batch section 0 = Some (r, t) ->
   forall msg,
     (model j = Throws msg \/
      exists response reason,
        model j = Responds response /\ block_reason response = Some reason /\
        msg = lit "Content generation blocked (" ++ reason ++ lit ")") ->
     is_rate_limit msg = false -> contains format_error_phrase msg = false ->
     ncalls t = S j /\ (exists pre, t = pre ++ [EvCall j]) /\
     ((r = Return (lit "Error: Gemini API error: " ++ msg) /\
       forall i, In (EvCall i) t -> ~ predict_format_error_at model i) \/
      (r = Return (lit "Error: Failed to fix format and retry: Gemini API error: " ++ msg) /\
       exists i, (i < j)%nat /\ In (EvCall i) t /\ predict_format_error_at model i))).
Proof.
  intros Hin. split.
  - intros Hq. split.
    + intros e He Hnot Hfmt.
      apply (handler_finishing_call sleep system_prompts case_type section model
               base_retry_delay max_retries batch r t j _ Hq Hin).
      intros rc. unfold query_body. rewrite He, Hnot, Hfmt. reflexivity.
    + intros response reason Hr Hblock.
      apply (handler_finishing_call sleep system_prompts case_type section model
               base_retry_delay max_retries batch r t j _ Hq Hin).
      intros rc. unfold query_body. rewrite Hr, Hblock. reflexivity.
  - intros Hq msg Hmsg Hnot Hfmt.
    apply (service_other_error sleep system_prompts case_type section model
             base_retry_delay max_retries batch r t j msg Hq Hin); try assumption.
    unfold GeminiModel.try_generate.
    destruct Hmsg as [->|(response & reason & -> & -> & ->)]; reflexivity.
Qed.

Lemma other_errors_are_not_retried_witness :
  InferenceService.query_with_batch example_prompts [] time_sleep blocked_model 5 3
    example_batch (lit "Findings") 0
  = Some (Return (lit "Error: Gemini API error: Content generation blocked (SAFETY)"),
          [EvCall 0]) /\
  ncalls [EvCall 0] = 1%nat /\
  forall i, In (EvCall i) [EvCall 0] -> ~ predict_format_error_at blocked_model i.
Proof.
  split; [reflexivity|].
  destruct (proj2 (other_errors_are_not_retried time_sleep example_prompts []
                     (lit "Findings") blocked_model 5 3 str example_batch
                     (Return (lit "Error: Gemini API error: Content generation blocked (SAFETY)"))
                     [EvCall 0] 0 ltac:(left; reflexivity))
              eq_refl (lit "Content generation blocked (SAFETY)"))
    as (Hcalls & _ & [[_ Hnone]|[_ (i & Hi & _)]]).
  - right. exists (mkResponse (Some (lit "SAFETY")) [] (lit "STOP")), (lit "SAFETY").
    repeat split.
  - reflexivity.
  - reflexivity.
  - split; assumption.
  - lia.
Defined.

(** C4, as stated, fails on the format error: it is not rate-limit-class,
    yet the handler calls the model again and the query succeeds. *)
Lemma other_errors_are_not_retried_counterexample :
  format_error_then_text 0%nat = Throws format_error_phrase /\
  is_rate_limit format_error_phrase = false /\
  exists t,
    GeminiHandler.query_with_batch example_prompts [] time_sleep format_error_then_text 5 1
      example_batch (lit "Findings") 0 = Some (Return (lit "ok"), t) /\
    ncalls t = 2%nat.
Proof.
  split; [reflexivity|]. split; [reflexivity|].
  eexists. split; vm_compute; reflexivity.
Qed.




(** ** Synthesis *)

Lemma synthesis_body_rate_limited (model : Model) (base rc : Z) (k : nat) :
  synthesis_rate_limited_at model k ->
  synthesis_body model base rc k = RetryAfter (Some (delay_after model base rc k)).
Proof.
  intros (e & He & Hrl). unfold synthesis_body, delay_after.
  rewrite He, Hrl. reflexivity.
Qed.

Lemma synthesis_body_retried (sleep : Sleep) (model : Model) (base rc : Z) (k : nat) :
  synthesis_retried_at sleep model base rc k ->
  retries sleep (synthesis_body model base rc k).
Proof.
  intros [Hrl Hs]. rewrite synthesis_body_rate_limited by exact Hrl. exact Hs.
Qed.

Section SynthesisFacts.
Variable system_prompts : table.
Variable case_type : str.
Variable sleep : Sleep.
Variable model : Model.
Variables base max_retries : Z.
Context {Doc : Type}.
Variable all_content : list Doc.
Variable section : str.
Variable batch_size : Z.
Variable batches : list (list Doc).
Hypothesis batched : process_documents_in_batches all_content batch_size = Some batches.
Hypothesis some_batch : batches <> [].

Local Abbreviation service_analysis :=
  (InferenceService.create_unified_analysis system_prompts case_type sleep model base
     max_retries all_content section batch_size).

Local Abbreviation handler_analysis :=
  (GeminiHandler.create_unified_analysis system_prompts case_type sleep model base
     max_retries all_content section batch_size).

Variable batch_results : list str.
Variable processing_failed : bool.
Variable t : list event.
Hypothesis synthesis_needed : single_success batch_results processing_failed = false.

(** What the service returns, from the outcome of the synthesis [predict]. *)
Lemma service_analysis_of_predict r t' :
  InferenceService.run_batches system_prompts case_type sleep model base max_retries
    batches section 0 0 = Some (Return (batch_results, processing_failed), t) ->
  GeminiModel.predict sleep model max_retries base GeminiModel.Loaded (ncalls t)
    = Some (r, t') ->
  service_analysis =
  Some (match r with
        | Return unified_response => Return unified_response
        | Raise (APIRateLimitError _) =>
            Return (lit "Error: Could not create unified analysis due to persistent API rate limits.")
        | Raise (APIError msg) => Return (lit "Error: " ++ msg)
        | Raise e =>
            Return (lit "Error: An unexpected error occurred during analysis: "
                    ++ exn_str e)
        end, t ++ t').
Proof.
  intros Hrun Hpred. unfold InferenceService.create_unified_analysis.
  rewrite batched. destruct batches as [|b bs]; [congruence|].
  rewrite Hrun. unfold InferenceService.predict. rewrite Hpred.
  unfold single_success in synthesis_needed.
  destruct batch_results as [|x [|y l]]; destruct processing_failed;
    try discriminate; destruct r as [u|[m|m|m|m|m|m|m|m]]; reflexivity.
Qed.

Lemma handler_analysis_of_loop r t' :
  GeminiHandler.run_batches system_prompts case_type sleep model base max_retries
    batches section 0 0 = Some (Return (batch_results, processing_failed), t) ->
  GeminiHandler.synthesis_loop sleep model base max_retries
    (S (Z.to_nat (max_retries + 1))) 0 (ncalls t) = Some (r, t') ->
  handler_analysis = Some (r, t ++ t').
Proof.
  intros Hrun Hloop. unfold GeminiHandler.create_unified_analysis.
  rewrite batched. destruct batches as [|b bs]; [congruence|].
  rewrite Hrun, Hloop.
  unfold single_success in synthesis_needed.
  destruct batch_results as [|x [|y l]]; destruct processing_failed;
    try discriminate; reflexivity.
Qed.

End SynthesisFacts.

(** Every entry point ends: the loops have fuel enough. *)

Lemma handler_run_batches_total (system_prompts : table) (case_type : str)
    (sleep : Sleep) (model : Model) (base max_retries : Z) {Doc}
    (batches : list (list Doc)) (section : str) :
  forall i k, exists r t,
    GeminiHandler.run_batches system_prompts case_type sleep model base max_retries
      batches section i k = Some (r, t).
Proof.
  induction batches as [|batch rest IH]; intros i k; cbn [GeminiHandler.run_batches].
  - eexists _, _. reflexivity.
  - destruct (handler_query_total system_prompts case_type sleep model base max_retries
                batch section k) as (r & t & -> & _).
    destruct r as [response|e]; [|eexists _, _; reflexivity].
    destruct (IH (S i) (k + ncalls t)%nat) as (r' & t' & ->).
    destruct r' as [[results failed]|e]; [|eexists _, _; reflexivity].
    destruct (startswith response (lit "Error:")); eexists _, _; reflexivity.
Qed.

Lemma handler_analysis_total (system_prompts : table) (case_type : str)
    (sleep : Sleep) (model : Model) (base max_retries : Z) {Doc}
    (all_content : list Doc) (section : str) (batch_size : Z) :
  exists r t,
    GeminiHandler.create_unified_analysis system_prompts case_type sleep model base
      max_retries all_content section batch_size = Some (r, t).
Proof.
  unfold GeminiHandler.create_unified_analysis.
  destruct (process_documents_in_batches all_content batch_size) as [[|b bs]|];
    try (eexists _, _; reflexivity).
  destruct (handler_run_batches_total system_prompts case_type sleep model base
              max_retries (b :: bs) section 0 0) as (r & t & ->).
  destruct r as [[results failed]|e]; [|eexists _, _; reflexivity].
  rewrite synthesis_loop_shape.
  destruct (retry_loop_total sleep (synthesis_body model base)
              (Return repeated_rate_limit) max_retries
              (S (Z.to_nat (max_retries + 1))) 0 (ncalls t)) as (r & t' & E); [lia|].
  fold repeated_rate_limit. rewrite E.
  destruct results as [|x [|y l]]; destruct failed; eexists _, _; reflexivity.
Qed.

Lemma service_run_batches_total (system_prompts : table) (case_type : str)
    (sleep : Sleep) (model : Model) (base max_retries : Z) {Doc}
    (batches : list (list Doc)) (section : str) :
  forall i k, exists results failed t,
    InferenceService.run_batches system_prompts case_type sleep model base max_retries
      batches section i k = Some (Return (results, failed), t).
Proof.
  induction batches as [|batch rest IH]; intros i k; cbn [InferenceService.run_batches].
  - eexists _, _, _. reflexivity.
  - destruct (service_query_total system_prompts case_type sleep model base max_retries
                batch section k) as (response & t & -> & _).
    destruct (IH (S i) (k + ncalls t)%nat) as (results & failed & t' & ->).
    destruct (startswith response (lit "Error:")); eexists _, _, _; reflexivity.
Qed.

(** The service's analysis always returns a string: no exception leaves
    it. *)
Lemma service_analysis_total (system_prompts : table) (case_type : str)
    (sleep : Sleep) (model : Model) (base max_retries : Z) {Doc}
    (all_content : list Doc) (section : str) (batch_size : Z) :
  batch_size <> 0 ->
  exists text t,
    InferenceService.create_unified_analysis system_prompts case_type sleep model base
      max_retries all_content section batch_size = Some (Return text, t).
Proof.
  intros Hsize. unfold InferenceService.create_unified_analysis.
  destruct (process_documents_in_batches all_content batch_size) as [[|b bs]|] eqn:Eb;
    [eexists _, _; reflexivity | |].
  - destruct (service_run_batches_total system_prompts case_type sleep model base
                max_retries (b :: bs) section 0 0) as (results & failed & t & ->).
    unfold InferenceService.predict.
    destruct (predict_total sleep model max_retries base GeminiModel.Loaded (ncalls t))
      as (r & t' & -> & _).
    destruct results as [|x [|y l]]; destruct failed;
      destruct r as [u|[m|m|m|m|m|m|m|m]]; eexists _, _; reflexivity.
  - exfalso. unfold process_documents_in_batches, range in Eb.
    destruct all_content; [discriminate|].
    destruct (batch_size =? 0) eqn:E0; [apply Z.eqb_eq in E0; contradiction|].
    destruct (batch_size <? 0); discriminate.
Qed.

(** C6 (synthesis failure), as amended. Let the batch phase of
    [create_unified_analysis] end with results that need a synthesis call
    (more than one batch, or a failed one). In the inference service, when
    every synthesis call is rate-limited and every sleep between them
    returns, the function returns exactly "Error: Could not create unified
    analysis due to persistent API rate limits."; when a synthesis call
    raises another error [e] it returns "Error: Gemini API error: e"; when
    a sleep raises it returns "Error: An unexpected error occurred during
    analysis: ..." with the message of that exception; and whatever
    exception ends the synthesis [predict], it returns a string "Error:
    ...". In the handler, when every synthesis call is rate-limited ("429"
    or "rate limit") and every sleep returns, the function returns "Error:
    Could not create unified analysis due to repeated rate limit or other
    errors."; another exception of the model is re-raised, and so is the
    exception of a sleep. *)
Theorem synthesis_failure_messages
    (sleep : Sleep) (system_prompts : table) (case_type section : str) (model : Model)
    (base_retry_delay max_retries : Z) (Doc : Type) (all_content : list Doc)
    (batch_size : Z) (batches : list (list Doc))
    (batch_results : list str) (processing_failed : bool) (t : list event) :
  0 <= max_retries ->
  process_documents_in_batches all_content batch_size = Some batches ->
  batches <> [] ->
  single_success batch_results processing_failed = false ->
  (InferenceService.run_batches system_prompts case_type sleep model base_retry_delay
     max_retries batches section 0 0
   = Some (Return (batch_results, processing_failed), t) ->
   ((forall j, Z.of_nat j <= max_retries ->
               retried_at sleep model base_retry_delay (Z.of_nat j) (ncalls t + j)) ->
    exists t',
      InferenceService.create_unified_analysis system_prompts case_type sleep model
        base_retry_delay max_retries all_content section batch_size
      = Some (Return persistent_rate_limits, t')) /\
   (forall n e,
       Z.of_nat n <= max_retries ->
       (forall j, (j < n)%nat ->
                  retried_at sleep model base_retry_delay (Z.of_nat j) (ncalls t + j)) ->
       model (ncalls t + n)%nat = Throws e -> is_rate_limit e = false ->
       exists t',
         InferenceService.create_unified_analysis system_prompts case_type sleep model
           base_retry_delay max_retries all_content section batch_size
         = Some (Return (lit "Error: " ++ lit "Gemini API error: " ++ e), t')) /\
   (forall n msg,
       Z.of_nat n <= max_retries ->
       (forall j, (j < n)%nat ->
                  retried_at sleep model base_retry_delay (Z.of_nat j) (ncalls t + j)) ->
       rate_limited_at model (ncalls t + n) ->
       sleep (delay_after model base_retry_delay (Z.of_nat n) (ncalls t + n)) = Some msg ->
       exists t',
         InferenceService.create_unified_analysis system_prompts case_type sleep model
           base_retry_delay max_retries all_content section batch_size
         = Some (Return (lit "Error: An unexpected error occurred during analysis: "
                         ++ msg), t')) /\
   (forall e t',
       GeminiModel.predict sleep model max_retries base_retry_delay GeminiModel.Loaded
         (ncalls t) = Some (Raise e, t') ->
       exists message,
         InferenceService.create_unified_analysis system_prompts case_type sleep model
           base_retry_delay max_retries all_content section batch_size
         = Some (Return (lit "Error: " ++ message), t ++ t'))) /\
  (GeminiHandler.run_batches system_prompts case_type sleep model base_retry_delay
     max_retries batches section 0 0
   = Some (Return (batch_results, processing_failed), t) ->
   ((forall j, Z.of_nat j <= max_retries ->
               synthesis_retried_at sleep model base_retry_delay (Z.of_nat j)
                 (ncalls t + j)) ->
    exists t',
      GeminiHandler.create_unified_analysis system_prompts case_type sleep model
        base_retry_delay max_retries all_content section batch_size
      = Some (Return repeated_rate_limit, t')) /\
   (forall n e,
       Z.of_nat n <= max_retries ->
       (forall j, (j < n)%nat ->
                  synthesis_retried_at sleep model base_retry_delay (Z.of_nat j)
                    (ncalls t + j)) ->
       model (ncalls t + n)%nat = Throws e -> is_rate_limit_synthesis e = false ->
       exists t',
         GeminiHandler.create_unified_analysis system_prompts case_type sleep model
           base_retry_delay max_retries all_content section batch_size
         = Some (Raise (ModelException e), t')) /\
   (forall n msg,
       Z.of_nat n <= max_retries ->
       (forall j, (j < n)%nat ->
                  synthesis_retried_at sleep model base_retry_delay (Z.of_nat j)
                    (ncalls t + j)) ->
       synthesis_rate_limited_at model (ncalls t + n) ->
       sleep (delay_after model base_retry_delay (Z.of_nat n) (ncalls t + n)) = Some msg ->
       exists t',
         GeminiHandler.create_unified_analysis system_prompts case_type sleep model
           base_retry_delay max_retries all_content section batch_size
         = Some (Raise (SleepException msg), t'))).
Proof.
  intros Hmax Hbatched Hsome Hneed. split.
  - intros Hrun. split; [|split; [|split]].
    + intros Hrl.
      destruct (predict_exhausted sleep model max_retries base_retry_delay
                  GeminiModel.Loaded (ncalls t) I Hmax Hrl) as (t' & E & _).
      exists (t ++ t').
      erewrite service_analysis_of_predict by eassumption.
      reflexivity.
    + intros n e Hn Hrl He Hnot.
      destruct (predict_finish sleep model max_retries base_retry_delay
                  GeminiModel.Loaded (ncalls t) n
                  (Raise (APIError (lit "Gemini API error: " ++ e))) I Hn Hrl)
        as (t' & E & _).
      { unfold predict_body, GeminiModel.try_generate. rewrite He, Hnot. reflexivity. }
      exists (t ++ t').
      erewrite service_analysis_of_predict by eassumption.
      reflexivity.
    + intros n msg Hn Hrl Hlast Hs.
      destruct (predict_sleep_fails sleep model max_retries base_retry_delay
                  GeminiModel.Loaded (ncalls t) n msg I Hn Hrl Hlast Hs) as (t' & E & _).
      exists (t ++ t').
      erewrite service_analysis_of_predict by eassumption.
      reflexivity.
    + intros e t' E.
      erewrite service_analysis_of_predict by eassumption.
      destruct e as [m|m|m|m|m|m|m|m]; eexists; reflexivity.
  - intros Hrun. split; [|split].
    + intros Hrl. eexists.
      eapply handler_analysis_of_loop; [exact Hbatched | exact Hsome | exact Hneed | exact Hrun |].
      rewrite synthesis_loop_shape.
      pose proof (retry_loop_exhausted sleep (synthesis_body model base_retry_delay)
                    (Return repeated_rate_limit) max_retries 0 (ncalls t)) as H.
      cbn zeta in H. replace (max_retries - 0 + 1) with (max_retries + 1) in H by lia.
      apply H; [lia|]. intros j Hj. apply synthesis_body_retried, Hrl. lia.
    + intros n e Hn Hrl He Hnot. eexists.
      eapply handler_analysis_of_loop; [exact Hbatched | exact Hsome | exact Hneed | exact Hrun |].
      rewrite synthesis_loop_shape.
      replace (S (Z.to_nat (max_retries + 1)))
        with (n + S (Z.to_nat (max_retries + 1) - n))%nat by lia.
      apply retry_loop_finish.
      * intros j Hj. apply synthesis_body_retried, Hrl, Hj.
      * lia.
      * unfold synthesis_body. cbn [Z.add]. rewrite He, Hnot. reflexivity.
    + intros n msg Hn Hrl Hlast Hs. eexists.
      eapply handler_analysis_of_loop; [exact Hbatched | exact Hsome | exact Hneed | exact Hrun |].
      rewrite synthesis_loop_shape.
      replace (S (Z.to_nat (max_retries + 1)))
        with (n + S (Z.to_nat (max_retries + 1) - n))%nat by lia.
      apply (retry_loop_sleep_fails _ _ _ _ n _ 0 (ncalls t)
               (delay_after model base_retry_delay (Z.of_nat n) (ncalls t + n)) msg).
      * intros j Hj. apply synthesis_body_retried, Hrl, Hj.
      * lia.
      * apply synthesis_body_rate_limited, Hlast.
      * exact Hs.
Qed.

Lemma synthesis_failure_messages_witness :
  (exists t',
      InferenceService.create_unified_analysis example_prompts [] time_sleep
        two_texts_then_429 5 1 two_documents (lit "Findings") 1
      = Some (Return persistent_rate_limits, t')) /\
  (exists t',
      InferenceService.create_unified_analysis example_prompts [] time_sleep
        two_texts_then_too_much 5 1 two_documents (lit "Findings") 1
      = Some (Return (lit "Error: An unexpected error occurred during analysis: "
                      ++ clock_overflow), t')) /\
  (exists t',
      GeminiHandler.create_unified_analysis example_prompts [] time_sleep
        two_texts_then_too_much 5 1 two_documents (lit "Findings") 1
      = Some (Raise (SleepException clock_overflow), t')).
Proof.
  split; [|split].
  - destruct (synthesis_failure_messages time_sleep example_prompts [] (lit "Findings")
                two_texts_then_429 5 1 str two_documents 1
                [[lit "document one"]; [lit "document two"]]
                [lit "first analysis"; lit "second analysis"] false
                [EvCall 0; EvCall 1]) as [H _].
    + lia.
    + reflexivity.
    + discriminate.
    + reflexivity.
    + destruct (H eq_refl) as [Hlimit _]. apply Hlimit.
      intros j Hj.
      assert (E : j = 0%nat \/ j = 1%nat) by lia.
      destruct E as [-> | ->]; (split; [eexists; split; reflexivity | reflexivity]).
  - destruct (synthesis_failure_messages time_sleep example_prompts [] (lit "Findings")
                two_texts_then_too_much 5 1 str two_documents 1
                [[lit "document one"]; [lit "document two"]]
                [lit "first analysis"; lit "second analysis"] false
                [EvCall 0; EvCall 1]) as [H _].
    + lia.
    + reflexivity.
    + discriminate.
    + reflexivity.
    + destruct (H eq_refl) as (_ & _ & Hsleep & _).
      apply (Hsleep 0%nat clock_overflow);
        [lia | intros j Hj; lia | eexists; split; reflexivity | reflexivity].
  - destruct (synthesis_failure_messages time_sleep example_prompts [] (lit "Findings")
                two_texts_then_too_much 5 1 str two_documents 1
                [[lit "document one"]; [lit "document two"]]
                [lit "first analysis"; lit "second analysis"] false
                [EvCall 0; EvCall 1]) as [_ H].
    + lia.
    + reflexivity.
    + discriminate.
    + reflexivity.
    + destruct (H eq_refl) as (_ & _ & Hsleep).
      apply (Hsleep 0%nat clock_overflow);
        [lia | intros j Hj; lia | eexists; split; reflexivity | reflexivity].
Defined.

(** C6, as stated, fails on the handler: after exhausted rate-limit
    retries of the synthesis call it returns another string. *)
Lemma synthesis_failure_messages_counterexample :
  exists r t,
    GeminiHandler.create_unified_analysis example_prompts [] time_sleep
      two_texts_then_429 5 1 two_documents (lit "Findings") 1 = Some (Return r, t) /\
    ncalls t = 4%nat /\
    (forall k, (2 <= k)%nat -> rate_limited_at two_texts_then_429 k) /\
    r <> persistent_rate_limits.
Proof.
  eexists _, _. split; [vm_compute; reflexivity|].
  split; [reflexivity|]. split.
  - intros [|[|k]] Hk; [lia | lia |]. eexists. split; reflexivity.
  - vm_compute. discriminate.
Qed.

(** ** Prompt resolution *)

Lemma falsy_false (v : option str) :
  falsy v = false -> exists c s, v = Some (c :: s).
Proof. destruct v as [[|c s]|]; try discriminate. intros _. exists c, s. reflexivity. Qed.

Lemma from_table_get (system_prompts : table) (key : str) :
  from_table system_prompts (get system_prompts key).
Proof. right. exists key. reflexivity. Qed.

Lemma similar_key_from_table (system_prompts : table) (section : str)
    (ks : list str) (spt : option str) :
  from_table system_prompts spt ->
  from_table system_prompts (GeminiHandler.similar_key system_prompts section ks spt).
Proof.
  revert spt. induction ks as [|key ks IH]; intros spt H; cbn [GeminiHandler.similar_key].
  - exact H.
  - destruct (_ || _); [|apply IH, H].
    destruct (falsy (get system_prompts key)); [apply IH|]; apply from_table_get.
Qed.

Lemma similar_key_all_falsy (system_prompts : table) (section : str)
    (ks : list str) (spt : option str) :
  (forall key, falsy (get system_prompts key) = true) -> falsy spt = true ->
  falsy (GeminiHandler.similar_key system_prompts section ks spt) = true.
Proof.
  intros Hall. revert spt. induction ks as [|key ks IH]; intros spt H;
    cbn [GeminiHandler.similar_key]; [exact H|].
  destruct (_ || _); [|apply IH, H].
  rewrite Hall. apply IH, Hall.
Qed.

Lemma flexible_match_from_table (system_prompts : table) (section normalized : str)
    (ks : list str) (spt : option str) :
  from_table system_prompts spt ->
  from_table system_prompts
    (InferenceService.flexible_match system_prompts section normalized ks spt).
Proof.
  induction ks as [|key ks IH]; intros H; cbn [InferenceService.flexible_match].
  - exact H.
  - destruct (_ || _); [apply from_table_get | apply IH, H].
Qed.

Lemma flexible_match_all_falsy (system_prompts : table) (section normalized : str)
    (ks : list str) (spt : option str) :
  (forall key, falsy (get system_prompts key) = true) -> falsy spt = true ->
  falsy (InferenceService.flexible_match system_prompts section normalized ks spt) = true.
Proof.
  intros Hall H. induction ks as [|key ks IH]; cbn [InferenceService.flexible_match];
    [exact H|].
  destruct (_ || _); [apply Hall | exact IH].
Qed.

Lemma variant_from_table (system_prompts : table) (key : str) (spt : option str) :
  from_table system_prompts spt ->
  from_table system_prompts
    (if falsy spt
     then if has_key system_prompts key then get system_prompts key else spt
     else spt).
Proof.
  intros H. destruct (falsy spt); [|exact H].
  destruct (has_key system_prompts key); [apply from_table_get | exact H].
Qed.

Lemma choice_from_table (system_prompts : table) (a b : option str) :
  from_table system_prompts a -> from_table system_prompts b ->
  from_table system_prompts (if falsy a then b else a).
Proof. intros Ha Hb. destruct (falsy a); assumption. Qed.

Lemma variant_all_falsy (system_prompts : table) (key : str) (spt : option str) :
  (forall key, falsy (get system_prompts key) = true) -> falsy spt = true ->
  falsy (if has_key system_prompts key then get system_prompts key else spt) = true.
Proof. intros Hall H. destruct (has_key system_prompts key); auto. Qed.

Section ResolutionFacts.
Variable system_prompts : table.
Variable case_type : str.
Variable section : str.

Local Abbreviation handler_prompt :=
  (GeminiHandler.resolve_prompt system_prompts case_type section).

Local Abbreviation service_prompt :=
  (InferenceService.resolve_prompt system_prompts case_type section).

(** The handler's resolution ends with a truthy value of the table or
    with the default prompt. *)
Lemma handler_prompt_cases :
  exists v, falsy v = false /\
    (v = Some (default_prompt section) \/ from_table system_prompts v) /\
    handler_prompt = match v with Some p => p | None => [] end.
Proof.
  unfold GeminiHandler.resolve_prompt. cbv zeta.
  set (v1 := if truthy case_type then _ else None).
  assert (J1 : from_table system_prompts v1)
    by (subst v1; destruct (truthy case_type); [apply from_table_get | left; reflexivity]).
  set (v2 := if falsy v1 then _ else v1).
  assert (J2 : from_table system_prompts v2)
    by (subst v2; destruct (falsy v1); [apply from_table_get | exact J1]).
  destruct (falsy v2) eqn:F2; [|exists v2; auto].
  set (v3 := GeminiHandler.similar_key _ _ _ v2).
  assert (J3 : from_table system_prompts v3)
    by (apply similar_key_from_table, J2).
  set (v4 := if falsy v3 then _ else v3).
  assert (J4 : from_table system_prompts v4) by (apply variant_from_table, J3).
  set (v5 := if falsy v4 then _ else v4).
  assert (J5 : from_table system_prompts v5) by (apply variant_from_table, J4).
  destruct (falsy v5) eqn:F5; [|exists v5; auto].
  exists (Some (default_prompt section)). auto.
Qed.

(** When no key of the table has a truthy value, the handler uses the
    default prompt. *)
Lemma handler_prompt_default :
  (forall key, falsy (get system_prompts key) = true) ->
  handler_prompt = default_prompt section.
Proof.
  intros Hall. unfold GeminiHandler.resolve_prompt. cbv zeta.
  set (v1 := if truthy case_type then _ else None).
  assert (F1 : falsy v1 = true)
    by (subst v1; destruct (truthy case_type); [apply Hall | reflexivity]).
  rewrite F1. rewrite !Hall.
  set (v3 := GeminiHandler.similar_key _ _ _ _).
  assert (F3 : falsy v3 = true) by (apply similar_key_all_falsy; auto).
  rewrite F3.
  set (v4 := if has_key _ _ then _ else v3).
  assert (F4 : falsy v4 = true) by (apply variant_all_falsy; auto).
  rewrite F4.
  set (v5 := if has_key _ _ then _ else v4).
  assert (F5 : falsy v5 = true) by (apply variant_all_falsy; auto).
  rewrite F5. reflexivity.
Qed.

(** The first tier of the handler wins. *)
Lemma handler_prompt_case_specific (c : ascii) (p : str) :
  truthy case_type = true ->
  get system_prompts (section ++ lit "_" ++ case_type) = Some (c :: p) ->
  handler_prompt = c :: p.
Proof.
  intros Hct Hget. unfold GeminiHandler.resolve_prompt. cbv zeta.
  rewrite Hct, Hget. reflexivity.
Qed.

(** The second tier of the handler wins when the first misses. *)
Lemma handler_prompt_generic (c : ascii) (p : str) :
  (truthy case_type = false \/
   falsy (get system_prompts (section ++ lit "_" ++ case_type)) = true) ->
  get system_prompts section = Some (c :: p) ->
  handler_prompt = c :: p.
Proof.
  intros Hmiss Hget. unfold GeminiHandler.resolve_prompt. cbv zeta.
  set (v1 := if truthy case_type then _ else None).
  assert (F1 : falsy v1 = true).
  { subst v1. destruct Hmiss as [->|H]; [reflexivity|].
    destruct (truthy case_type); [exact H | reflexivity]. }
  rewrite F1, Hget. reflexivity.
Qed.

(** The service's resolution ends with a truthy value of the table or
    with one of its two error returns. *)
Lemma service_prompt_cases :
  match service_prompt with
  | InferenceService.Prompt p =>
      p <> [] /\ exists key, get system_prompts key = Some p
  | InferenceService.EarlyReturn error =>
      system_prompts = [] /\
      error = lit "Error: Not enough information is provided. No system prompts found in MongoDB."
      \/
      system_prompts <> [] /\
      error = lit "Error: Not enough information is provided. No system prompt found for section '"
              ++ section ++ lit "'."
  end.
Proof.
  unfold InferenceService.resolve_prompt. cbv zeta.
  set (normalized := replace section (lit " ") (lit "_")).
  set (spaced := replace normalized (lit "_") (lit " ")).
  set (v1 := if truthy case_type then _ else None).
  assert (J1 : from_table system_prompts v1).
  { subst v1. destruct (truthy case_type); [|left; reflexivity].
    apply choice_from_table; apply from_table_get. }
  set (v2 := if falsy v1 then _ else v1).
  assert (J2 : from_table system_prompts v2).
  { apply choice_from_table; [exact J1|].
    apply choice_from_table; apply from_table_get. }
  destruct (falsy v2) eqn:F2.
  - destruct system_prompts as [|kv rest] eqn:Et; [left; split; reflexivity|].
    rewrite <- Et in *.
    set (v3 := InferenceService.flexible_match _ _ _ _ _).
    assert (J3 : from_table system_prompts v3)
      by (apply flexible_match_from_table, J2).
    destruct v3 as [[|c p]|] eqn:E3.
    + right. split; [rewrite Et; discriminate | reflexivity].
    + split; [discriminate|]. destruct J3 as [J3|J3]; [discriminate | exact J3].
    + right. split; [rewrite Et; discriminate | reflexivity].
  - apply falsy_false in F2 as (c & p & E2). rewrite E2.
    split; [discriminate|]. rewrite E2 in J2.
    destruct J2 as [J2|J2]; [discriminate | exact J2].
Qed.

(** When no key of a non-empty table has a truthy value, the service
    returns the error naming the section: it has no default prompt. *)
Lemma service_prompt_missing :
  system_prompts <> [] ->
  (forall key, falsy (get system_prompts key) = true) ->
  service_prompt =
  InferenceService.EarlyReturn
    (lit "Error: Not enough information is provided. No system prompt found for section '"
     ++ section ++ lit "'.").
Proof.
  intros Hne Hall. unfold InferenceService.resolve_prompt. cbv zeta.
  set (normalized := replace section (lit " ") (lit "_")).
  set (spaced := replace normalized (lit "_") (lit " ")).
  set (v1 := if truthy case_type then _ else None).
  assert (F1 : falsy v1 = true).
  { subst v1. destruct (truthy case_type); [|reflexivity].
    rewrite Hall. apply Hall. }
  rewrite F1. rewrite !Hall.
  destruct system_prompts as [|kv rest] eqn:Et; [congruence|].
  rewrite <- Et in *.
  set (v3 := InferenceService.flexible_match _ _ _ _ _).
  assert (F3 : falsy v3 = true) by (apply flexible_match_all_falsy; auto).
  destruct v3 as [[|c p]|]; [reflexivity | discriminate | reflexivity].
Qed.

End ResolutionFacts.











(** ** Section splitter *)

Lemma find_index (s sub : str) :
  (find s sub = -1 /\ index s sub = None) \/
  (exists i, find s sub = Z.of_nat i /\ index s sub = Some i).
Proof.
  unfold find. destruct (index s sub) as [i|]; [right; exists i | left]; split; reflexivity.
Qed.

Lemma find_not_found (s sub : str) : find s sub = -1 <-> contains sub s = false.
Proof.
  unfold find, contains. destruct (index s sub) as [i|]; split; intros H;
    try reflexivity; try discriminate; lia.
Qed.

(** [find] gives the start of the text from the occurrence on. *)
Lemma find_found (s sub : str) (pos : Z) :
  find s sub = pos -> pos <> -1 ->
  0 <= pos <= len s /\
  exists rest, skipn (Z.to_nat pos) s = sub ++ rest.
Proof.
  intros H Hpos. destruct (find_index s sub) as [[E _]|(i & E & Ei)]; [congruence|].
  rewrite H in E. clear H. subst pos. rewrite Nat2Z.id.
  apply index_Some in Ei as (Hi & Hs & _).
  apply startswith_true in Hs. unfold len. split; [lia | exact Hs].
Qed.

(** What the scan for the earliest header returns. *)
Lemma earliest_header_spec (text : str) (headers : list str) :
  forall start found s f,
    earliest_header text headers start found = (s, f) ->
    (start = -1 /\ found = None \/
     0 <= start /\ exists h, found = Some h /\ find text h = start) ->
    (s = -1 /\ f = None /\ start = -1 /\
     forall h, In h headers -> find text h = -1) \/
    (0 <= s /\ exists h, f = Some h /\ find text h = s /\
     (In h headers \/ found = Some h)).
Proof.
  induction headers as [|header rest IH]; intros start found s f E Hinv.
  - cbn [earliest_header] in E. injection E as <- <-.
    destruct Hinv as [[-> ->]|(Hs & h & -> & Hf)].
    + left. repeat split; try reflexivity. intros h [].
    + right. split; [exact Hs|]. exists h. repeat split; auto.
  - cbn [earliest_header] in E. cbn zeta in E.
    destruct (negb (find text header =? -1)
              && ((start =? -1) || (find text header <? start))) eqn:C.
    + apply andb_true_iff in C as [C1 _].
      apply negb_true_iff, Z.eqb_neq in C1.
      apply IH in E.
      * destruct E as [(-> & -> & Hc & _)|(Hs & h & -> & Hf & Hin)]; [congruence|].
        right. split; [exact Hs|]. exists h. repeat split; auto.
        destruct Hin as [Hin|[= <-]]; left; [right; exact Hin | left; reflexivity].
      * right. destruct (find_index text header) as [[E' _]|(i & E' & _)]; [congruence|].
        split; [lia|]. exists header. split; reflexivity.
    + apply IH in E; [|exact Hinv].
      destruct E as [(-> & -> & -> & Hall)|(Hs & h & -> & Hf & Hin)].
      * left. repeat split; try reflexivity.
        intros h [<-|Hin]; [|apply Hall, Hin].
        cbn [Z.eqb orb] in C. rewrite andb_true_r in C.
        apply negb_false_iff, Z.eqb_eq in C. exact C.
      * right. split; [exact Hs|]. exists h. repeat split; auto.
        destruct Hin as [Hin|Hin]; [left; right; exact Hin | right; exact Hin].
Qed.

(** Scanning from the initial state. *)
Lemma earliest_header_initial (text : str) (headers : list str) s f :
  earliest_header text headers (-1) None = (s, f) ->
  (s = -1 /\ f = None /\ forall h, In h headers -> find text h = -1) \/
  (0 <= s /\ exists h, f = Some h /\ find text h = s /\ In h headers).
Proof.
  intros E. apply earliest_header_spec in E; [|left; split; reflexivity].
  destruct E as [(-> & -> & _ & Hall)|(Hs & h & -> & Hf & [Hin|Hin])];
    [left; auto | right | discriminate].
  split; [exact Hs|]. exists h. auto.
Qed.

Lemma earliest_header_none (text : str) (headers : list str) :
  (forall h, In h headers -> contains h text = false) ->
  earliest_header text headers (-1) None = (-1, None).
Proof.
  intros H. destruct (earliest_header text headers (-1) None) as [s f] eqn:E.
  apply earliest_header_initial in E.
  destruct E as [(-> & -> & _)|(Hs & h & -> & Hf & Hin)]; [reflexivity|].
  apply H, find_not_found in Hin. lia.
Qed.

(** No header of either family: the text goes to the background
    unchanged. *)
Lemma extract_without_headers (text : str) :
  (forall h, In h findings_headers -> contains h text = false) ->
  (forall h, In h background_headers -> contains h text = false) ->
  extract_findings_and_background text = ([], text).
Proof.
  intros Hf Hb. unfold extract_findings_and_background.
  rewrite (earliest_header_none _ _ Hf), (earliest_header_none _ _ Hb).
  change (-1 =? -1) with true. cbn [negb]. cbv beta iota zeta.
  rewrite andb_false_r. cbn [truthy negb andb].
  destruct text; reflexivity.
Qed.

Lemma lstrip_app_nonspace (a b : str) (c : ascii) :
  isspace c = false -> lstrip (a ++ c :: b) = lstrip a ++ c :: b.
Proof.
  intros Hc. induction a as [|x a IH]; cbn [app lstrip].
  - rewrite Hc. reflexivity.
  - destruct (isspace x); [exact IH | reflexivity].
Qed.

(** Stripping a solid text followed by [x] only strips the end of [x]. *)
Lemma strip_solid (h x : str) : solid h = true -> strip (h ++ x) = h ++ rstrip x.
Proof.
  unfold solid. destruct h as [|c h0] eqn:Eh; [discriminate|].
  rewrite <- Eh. destruct (rev h) as [|c' r] eqn:Er; [discriminate|].
  intros H. apply andb_true_iff in H as [Hc Hc'].
  apply negb_true_iff in Hc, Hc'.
  unfold strip. assert (Hl : lstrip (h ++ x) = h ++ x).
  { rewrite Eh. cbn [app lstrip]. rewrite Hc. reflexivity. }
  rewrite Hl. unfold rstrip. rewrite rev_app_distr, Er.
  rewrite lstrip_app_nonspace by exact Hc'.
  rewrite rev_app_distr. rewrite <- Er, rev_involutive. reflexivity.
Qed.

Lemma headers_solid (h : str) :
  In h findings_headers \/ In h background_headers \/ h = background_marker ->
  solid h = true.
Proof.
  intros [H|[H|H]]; [| |subst h; reflexivity];
    cbn in H; repeat (destruct H as [<-|H]; [reflexivity|]); contradiction.
Qed.

(** The text from a found header on, stripped, starts with the header. *)
Lemma strip_from_header (text h : str) (pos : Z) :
  solid h = true -> find text h = pos -> pos <> -1 ->
  exists rest,
    slice_from text pos = h ++ rest /\
    strip (slice_from text pos) = h ++ rstrip rest.
Proof.
  intros Hsolid Hf Hpos.
  destruct (find_found _ _ _ Hf Hpos) as (Hrange & rest & Hrest).
  exists rest. unfold slice_from. rewrite clamp_inside by exact Hrange.
  rewrite Hrest. split; [reflexivity | apply strip_solid, Hsolid].
Qed.

Lemma replace1_nonempty (s old new : str) :
  s <> [] -> new <> [] -> replace1 s old new <> [].
Proof.
  intros Hs Hn. unfold replace1. destruct (index s old) as [i|]; [|exact Hs].
  intros H. apply app_eq_nil in H as [_ H]. apply app_eq_nil in H as [H _].
  contradiction.
Qed.

(** C10 (no loss of a non-empty narrative). For every non-empty input,
    [extract_findings_and_background] returns a pair of strings of which
    at least one is not empty; when no header of either family occurs, the
    whole input is the background component. *)
Theorem split_never_drops_everything (text : str) :
  text <> [] ->
  (fst (extract_findings_and_background text) <> [] \/
   snd (extract_findings_and_background text) <> []) /\
  ((forall h, In h findings_headers -> contains h text = false) ->
   (forall h, In h background_headers -> contains h text = false) ->
   extract_findings_and_background text = ([], text)).
Proof.
  intros Htext. split; [|apply extract_without_headers].
  unfold extract_findings_and_background.
  destruct (earliest_header text findings_headers (-1) None) as [sf fh] eqn:Ef.
  destruct (earliest_header text background_headers (-1) None) as [sb bh] eqn:Eb.
  apply earliest_header_initial in Ef, Eb.
  destruct Eb as [(-> & -> & _)|(Hsb & hb & -> & Hfb & Hinb)].
  - (* no background header *)
    destruct Ef as [(-> & -> & _)|(Hsf & hf & -> & Hff & Hinf)].
    + right. change (-1 =? -1) with true. cbn [negb]. cbv beta iota zeta.
      rewrite andb_false_r. cbn [truthy negb andb snd].
      destruct text; [congruence | cbn; discriminate].
    + left. assert (Hne : (sf =? -1) = false) by (apply Z.eqb_neq; lia).
      rewrite Hne. change (-1 =? -1) with true. cbn [negb]. cbv beta iota zeta.
      destruct (strip_from_header text hf sf) as (rest & _ & Hstrip);
        [apply headers_solid; auto | exact Hff | lia |].
      rewrite Hstrip.
      set (findings_part := if negb (str_eqb hf canonical_findings) then _ else _).
      assert (Hf : findings_part <> []).
      { subst findings_part. destruct (negb (str_eqb hf canonical_findings)).
        - apply replace1_nonempty; [|discriminate].
          destruct hf; [discriminate (headers_solid [] (or_introl Hinf)) | discriminate].
        - destruct hf; [discriminate (headers_solid [] (or_introl Hinf)) | discriminate]. }
      destruct findings_part; [congruence | cbn; discriminate].
  - (* a background header *)
    right. assert (Hne : (sb =? -1) = false) by (apply Z.eqb_neq; lia).
    rewrite Hne. cbn [negb].
    destruct (strip_from_header text hb sb) as (rest & _ & Hstrip);
      [apply headers_solid; auto | exact Hfb | lia |].
    rewrite Hstrip.
    assert (Hb : exists c b, hb ++ rstrip rest = c :: b).
    { destruct hb as [|c hb']; [discriminate (headers_solid [] (or_intror (or_introl Hinb)))|].
      exists c, (hb' ++ rstrip rest). reflexivity. }
    destruct Hb as (c & b & ->).
    destruct (negb (sf =? -1)); cbv beta iota zeta; cbn [truthy negb andb snd];
      discriminate.
Qed.

Lemma split_never_drops_everything_witness :
  fst (extract_findings_and_background plain_example) <> [] \/
  snd (extract_findings_and_background plain_example) <> [].
Proof.
  apply (proj1 (split_never_drops_everything plain_example ltac:(discriminate))).
Defined.

(** C9 (background marker first). When the marker
    [**Background Information**] occurs in the input, with [pre] the text
    before its first occurrence and [post] the text after it,
    [parse_background_response] returns the stripped [pre] and the stripped
    text from the marker on; when the marker does not occur, it returns
    what [extract_findings_and_background] returns. *)
Theorem background_marker_first (text : str) :
  (contains background_marker text = true ->
   exists pre post,
     text = pre ++ background_marker ++ post /\
     index text background_marker = Some (List.length pre) /\
     parse_background_response text
     = (strip pre, strip (background_marker ++ post))) /\
  (contains background_marker text = false ->
   parse_background_response text = extract_findings_and_background text).
Proof.
  unfold parse_background_response. split.
  - intros H. unfold contains in H.
    destruct (index text background_marker) as [i|] eqn:Ei; [|discriminate].
    assert (Hfind : find text background_marker = Z.of_nat i)
      by (unfold find; rewrite Ei; reflexivity).
    pose proof Ei as Hi. apply index_Some in Hi as (Hi & Hs & _).
    apply startswith_true in Hs as [post Hpost].
    exists (firstn i text), post.
    assert (Hlen : List.length (firstn i text) = i)
      by (rewrite length_firstn; lia).
    rewrite Hlen, <- Hpost, firstn_skipn. repeat split.
    rewrite Hfind.
    destruct (Z.of_nat i =? -1) eqn:E; [apply Z.eqb_eq in E; lia|].
    cbn [negb]. unfold slice_to, slice_from.
    rewrite clamp_inside by (unfold len; lia). rewrite Nat2Z.id. reflexivity.
  - intros H. apply find_not_found in H. rewrite H. reflexivity.
Qed.

Lemma background_marker_first_witness :
  parse_background_response marker_example
  = (lit "pre-text", lit "**Background Information**" ++ [nl] ++ lit "post-text").
Proof.
  destruct (background_marker_first marker_example) as [H _].
  destruct (H eq_refl) as (pre & post & Htext & Hidx & ->).
  assert (Hnine : index marker_example background_marker = Some 9%nat)
    by reflexivity.
  assert (Hlen : List.length pre = 9%nat) by congruence.
  assert (Hpre : pre = firstn 9 marker_example)
    by (rewrite Htext, <- Hlen; symmetry; apply firstn_app_exact; reflexivity).
  assert (Hpost : background_marker ++ post = skipn 9 marker_example)
    by (rewrite Htext, <- Hlen; symmetry; apply skipn_app_exact; reflexivity).
  rewrite Hpre, Hpost. reflexivity.
Defined.

(** ** Header normalisation *)

Lemma replace1_at_start (h y new : str) : replace1 (h ++ y) h new = new ++ y.
Proof.
  unfold replace1.
  assert (E : index (h ++ y) h = Some O).
  { apply index_Some. repeat split; [lia | apply startswith_app | intros j Hj; lia]. }
  rewrite E. cbn [firstn app Nat.add]. rewrite skipn_app_exact by reflexivity.
  reflexivity.
Qed.

Lemma str_eqb_eq (a b : str) : str_eqb a b = true <-> a = b.
Proof. unfold str_eqb. destruct (list_eq_dec ascii_dec a b); split; congruence. Qed.

(** The findings text when a findings header is found: the canonical
    header, then the text between the found header and the background
    header (or the end), stripped on the right. *)
Lemma findings_part_normalized (text : str) (sf sb : Z) (h : str) (bh : option str) :
  earliest_header text findings_headers (-1) None = (sf, Some h) ->
  earliest_header text background_headers (-1) None = (sb, bh) ->
  sb = -1 \/ sf + len h <= sb ->
  In h findings_headers /\ find text h = sf /\ 0 <= sf /\
  fst (extract_findings_and_background text)
  = canonical_findings
    ++ rstrip (slice text (sf + len h) (if sb =? -1 then len text else sb)).
Proof.
  intros Ef Eb Horder. unfold extract_findings_and_background. rewrite Ef, Eb.
  apply earliest_header_initial in Ef, Eb.
  destruct Ef as [(_ & [=] & _)|(Hsf & h' & [= <-] & Hff & Hinf)].
  split; [exact Hinf|]. split; [exact Hff|]. split; [exact Hsf|].
  assert (Hne : (sf =? -1) = false) by (apply Z.eqb_neq; lia).
  rewrite Hne. cbn [negb].
  destruct (find_found _ _ _ Hff ltac:(lia)) as (Hrange & rest & Hrest).
  assert (Hsolid : solid h = true) by (apply headers_solid; auto).
  pose proof (len_nonneg h) as Hh0. pose proof (len_nonneg text) as Ht0.
  assert (Hlen : len h <= len text - sf).
  { apply (f_equal (@List.length ascii)) in Hrest.
    rewrite length_skipn, length_app in Hrest. unfold len in *. lia. }
  (* the findings part before the header is rewritten *)
  assert (Hpart : exists y,
    (if negb (sb =? -1)
     then (strip (slice text sf sb), strip (slice_from text sb))
     else (strip (slice_from text sf), []))
    = (h ++ rstrip y,
       if negb (sb =? -1) then strip (slice_from text sb) else []) /\
    y = slice text (sf + len h) (if sb =? -1 then len text else sb)).
  { destruct (sb =? -1) eqn:Esb; cbn [negb].
    - exists rest. split.
      + f_equal. unfold slice_from. rewrite clamp_inside by exact Hrange.
        rewrite Hrest. apply strip_solid, Hsolid.
      + unfold slice.
        rewrite !clamp_inside by lia.
        rewrite firstn_all2 by (rewrite length_skipn; unfold len; lia).
        replace (Z.to_nat (sf + len h)) with (List.length h + Z.to_nat sf)%nat
          by (unfold len; lia).
        rewrite <- skipn_skipn, Hrest. symmetry. apply skipn_app_exact. reflexivity.
    - apply Z.eqb_neq in Esb. destruct Horder as [?|Horder]; [congruence|].
      destruct Eb as [(? & _)|(Hsb & hb & _ & Hfb & _)]; [congruence|].
      destruct (find_found _ _ _ Hfb Esb) as (Hbrange & _).
      exists (firstn (Z.to_nat (sb - sf - len h)) rest). split.
      + f_equal. unfold slice. rewrite !clamp_inside by lia.
        rewrite Hrest, firstn_app.
        rewrite firstn_all2 by (unfold len in *; lia).
        replace (Z.to_nat sb - Z.to_nat sf - List.length h)%nat
          with (Z.to_nat (sb - sf - len h)) by (unfold len; lia).
        apply strip_solid, Hsolid.
      + unfold slice. rewrite !clamp_inside by lia.
        replace (Z.to_nat (sf + len h)) with (List.length h + Z.to_nat sf)%nat
          by (unfold len; lia).
        rewrite <- skipn_skipn, Hrest, skipn_app_exact by reflexivity.
        f_equal. unfold len. lia. }
  destruct Hpart as (y & -> & <-).
  assert (Hcanon :
    (if negb (str_eqb h canonical_findings)
     then replace1 (h ++ rstrip y) h canonical_findings
     else h ++ rstrip y) = canonical_findings ++ rstrip y).
  { destruct (str_eqb h canonical_findings) eqn:Eh; cbn [negb].
    - apply str_eqb_eq in Eh. rewrite Eh. reflexivity.
    - apply replace1_at_start. }
  cbv beta iota zeta. rewrite Hcanon. reflexivity.
Qed.

(** ** The regular expressions *)

Lemma startswith_ci_sound (s p : str) :
  startswith_ci s p = true ->
  exists w, s = w ++ skipn (List.length p) s /\ lower w = lower p.
Proof.
  revert s. induction p as [|pc p IH]; intros s H.
  - exists []. split; reflexivity.
  - destruct s as [|c s]; [discriminate|]. cbn [startswith_ci] in H.
    apply andb_true_iff in H as [Hc H]. apply Ascii.eqb_eq in Hc.
    destruct (IH s H) as (w & Hs & Hw).
    exists (c :: w). cbn [List.length skipn app lower map]. split.
    + f_equal. exact Hs.
    + f_equal; [exact Hc | exact Hw].
Qed.

(** A successful match consumed a word of the pattern. *)
Lemma rmatch_sound {A} (r : regex) :
  forall (s : str) (k : str -> option A) (x : A),
    rmatch r s k = Some x ->
    exists w rest, s = w ++ rest /\ lang r w /\ k rest = Some x.
Proof.
  induction r as [|p|r1 IH1 r2 IH2|r1 IH1 r2 IH2|r1 IH1]; intros s k x H;
    cbn [rmatch] in H.
  - exists [], s. repeat split; [constructor | exact H].
  - destruct (startswith_ci s p) eqn:E; [|discriminate].
    destruct (startswith_ci_sound s p E) as (w & Hs & Hw).
    exists w, (skipn (List.length p) s). repeat split; [exact Hs | constructor; exact Hw | exact H].
  - apply IH1 in H as (w1 & rest1 & -> & L1 & H).
    apply IH2 in H as (w2 & rest2 & -> & L2 & H).
    exists (w1 ++ w2), rest2. rewrite app_assoc. repeat split; [constructor; assumption | exact H].
  - destruct (rmatch r1 s k) as [y|] eqn:E.
    + injection H as <-. apply IH1 in E as (w & rest & -> & L & H).
      exists w, rest. repeat split; [apply lang_alt_l, L | exact H].
    + apply IH2 in H as (w & rest & -> & L & H).
      exists w, rest. repeat split; [apply lang_alt_r, L | exact H].
  - destruct (rmatch r1 s k) as [y|] eqn:E.
    + injection H as <-. apply IH1 in E as (w & rest & -> & L & H).
      exists w, rest. repeat split; [apply lang_opt_some, L | exact H].
    + exists [], s. repeat split; [apply lang_opt_none | exact H].
Qed.

Lemma match_here_sound (r : regex) (s : str) (n : nat) :
  match_here r s = Some n -> exists w rest, s = w ++ rest /\ lang r w.
Proof.
  unfold match_here. intros H. apply rmatch_sound in H as (w & rest & Hs & L & _).
  exists w, rest. split; assumption.
Qed.

Lemma search_from_sound (r : regex) (s : str) :
  forall i m, search_from r s i = Some m ->
  exists pre w rest, s = pre ++ w ++ rest /\ lang r w.
Proof.
  induction s as [|c s IH]; intros i m H; cbn [search_from] in H.
  - destruct (match_here r []) as [n|] eqn:E; [|discriminate].
    apply match_here_sound in E as (w & rest & Hs & L).
    exists [], w, rest. split; assumption.
  - destruct (match_here r (c :: s)) as [n|] eqn:E.
    + apply match_here_sound in E as (w & rest & Hs & L).
      exists [], w, rest. split; assumption.
    + apply IH in H as (pre & w & rest & -> & L).
      exists (c :: pre), w, rest. split; [reflexivity | exact L].
Qed.

Lemma lower_app (a b : str) : lower (a ++ b) = lower a ++ lower b.
Proof. apply map_app. Qed.

Lemma contains_in_context (sub s pre post : str) :
  contains sub s = true -> contains sub (pre ++ s ++ post) = true.
Proof.
  intros H. apply contains_true in H as (a & b & ->). apply contains_true.
  exists (pre ++ a), (b ++ post). rewrite <- !app_assoc. reflexivity.
Qed.

Lemma contains_longer (sub more s : str) :
  contains (sub ++ more) s = true -> contains sub s = true.
Proof.
  intros H. apply contains_true in H as (a & b & ->). apply contains_true.
  exists a, (more ++ b). rewrite <- !app_assoc. reflexivity.
Qed.

(** A word of the findings pattern has the letters of "findings". *)
Lemma findings_pattern_word (w : str) :
  lang findings_pattern w -> contains (lit "findings") (lower w) = true.
Proof.
  unfold findings_pattern. intros H.
  inversion H as [| |? ? w1 w234 _ H234| | | |]; subst.
  inversion H234 as [| |? ? w2 w34 _ H34| | | |]; subst.
  inversion H34 as [| |? ? w3 w4 H3 _| | | |]; subst.
  rewrite !lower_app.
  assert (E : lower w3 = lit "findings").
  { inversion H3 as [| | |? ? ? L|? ? ? L| |]; subst;
      inversion L as [|? ? E| | | | |]; subst; exact E. }
  rewrite E. apply contains_true.
  exists (lower w1 ++ lower w2), (lower w4). rewrite <- !app_assoc. reflexivity.
Qed.

(** A word of the background pattern has the letters of "background
    information". *)
Lemma background_pattern_word (w : str) :
  lang background_pattern w ->
  contains (lit "background information") (lower w) = true.
Proof.
  unfold background_pattern. intros H.
  inversion H as [| |? ? w1 w234 _ H234| | | |]; subst.
  inversion H234 as [| |? ? w2 w34 _ H34| | | |]; subst.
  inversion H34 as [| |? ? w3 w4 H3 _| | | |]; subst.
  rewrite !lower_app.
  assert (E : lower w3 = lit "background information").
  { inversion H3 as [| | |? ? ? L|? ? ? L| |]; subst;
      inversion L as [|? ? E| | | | |]; subst; exact E. }
  rewrite E. apply contains_true.
  exists (lower w1 ++ lower w2), (lower w4). rewrite <- !app_assoc. reflexivity.
Qed.

Lemma search_none (r : regex) (key text : str) :
  (forall w, lang r w -> contains key (lower w) = true) ->
  contains key (lower text) = false ->
  search r text = None.
Proof.
  intros Hword Hkey. unfold search.
  destruct (search_from r text 0) as [m|] eqn:E; [|reflexivity].
  apply search_from_sound in E as (pre & w & rest & -> & L).
  rewrite !lower_app in Hkey.
  rewrite contains_in_context in Hkey by (apply Hword, L). discriminate.
Qed.

Lemma matches_at_start_false (r : regex) (key text : str) :
  (forall w, lang r w -> contains key (lower w) = true) ->
  contains key (lower text) = false ->
  matches_at_start r text = false.
Proof.
  intros Hword Hkey. unfold matches_at_start.
  destruct (match_here r text) as [n|] eqn:E; [|reflexivity].
  apply match_here_sound in E as (w & rest & -> & L).
  rewrite lower_app in Hkey.
  pose proof (contains_in_context key (lower w) [] (lower rest) (Hword w L)) as Hc.
  cbn [app] in Hc. congruence.
Qed.

(** [strip] keeps a piece of the text. *)
Lemma lstrip_suffix (s : str) : exists a, s = a ++ lstrip s.
Proof.
  induction s as [|c s [a IH]]; [exists []; reflexivity|].
  cbn [lstrip]. destruct (isspace c).
  - exists (c :: a). cbn [app]. f_equal. exact IH.
  - exists []. reflexivity.
Qed.

Lemma strip_infix (s : str) : exists a b, s = a ++ strip s ++ b.
Proof.
  unfold strip, rstrip. destruct (lstrip_suffix s) as [a Ha].
  destruct (lstrip_suffix (rev (lstrip s))) as [b Hb].
  exists a, (rev b). rewrite <- rev_app_distr, <- Hb, rev_involutive. exact Ha.
Qed.

Lemma contains_strip (sub s : str) :
  contains sub (lower s) = false -> contains sub (lower (strip s)) = false.
Proof.
  intros H. destruct (contains sub (lower (strip s))) eqn:E; [|reflexivity].
  destruct (strip_infix s) as (a & b & Hs). rewrite Hs, !lower_app in H.
  rewrite contains_in_context in H by exact E. discriminate.
Qed.

(** ** [parse_text_to_json] *)

Lemma second_test_phrase_has_finding (text : str) :
  contains (lit "finding") (lower text) = false ->
  contains second_test_phrase text = false.
Proof.
  intros H. destruct (contains second_test_phrase text) eqn:E; [|reflexivity].
  apply contains_true in E as (a & b & ->). rewrite !lower_app in H.
  rewrite contains_in_context in H; [discriminate | reflexivity].
Qed.

(** Without the keywords of the two patterns the text parser returns the
    stripped text under a synthesized background header. *)
Lemma parse_without_keywords (text : str) :
  strip text <> [] ->
  contains (lit "finding") (lower text) = false ->
  contains (lit "background information") (lower text) = false ->
  contains first_test_phrase text = false ->
  parse_text_to_json text
  = ([], lit "**Background Information**" ++ [nl] ++ strip text).
Proof.
  intros Hne Hf Hb Hfirst. unfold parse_text_to_json.
  assert (Htruthy : truthy text = true).
  { destruct text; [|reflexivity]. exfalso. apply Hne. reflexivity. }
  assert (Hstrip : str_eqb (strip text) [] = false).
  { destruct (str_eqb (strip text) []) eqn:E; [|reflexivity].
    apply str_eqb_eq in E. contradiction. }
  rewrite Htruthy, Hstrip. cbn [negb orb].
  rewrite (search_none findings_pattern (lit "findings") text).
  2:{ apply findings_pattern_word. }
  2:{ destruct (contains (lit "findings") (lower text)) eqn:E; [|reflexivity].
      apply (contains_longer (lit "finding") (lit "s")) in E. congruence. }
  rewrite (search_none background_pattern (lit "background information") text
             background_pattern_word Hb).
  rewrite Hf. fold first_test_phrase second_test_phrase.
  rewrite Hfirst, (second_test_phrase_has_finding text Hf).
  cbv beta iota zeta. cbn [truthy andb].
  rewrite (matches_at_start_false background_pattern (lit "background information")
             (strip text) background_pattern_word (contains_strip _ _ Hb)).
  destruct (strip text); [congruence | reflexivity].
Qed.

(** The findings text of the text parser is empty or starts with the
    canonical header. *)
Lemma parse_findings_canonical (text : str) :
  fst (parse_text_to_json text) = [] \/
  startswith (fst (parse_text_to_json text)) canonical_findings = true.
Proof.
  unfold parse_text_to_json.
  destruct (negb (truthy text) || str_eqb (strip text) []); [left; reflexivity|].
  match goal with
  | |- fst (let '(_, _) := ?sections in _) = _ \/ _ =>
      destruct sections as [findings_section background_section]
  end.
  cbv zeta.
  fold first_test_phrase second_test_phrase.
  set (f1 := if contains first_test_phrase text
             then findings_prefix
                  ++ strip (slice_to text (find text (lit "**2. Background Information**")))
             else findings_section).
  set (f2 := if contains second_test_phrase text
             then findings_prefix ++ strip text
             else f1).
  cbn [fst].
  destruct (truthy f2) eqn:T; cbn [andb].
  - destruct (startswith f2 canonical_findings) eqn:S; cbn [negb]; [right; exact S|].
    destruct (startswith (sub1 findings_pattern canonical_findings f2) canonical_findings)
      eqn:S'; cbn [negb]; [right; exact S'|].
    right. unfold findings_prefix. rewrite <- app_assoc. apply startswith_app.
  - left. destruct f2; [reflexivity | discriminate].
Qed.

(** C7 (no-header fallback), as amended. When no recognized findings
    header and no recognized background header occurs in the narrative,
    [extract_findings_and_background] returns the empty string as findings
    and the input unchanged as background, with no header added; it maps
    "just some text" to ("", "just some text"). [parse_text_to_json], on a
    narrative that is not blank and has neither "finding" nor "background
    information" (in any case) nor the phrase "This is some initial content
    without a header", returns the empty string as findings and, as
    background, the stripped input under a synthesized
    [**Background Information**] header. *)
Theorem no_header_fallback (text : str) :
  ((forall h, In h findings_headers -> contains h text = false) ->
   (forall h, In h background_headers -> contains h text = false) ->
   extract_findings_and_background text = ([], text)) /\
  (strip text <> [] ->
   contains (lit "finding") (lower text) = false ->
   contains (lit "background information") (lower text) = false ->
   contains first_test_phrase text = false ->
   parse_text_to_json text
   = ([], lit "**Background Information**" ++ [nl] ++ strip text)) /\
  extract_findings_and_background plain_example = ([], plain_example).
Proof.
  split; [apply extract_without_headers|].
  split; [apply parse_without_keywords | reflexivity].
Qed.

Lemma no_header_fallback_witness :
  extract_findings_and_background (lit "no header here") = ([], lit "no header here") /\
  parse_text_to_json (lit " no header here ")
  = ([], lit "**Background Information**" ++ [nl] ++ lit "no header here").
Proof.
  split.
  - apply (proj1 (no_header_fallback (lit "no header here")));
      intros h Hin; cbn in Hin;
      repeat (destruct Hin as [<-|Hin]; [reflexivity|]); contradiction.
  - apply (proj1 (proj2 (no_header_fallback (lit " no header here "))));
      [discriminate | reflexivity | reflexivity | reflexivity].
Defined.

(** C7, as stated, fails on the text parser: for "just some text", which
    has no header of either pattern and no "finding", the background is
    not the input but the input under a synthesized header. *)
Lemma no_header_fallback_counterexample :
  search findings_pattern plain_example = None /\
  search background_pattern plain_example = None /\
  contains (lit "finding") (lower plain_example) = false /\
  parse_text_to_json plain_example
  = ([], lit "**Background Information**" ++ [nl] ++ plain_example) /\
  snd (parse_text_to_json plain_example) <> plain_example.
Proof. repeat split; try reflexivity. vm_compute. discriminate. Qed.

(** *** The backtracking matcher on a truncated text *)

Lemma first_some_app {A} (l1 l2 : list (option A)) :
  first_some (l1 ++ l2)
  = match first_some l1 with Some x => Some x | None => first_some l2 end.
Proof.
  induction l1 as [|[x|] l1 IH]; cbn [app first_some]; auto.
Qed.

(** [rmatch] takes the first match whose continuation succeeds. *)
Lemma rmatch_ends {A} (r : regex) :
  forall (s : str) (k : str -> option A),
    rmatch r s k = first_some (map (fun c => k (skipn c s)) (ends r s)).
Proof.
  induction r as [|p|r1 IH1 r2 IH2|r1 IH1 r2 IH2|r1 IH1]; intros s k;
    cbn [rmatch ends].
  - cbn. destruct (k s); reflexivity.
  - destruct (startswith_ci s p); [|reflexivity].
    cbn. destruct (k (skipn (List.length p) s)); reflexivity.
  - rewrite IH1.
    induction (ends r1 s) as [|c1 l IH]; [reflexivity|].
    cbn [map flat_map first_some]. rewrite map_app, first_some_app, <- IH.
    rewrite IH2, map_map.
    assert (E : map (fun c => k (skipn c (skipn c1 s))) (ends r2 (skipn c1 s))
                = map (fun c => k (skipn (c1 + c) s)) (ends r2 (skipn c1 s))).
    { apply map_ext. intros c. rewrite skipn_skipn. f_equal. f_equal. lia. }
    rewrite E.
    destruct (first_some _); reflexivity.
  - rewrite IH1, IH2, map_app, first_some_app. reflexivity.
  - rewrite IH1, map_app, first_some_app. cbn.
    destruct (first_some _); [reflexivity|]. destruct (k s); reflexivity.
Qed.

Lemma startswith_ci_length (s p : str) :
  startswith_ci s p = true -> (List.length p <= List.length s)%nat.
Proof.
  revert s. induction p as [|pc p IH]; intros s H; cbn [List.length]; [lia|].
  destruct s as [|c s]; [discriminate|]. cbn [startswith_ci] in H.
  apply andb_true_iff in H as [_ H]. apply IH in H. cbn [List.length]. lia.
Qed.

Lemma startswith_ci_firstn (s p : str) (m : nat) :
  startswith_ci (firstn m s) p = startswith_ci s p && (List.length p <=? m)%nat.
Proof.
  revert s m. induction p as [|pc p IH]; intros s m;
    [destruct s, m; reflexivity|].
  destruct m as [|m].
  - destruct s; cbn [firstn startswith_ci List.length Nat.leb];
      [reflexivity | symmetry; apply andb_false_r].
  - destruct s as [|c s]; [reflexivity|].
    cbn [firstn startswith_ci List.length]. rewrite IH.
    change (S (List.length p) <=? S m)%nat with (List.length p <=? m)%nat.
    rewrite andb_assoc. reflexivity.
Qed.

(** No match is longer than the text. *)
Lemma ends_le (r : regex) :
  forall (s : str) (c : nat), In c (ends r s) -> (c <= List.length s)%nat.
Proof.
  induction r as [|p|r1 IH1 r2 IH2|r1 IH1 r2 IH2|r1 IH1]; intros s c H;
    cbn [ends] in H.
  - destruct H as [<-|[]]. lia.
  - destruct (startswith_ci s p) eqn:E; [|contradiction].
    destruct H as [<-|[]]. apply startswith_ci_length, E.
  - apply in_flat_map in H as (c1 & H1 & H).
    apply in_map_iff in H as (c2 & <- & H2).
    apply IH1 in H1. apply IH2 in H2. rewrite length_skipn in H2. lia.
  - apply in_app_or in H as [H|H]; [apply IH1, H | apply IH2, H].
  - apply in_app_or in H as [H|[<-|[]]]; [apply IH1, H | lia].
Qed.

(** The matches at the start of a truncated text are the matches of the
    text that fit, in the same order. *)
Lemma ends_firstn (r : regex) :
  forall (s : str) (m : nat),
    ends r (firstn m s) = filter (fun c => c <=? m)%nat (ends r s).
Proof.
  induction r as [|p|r1 IH1 r2 IH2|r1 IH1 r2 IH2|r1 IH1]; intros s m;
    cbn [ends].
  - reflexivity.
  - rewrite startswith_ci_firstn.
    destruct (startswith_ci s p); cbn [andb filter]; [|reflexivity].
    destruct (List.length p <=? m)%nat; reflexivity.
  - rewrite IH1.
    induction (ends r1 s) as [|c1 l IH]; [reflexivity|].
    cbn [filter flat_map]. rewrite filter_app, <- IH.
    destruct (c1 <=? m)%nat eqn:E.
    + cbn [flat_map]. f_equal.
      apply Nat.leb_le in E.
      rewrite skipn_firstn_comm, IH2.
      induction (ends r2 (skipn c1 s)) as [|c2 l2 IHl]; [reflexivity|].
      cbn [filter map].
      replace (c1 + c2 <=? m)%nat with (c2 <=? m - c1)%nat
        by (destruct (c2 <=? m - c1)%nat eqn:E2; symmetry;
            [apply Nat.leb_le; apply Nat.leb_le in E2 |
             apply Nat.leb_gt; apply Nat.leb_gt in E2]; lia).
      destruct (c2 <=? m - c1)%nat; cbn [map]; rewrite IHl; reflexivity.
    + apply Nat.leb_gt in E.
      assert (Hnone : filter (fun c => c <=? m)%nat
                        (map (Nat.add c1) (ends r2 (skipn c1 s))) = []).
      { induction (ends r2 (skipn c1 s)) as [|c2 l2 IHl]; [reflexivity|].
        cbn [map filter].
        replace (c1 + c2 <=? m)%nat with false
          by (symmetry; apply Nat.leb_gt; lia).
        exact IHl. }
      rewrite Hnone. reflexivity.
  - rewrite IH1, IH2, filter_app. reflexivity.
  - rewrite IH1, filter_app. reflexivity.
Qed.

(** The match at the start of [s] is the first of its matches. *)
Lemma match_here_ends (r : regex) (s : str) :
  match_here r s = match ends r s with c :: _ => Some c | [] => None end.
Proof.
  unfold match_here. rewrite rmatch_ends.
  pose proof (ends_le r s) as Hle.
  destruct (ends r s) as [|c l]; [reflexivity|].
  cbn [map first_some]. f_equal.
  specialize (Hle c (or_introl eq_refl)). rewrite length_skipn. lia.
Qed.

(** A text cut after its match has the same match. *)
Lemma match_here_firstn (r : regex) (s : str) (n m : nat) :
  match_here r s = Some n -> (n <= m)%nat -> match_here r (firstn m s) = Some n.
Proof.
  rewrite !match_here_ends, ends_firstn.
  destruct (ends r s) as [|c l]; [discriminate|].
  intros [= ->] Hn. cbn [filter].
  replace (n <=? m)%nat with true by (symmetry; apply Nat.leb_le, Hn).
  reflexivity.
Qed.

Lemma match_here_prefix (r : regex) (w y z : str) :
  match_here r (w ++ y ++ z) = Some (List.length w) ->
  match_here r (w ++ y) = Some (List.length w).
Proof.
  intros H.
  replace (w ++ y) with (firstn (List.length (w ++ y)) (w ++ y ++ z)).
  - apply match_here_firstn; [exact H | rewrite length_app; lia].
  - rewrite app_assoc, firstn_app, Nat.sub_diag, firstn_all. cbn [firstn].
    apply app_nil_r.
Qed.

(** The match consumed a word of the pattern. *)
Lemma match_here_word (r : regex) (s : str) (n : nat) :
  match_here r s = Some n ->
  exists w rest, s = w ++ rest /\ lang r w /\ List.length w = n.
Proof.
  unfold match_here. intros H.
  apply rmatch_sound in H as (w & rest & -> & L & [= <-]).
  exists w, rest. repeat split; [exact L|]. rewrite length_app. lia.
Qed.

(** [re.search] returns the bounds of a match at its start. *)
Lemma search_from_found (r : regex) (s : str) :
  forall i a b, search_from r s i = Some (a, b) ->
  exists j n, (j <= List.length s)%nat /\
              a = Z.of_nat (i + j) /\ b = Z.of_nat (i + j + n) /\
              match_here r (skipn j s) = Some n.
Proof.
  induction s as [|c s IH]; intros i a b H; cbn [search_from] in H.
  - destruct (match_here r []) as [n|] eqn:E; [|discriminate].
    injection H as <- <-. exists O, n. rewrite !Nat.add_0_r. auto.
  - destruct (match_here r (c :: s)) as [n|] eqn:E.
    + injection H as <- <-. exists O, n. rewrite !Nat.add_0_r.
      repeat split; [lia | exact E].
    + apply IH in H as (j & n & Hj & -> & -> & Hm).
      exists (S j), n. cbn [List.length skipn].
      repeat split; [lia | f_equal; lia | f_equal; lia | exact Hm].
Qed.

Lemma search_at_start (r : regex) (s : str) (n : nat) :
  match_here r s = Some n -> search r s = Some (0, Z.of_nat n).
Proof.
  intros H. unfold search. destruct s; cbn [search_from]; rewrite H; reflexivity.
Qed.

Lemma isspace_lower_char (c : ascii) : isspace (lower_char c) = isspace c.
Proof. destruct c as [[] [] [] [] [] [] [] []]; reflexivity. Qed.

Lemma solid_lower (w : str) : solid (lower w) = solid w.
Proof.
  unfold solid, lower.
  destruct w as [|c w]; [reflexivity|].
  cbn [map]. change (lower_char c :: map lower_char w) with (map lower_char (c :: w)).
  rewrite <- map_rev.
  destruct (rev (c :: w)) as [|c' r]; [reflexivity|].
  cbn [map]. rewrite !isspace_lower_char. reflexivity.
Qed.

Ltac lang_cases :=
  repeat match goal with
         | H : lang (Seq _ _) _ |- _ => inversion H; subst; clear H
         | H : lang (Alt _ _) _ |- _ => inversion H; subst; clear H
         | H : lang (Opt _) _ |- _ => inversion H; subst; clear H
         | H : lang (Lit _) _ |- _ => inversion H; subst; clear H
         | H : lang Eps _ |- _ => inversion H; subst; clear H
         end.

(** A header of the findings pattern starts and ends with a character
    that is not blank. *)
Lemma findings_word_solid (w : str) : lang findings_pattern w -> solid w = true.
Proof.
  unfold findings_pattern. intros H. lang_cases;
    rewrite <- solid_lower, ?lower_app;
    repeat match goal with E : lower _ = lower _ |- _ => rewrite E; clear E end;
    reflexivity.
Qed.

(** A text that starts with the canonical header has it as its match. *)
Lemma match_here_canonical (tail : str) :
  match_here findings_pattern (canonical_findings ++ tail)
  = Some (List.length canonical_findings).
Proof.
  rewrite match_here_ends. destruct tail; reflexivity.
Qed.

Lemma rstrip_prefix (y : str) : exists b, y = rstrip y ++ b.
Proof.
  unfold rstrip. destruct (lstrip_suffix (rev y)) as [a Ha].
  exists (rev a). rewrite <- rev_app_distr, <- Ha, rev_involutive. reflexivity.
Qed.

Lemma strip_not_blank (pre b : str) (c : ascii) :
  isspace c = false -> strip (pre ++ c :: b) <> [].
Proof.
  intros Hc. unfold strip, rstrip.
  rewrite lstrip_app_nonspace by exact Hc.
  rewrite rev_app_distr. cbn [rev]. rewrite <- app_assoc. cbn [app].
  rewrite lstrip_app_nonspace by exact Hc.
  intros H. apply (f_equal (@List.length ascii)) in H.
  rewrite length_rev, length_app in H. cbn [List.length] in H. lia.
Qed.

(** The standardisation of lines 86-93 on a section that starts with its
    findings header: the header is replaced by the canonical one. *)
Lemma standardize_found (w tail : str) :
  w <> [] ->
  match_here findings_pattern (w ++ tail) = Some (List.length w) ->
  (let findings_section := w ++ tail in
   if truthy findings_section && negb (startswith findings_section canonical_findings)
   then
     let findings_section := sub1 findings_pattern canonical_findings findings_section in
     if negb (startswith findings_section canonical_findings)
     then findings_prefix ++ findings_section
     else findings_section
   else findings_section)
  = canonical_findings ++ tail.
Proof.
  intros Hw Hm. cbv zeta.
  assert (T : truthy (w ++ tail) = true) by (destruct w; [congruence | reflexivity]).
  rewrite T. cbn [andb].
  destruct (startswith (w ++ tail) canonical_findings) eqn:St; cbn [negb].
  - apply startswith_true in St as [rest Hrest].
    rewrite Hrest, match_here_canonical in Hm. injection Hm as Hlen.
    assert (E : w = canonical_findings).
    { assert (Ew : firstn (List.length w) (w ++ tail) = w)
        by (rewrite firstn_app, Nat.sub_diag, firstn_all; apply app_nil_r).
      rewrite <- Ew, Hrest, <- Hlen. reflexivity. }
    rewrite E. reflexivity.
  - unfold sub1. rewrite (search_at_start _ _ _ Hm).
    assert (E : slice_to (w ++ tail) 0 ++ canonical_findings
                ++ slice_from (w ++ tail) (Z.of_nat (List.length w))
                = canonical_findings ++ tail).
    { unfold slice_to, slice_from.
      rewrite !clamp_inside by (unfold len; rewrite length_app; lia).
      rewrite Nat2Z.id. cbn [Z.to_nat firstn app].
      rewrite skipn_app, Nat.sub_diag, skipn_all. reflexivity. }
    rewrite E, startswith_app. reflexivity.
Qed.

(** The findings text of the text parser when its pattern finds a header
    at [fs, fe) and the background header, if any, does not start inside
    it: the canonical header, then the text from the end of the found
    header to the end of the findings section, stripped on the right. *)
Lemma parse_findings_normalized (text : str) (fs fe : Z) :
  search findings_pattern text = Some (fs, fe) ->
  contains first_test_phrase text = false ->
  contains second_test_phrase text = false ->
  fe <= findings_stop text fs ->
  fst (parse_text_to_json text)
  = canonical_findings ++ rstrip (slice text fe (findings_stop text fs)).
Proof.
  intros Hs H1 H2 Hstop.
  pose proof Hs as Hfound. unfold search in Hfound.
  apply search_from_found in Hfound as (j & n & Hj & -> & -> & Hm).
  cbn [Nat.add] in *.
  destruct (match_here_word _ _ _ Hm) as (w & rest & Hsplit & L & Hlen).
  pose proof (findings_word_solid w L) as Hsolid.
  assert (Hw : exists c w', w = c :: w' /\ isspace c = false).
  { unfold solid in Hsolid. destruct w as [|c w']; [discriminate|].
    exists c, w'. split; [reflexivity|].
    destruct (rev (c :: w')); [discriminate|].
    apply andb_true_iff in Hsolid as [Hc _]. apply negb_true_iff, Hc. }
  destruct Hw as (c & w' & Ew & Hc).
  assert (Htext : text = firstn j text ++ w ++ rest)
    by (rewrite <- Hsplit; symmetry; apply firstn_skipn).
  assert (Hlenw : (j + n + List.length rest = List.length text)%nat).
  { apply (f_equal (@List.length ascii)) in Hsplit.
    rewrite length_skipn, length_app in Hsplit. lia. }
  (* the section, whatever its end *)
  assert (Hsection : forall stop : Z,
    Z.of_nat (j + n) <= stop <= len text ->
    strip (slice text (Z.of_nat j) stop)
    = w ++ rstrip (slice text (Z.of_nat (j + n)) stop) /\
    match_here findings_pattern (w ++ rstrip (slice text (Z.of_nat (j + n)) stop))
    = Some (List.length w)).
  { intros stop Hrange. unfold slice.
    rewrite !clamp_inside by (unfold len in *; lia).
    rewrite !Nat2Z.id.
    replace (skipn (j + n) text) with rest.
    2:{ rewrite Nat.add_comm, <- skipn_skipn, Hsplit, <- Hlen.
        rewrite skipn_app, Nat.sub_diag, skipn_all. reflexivity. }
    rewrite Hsplit, firstn_app.
    rewrite firstn_all2 by lia.
    replace (Z.to_nat stop - j - List.length w)%nat with (Z.to_nat stop - (j + n))%nat
      by lia.
    split; [apply strip_solid, Hsolid|].
    set (y := firstn _ rest).
    destruct (rstrip_prefix y) as [b Hb].
    apply (match_here_prefix _ w (rstrip y) (b ++ skipn (Z.to_nat stop - (j + n)) rest)).
    rewrite (app_assoc (rstrip y)), <- Hb. subst y. rewrite firstn_skipn, <- Hsplit, Hlen.
    exact Hm. }
  assert (Hall : slice_from text (Z.of_nat j) = slice text (Z.of_nat j) (len text)).
  { unfold slice_from, slice.
    rewrite !clamp_inside by (unfold len; lia).
    unfold len. rewrite !Nat2Z.id.
    symmetry. apply firstn_all2. rewrite length_skipn. lia. }
  assert (Hne : w <> []) by (rewrite Ew; discriminate).
  unfold parse_text_to_json.
  assert (Hblank : negb (truthy text) || str_eqb (strip text) [] = false).
  { apply orb_false_iff. split.
    - rewrite Htext, Ew. destruct (firstn j text); reflexivity.
    - destruct (str_eqb (strip text) []) eqn:E; [|reflexivity].
      apply str_eqb_eq in E. exfalso. revert E.
      rewrite Htext, Ew. cbn [app]. apply strip_not_blank, Hc. }
  rewrite Hblank.
  rewrite Hs.
  fold first_test_phrase second_test_phrase.
  rewrite H1, H2.
  unfold findings_stop in *.
  assert (Hend : Z.of_nat (j + n) <= len text <= len text) by (unfold len; lia).
  destruct (search background_pattern text) as [[bs be]|] eqn:Eb.
  - destruct (Z.of_nat j <? bs) eqn:Ejb.
    + assert (Hbs : Z.of_nat (j + n) <= bs <= len text).
      { split; [exact Hstop|]. unfold search in Eb.
        apply search_from_found in Eb as (jb & nb & Hjb & -> & _). unfold len. lia. }
      cbn [fst]. destruct (Hsection bs Hbs) as [-> Hmatch].
      apply (standardize_found w _ Hne Hmatch).
    + cbn [fst]. rewrite Hall. destruct (Hsection (len text) Hend) as [-> Hmatch].
      apply (standardize_found w _ Hne Hmatch).
  - cbn [fst]. rewrite Hall. destruct (Hsection (len text) Hend) as [-> Hmatch].
    apply (standardize_found w _ Hne Hmatch).
Qed.

(** The bounds that [re.search] returns are the bounds of a header of the
    pattern. *)
Lemma search_found_word (r : regex) (text : str) (a b : Z) :
  search r text = Some (a, b) ->
  0 <= a <= b /\ b <= len text /\ lang r (slice text a b).
Proof.
  unfold search. intros H.
  apply search_from_found in H as (j & n & Hj & -> & -> & Hm).
  cbn [Nat.add].
  destruct (match_here_word _ _ _ Hm) as (w & rest & Hsplit & L & Hlen).
  assert (Hfit : (j + n <= List.length text)%nat).
  { apply (f_equal (@List.length ascii)) in Hsplit.
    rewrite length_skipn, length_app in Hsplit. lia. }
  split; [lia|]. split; [unfold len; lia|].
  unfold slice. rewrite !clamp_inside by (unfold len; lia).
  rewrite !Nat2Z.id, Hsplit.
  replace (j + n - j)%nat with (List.length w) by lia.
  rewrite firstn_app, Nat.sub_diag, firstn_all. cbn [firstn].
  rewrite app_nil_r. exact L.
Qed.

(** C8 (header normalisation), as amended. When
    [extract_findings_and_background] finds a findings header [h] (the
    earliest occurrence of a recognized variant, at [sf]) and either no
    background header or an earliest background header that starts at or
    after the end of [h], the findings text it returns is the canonical
    [**1.4 Findings**] followed by the text that followed [h], up to the
    background header, stripped on the right: the first occurrence of the
    header is rewritten, later occurrences of the same text are kept.
    When the pattern of [parse_text_to_json] finds a findings header, at
    [fs, fe), in a text without the two special-cased test phrases, and the
    background header, if any, does not start inside that header, the
    findings text it returns is likewise the canonical header followed by
    the text from [fe] to the end of the findings section (the start of a
    background header that comes later, or the end of the text), stripped
    on the right. In any case the findings text of [parse_text_to_json] is
    empty or starts with the canonical header. For "**FINDINGS**\nX\n**2.0
    BACKGROUND INFORMATION**\nY" both functions return a findings text that
    contains "**1.4 Findings**" and not "**FINDINGS**". *)
Theorem findings_header_normalized
    (text : str) (sf sb : Z) (h : str) (bh : option str) :
  earliest_header text findings_headers (-1) None = (sf, Some h) ->
  earliest_header text background_headers (-1) None = (sb, bh) ->
  sb = -1 \/ sf + len h <= sb ->
  (In h findings_headers /\ find text h = sf /\ 0 <= sf /\
   fst (extract_findings_and_background text)
   = canonical_findings
     ++ rstrip (slice text (sf + len h) (if sb =? -1 then len text else sb))) /\
  (forall any fs fe,
      search findings_pattern any = Some (fs, fe) ->
      contains first_test_phrase any = false ->
      contains second_test_phrase any = false ->
      fe <= findings_stop any fs ->
      lang findings_pattern (slice any fs fe) /\
      fst (parse_text_to_json any)
      = canonical_findings ++ rstrip (slice any fe (findings_stop any fs))) /\
  (forall any,
      fst (parse_text_to_json any) = [] \/
      startswith (fst (parse_text_to_json any)) canonical_findings = true) /\
  (contains canonical_findings (fst (extract_findings_and_background header_example)) = true /\
   contains (lit "**FINDINGS**") (fst (extract_findings_and_background header_example)) = false) /\
  (contains canonical_findings (fst (parse_text_to_json header_example)) = true /\
   contains (lit "**FINDINGS**") (fst (parse_text_to_json header_example)) = false).
Proof.
  intros Ef Eb Horder.
  split; [eapply findings_part_normalized; eassumption|].
  split.
  { intros any fs fe Hs H1 H2 Hstop. split.
    - apply (search_found_word _ _ _ _ Hs).
    - apply parse_findings_normalized; assumption. }
  split; [apply parse_findings_canonical|].
  split; split; reflexivity.
Qed.

Lemma findings_header_normalized_witness :
  fst (extract_findings_and_background header_example)
  = canonical_findings ++ [nl] ++ lit "X" /\
  fst (parse_text_to_json header_example)
  = canonical_findings ++ [nl] ++ lit "X".
Proof.
  destruct (findings_header_normalized header_example 0 15 (lit "**FINDINGS**")
              (Some (lit "**2.0 BACKGROUND INFORMATION**")))
    as ((_ & _ & _ & H) & Hparse & _).
  - reflexivity.
  - reflexivity.
  - right. vm_compute. discriminate.
  - split; [rewrite H; reflexivity|].
    destruct (Hparse header_example 0 12) as [_ Hp].
    + reflexivity.
    + reflexivity.
    + reflexivity.
    + vm_compute. discriminate.
    + rewrite Hp. reflexivity.
Defined.

(** C8, as stated, fails when the found header occurs twice: only the
    first occurrence is rewritten, so the findings text still contains the
    original header. *)
Lemma findings_header_normalized_counterexample :
  earliest_header repeated_header_example findings_headers (-1) None
  = (0, Some (lit "**FINDINGS**")) /\
  fst (extract_findings_and_background repeated_header_example)
  = canonical_findings ++ [nl] ++ lit "X **FINDINGS**" /\
  contains (lit "**FINDINGS**")
    (fst (extract_findings_and_background repeated_header_example)) = true.
Proof. repeat split; reflexivity. Qed.

(** ** [Image_processing] *)

(** The loop returns a string after at most [max_retries - attempt]
    passes. *)
Lemma describe_loop_returns (model : Model) (fuel : nat) (attempt : Z) (k : nat) :
  Z.max 0 (GeminiHandlerImage.max_retries - attempt) < Z.of_nat fuel ->
  exists r t,
    GeminiHandlerImage.describe_loop model fuel attempt k = Some (Return r, t) /\
    Z.of_nat (ncalls t) <= Z.max 0 (GeminiHandlerImage.max_retries - attempt).
Proof.
  unfold GeminiHandlerImage.max_retries.
  revert attempt k. induction fuel as [|fuel IH]; intros attempt k Hf; [lia|].
  cbn [GeminiHandlerImage.describe_loop]. unfold GeminiHandlerImage.max_retries.
  destruct (attempt <? 3) eqn:E.
  - apply Z.ltb_lt in E.
    destruct (model k) as [r|e].
    + destruct (block_reason r);
        [|destruct (negb (truthy (text r)))];
        (eexists _, _; split; [reflexivity | change (ncalls [EvCall k]) with 1%nat; lia]).
    + destruct (is_rate_limit_synthesis e).
      * destruct (IH (attempt + 1) (S k)) as (r & t & -> & Ht); [lia|].
        eexists _, _; split; [reflexivity|].
        rewrite ncalls_cons_call, ncalls_cons_sleep. lia.
      * eexists _, _; split; [reflexivity | change (ncalls [EvCall k]) with 1%nat; lia].
  - eexists _, _; split; [reflexivity | change (ncalls []) with 0%nat; lia].
Qed.

(** X1 (image description, bounded). [Image_processing] turns every
    outcome of its retry logic into a returned string: it does not raise,
    it passes through the model call at most three times, and it makes no
    call at all when the image cannot be decoded or saved. *)
Theorem image_processing_returns
    (model : Model) (decode_error save_error : option str) :
  exists r t,
    GeminiHandlerImage.Image_processing model decode_error save_error
    = Some (Return r, t) /\
    (ncalls t <= 3)%nat /\
    (decode_error <> None \/ save_error <> None -> t = []).
Proof.
  unfold GeminiHandlerImage.Image_processing.
  destruct decode_error as [e|].
  - eexists _, _. repeat split. change (ncalls []) with 0%nat. lia.
  - destruct save_error as [e|].
    + eexists _, _. repeat split. change (ncalls []) with 0%nat. lia.
    + destruct (describe_loop_returns model
                  (S (Z.to_nat GeminiHandlerImage.max_retries)) 0 0)
        as (r & t & -> & Ht); [unfold GeminiHandlerImage.max_retries; lia|].
      exists r, t. unfold GeminiHandlerImage.max_retries in Ht.
      repeat split; [lia|].
      intros [H|H]; congruence.
Qed.

(** X2 (image description, rate limits). When the three passes all
    raise an error whose text has "429" or "rate limit", [Image_processing]
    sleeps 5, 10 and 20 seconds, the last sleep after the last pass, and
    returns the message of the repeated rate limit. *)
Theorem image_processing_rate_limited (model : Model) :
  (forall k, (k < 3)%nat -> synthesis_rate_limited_at model k) ->
  GeminiHandlerImage.Image_processing model None None
  = Some (Return image_rate_limit_message,
          [EvCall 0; EvSleep 5; EvCall 1; EvSleep 10; EvCall 2; EvSleep 20]).
Proof.
  intros H.
  destruct (H 0%nat ltac:(lia)) as (e0 & E0 & R0).
  destruct (H 1%nat ltac:(lia)) as (e1 & E1 & R1).
  destruct (H 2%nat ltac:(lia)) as (e2 & E2 & R2).
  unfold GeminiHandlerImage.Image_processing.
  change (S (Z.to_nat GeminiHandlerImage.max_retries)) with 4%nat.
  cbn [GeminiHandlerImage.describe_loop].
  change (0 <? GeminiHandlerImage.max_retries) with true. cbv iota.
  rewrite E0, R0.
  change (0 + 1 <? GeminiHandlerImage.max_retries) with true. cbv iota.
  rewrite E1, R1.
  change (0 + 1 + 1 <? GeminiHandlerImage.max_retries) with true. cbv iota.
  rewrite E2, R2.
  reflexivity.
Qed.

Lemma image_processing_rate_limited_witness :
  GeminiHandlerImage.Image_processing always_429 None None
  = Some (Return image_rate_limit_message,
          [EvCall 0; EvSleep 5; EvCall 1; EvSleep 10; EvCall 2; EvSleep 20]).
Proof.
  apply (image_processing_rate_limited always_429).
  intros k _. eexists. split; reflexivity.
Defined.

Lemma describe_loop_other_error (model : Model) (e : str) :
  forall (n fuel : nat) (attempt : Z) (k : nat),
    0 <= attempt -> attempt + Z.of_nat n < GeminiHandlerImage.max_retries ->
    (n < fuel)%nat ->
    (forall j, (j < n)%nat -> synthesis_rate_limited_at model (k + j)) ->
    model (k + n)%nat = Throws e ->
    is_rate_limit_synthesis e = false ->
    exists t,
      GeminiHandlerImage.describe_loop model fuel attempt k
      = Some (Return (lit "Error generating image description: " ++ e), t) /\
      ncalls t = S n.
Proof.
  unfold GeminiHandlerImage.max_retries.
  induction n as [|n IH]; intros fuel attempt k Ha Hn Hf Hrl He Hno;
    (destruct fuel as [|fuel]; [lia|]);
    cbn [GeminiHandlerImage.describe_loop]; unfold GeminiHandlerImage.max_retries;
    (destruct (attempt <? 3) eqn:E; [|apply Z.ltb_ge in E; lia]).
  - rewrite Nat.add_0_r in He. rewrite He, Hno. eexists. split; reflexivity.
  - destruct (Hrl 0%nat ltac:(lia)) as (e0 & E0 & R0).
    rewrite Nat.add_0_r in E0. rewrite E0, R0.
    destruct (IH fuel (attempt + 1) (S k)) as (t & -> & Ht); try lia; try assumption.
    + intros j Hj. replace (S k + j)%nat with (k + S j)%nat by lia. apply Hrl. lia.
    + replace (S k + n)%nat with (k + S n)%nat by lia. exact He.
    + eexists. split; [reflexivity|].
      rewrite ncalls_cons_call, ncalls_cons_sleep. lia.
Qed.

(** X3 (image description, other errors). The first error of a pass
    whose text has neither "429" nor "rate limit" ends [Image_processing]:
    no further pass is made and the error text is returned in a string.
    This includes a "quota" error, which [predict] would retry. *)
Theorem image_processing_other_error (model : Model) (n : nat) (e : str) :
  (n < 3)%nat ->
  (forall j, (j < n)%nat -> synthesis_rate_limited_at model j) ->
  model n = Throws e ->
  is_rate_limit_synthesis e = false ->
  exists t,
    GeminiHandlerImage.Image_processing model None None
    = Some (Return (lit "Error generating image description: " ++ e), t) /\
    ncalls t = S n.
Proof.
  intros Hn Hrl He Hno. unfold GeminiHandlerImage.Image_processing.
  apply describe_loop_other_error; try assumption;
    unfold GeminiHandlerImage.max_retries; try lia.
Qed.

Lemma image_processing_other_error_witness :
  is_rate_limit (lit "Quota exceeded for this project") = true /\
  exists t,
    GeminiHandlerImage.Image_processing always_quota None None
    = Some (Return (lit "Error generating image description: "
                    ++ lit "Quota exceeded for this project"), t) /\
    ncalls t = 1%nat.
Proof.
  split; [reflexivity|].
  apply (image_processing_other_error always_quota 0 (lit "Quota exceeded for this project"));
    [lia | intros j Hj; lia | reflexivity | reflexivity].
Defined.

(** ** [predict_with_image] *)

Lemma image_loop_shape (sleep : Sleep) (model : GeminiImageModel.ImageModel)
    (max_retries base : Z) fuel rc k :
  GeminiImageModel.predict_with_image_loop sleep model max_retries base None fuel rc k
  = retry_loop sleep (image_body model base)
      (Raise (APIRateLimitError image_limit_message)) max_retries fuel rc k.
Proof.
  revert rc k. induction fuel as [|fuel IH]; intros rc k; [reflexivity|].
  cbn [GeminiImageModel.predict_with_image_loop retry_loop]. unfold image_body.
  destruct (rc <=? max_retries); [|reflexivity].
  destruct (GeminiImageModel.describe model k) as [t|e]; [reflexivity|].
  destruct (is_rate_limit e); [|reflexivity].
  destruct (sleep _); [reflexivity|].
  cbn [List.length app]. rewrite Nat.add_1_r, IH. reflexivity.
Qed.

Lemma image_body_rate_limited (model : GeminiImageModel.ImageModel) (base rc : Z)
    (k : nat) (error_str : str) :
  GeminiImageModel.describe model k = inr error_str ->
  is_rate_limit error_str = true ->
  image_body model base rc k
  = RetryAfter (Some (extract_retry_delay error_str (base * 2 ^ rc))).
Proof. intros He Hrl. unfold image_body. rewrite He, Hrl. reflexivity. Qed.

Lemma image_body_retried (sleep : Sleep) (model : GeminiImageModel.ImageModel)
    (base rc : Z) (k : nat) :
  image_retried_at sleep model base rc k ->
  retries sleep (image_body model base rc k).
Proof.
  intros (e & He & Hrl & Hs).
  rewrite (image_body_rate_limited model base rc k e He Hrl). exact Hs.
Qed.

(** An image that does not decode: no pass reaches the model. *)
Lemma undecodable_loop (sleep : Sleep) (model : GeminiImageModel.ImageModel)
    (max_retries base : Z) (e : str) (fuel : nat) (rc : Z) (k : nat) :
  Z.max 0 (max_retries - rc + 1) < Z.of_nat fuel ->
  exists r t,
    GeminiImageModel.predict_with_image_loop sleep model max_retries base (Some e)
      fuel rc k
    = Some (r, t) /\ ncalls t = O.
Proof.
  revert rc k. induction fuel as [|fuel IH]; intros rc k Hf; [lia|].
  cbn [GeminiImageModel.predict_with_image_loop].
  destruct (rc <=? max_retries) eqn:E; [|eexists _, _; split; reflexivity].
  apply Z.leb_le in E.
  destruct (is_rate_limit _); [|eexists _, _; split; reflexivity].
  destruct (sleep _); [eexists _, _; split; reflexivity|].
  cbn [List.length app]. rewrite Nat.add_0_r.
  destruct (IH (rc + 1) k) as (r & t & -> & Ht); [lia|].
  eexists _, _; split; [reflexivity|]. rewrite ncalls_cons_sleep. exact Ht.
Qed.

(** X4 (image prediction, bounded). [predict_with_image] ends after at
    most [max_retries + 1] calls of the model, and calls it not at all for
    an image that does not decode. *)
Theorem predict_with_image_bounded
    (sleep : Sleep) (model : GeminiImageModel.ImageModel) (max_retries base : Z)
    (decode_error : option str) (k : nat) :
  exists r t,
    GeminiImageModel.predict_with_image sleep model max_retries base decode_error k
    = Some (r, t) /\
    Z.of_nat (ncalls t) <= Z.max 0 (max_retries + 1) /\
    (decode_error <> None -> ncalls t = O).
Proof.
  unfold GeminiImageModel.predict_with_image. destruct decode_error as [e|].
  - destruct (undecodable_loop sleep model max_retries base e
                (S (Z.to_nat (max_retries + 1))) 0 k) as (r & t & -> & Ht); [lia|].
    exists r, t. repeat split; [lia | intros _; exact Ht].
  - rewrite image_loop_shape.
    destruct (retry_loop_total sleep (image_body model base)
                (Raise (APIRateLimitError image_limit_message)) max_retries
                (S (Z.to_nat (max_retries + 1))) 0 k) as (r & t & E); [lia|].
    exists r, t. split; [exact E|]. split; [|congruence].
    apply retry_loop_bound in E. lia.
Qed.

(** X5 (image prediction, retry policy). On a decoded image, after [n]
    passes that failed with a rate-limit-class error and whose sleeps
    returned, the next pass decides: the text of its response is returned,
    empty or not; any other failure (an exception of the library, a
    blocked safety rating, a response with neither text nor parts) is
    raised as an [APIError] "Error generating image description: ...",
    with no further call; and when it fails with a rate-limit-class error
    and the sleep that follows raises, that exception leaves
    [predict_with_image], again with no further call. *)
Theorem predict_with_image_decisive_pass
    (sleep : Sleep) (model : GeminiImageModel.ImageModel) (max_retries base : Z)
    (k n : nat) :
  Z.of_nat n <= max_retries ->
  (forall j, (j < n)%nat ->
             image_retried_at sleep model base (Z.of_nat j) (k + j)) ->
  (forall response_text,
      GeminiImageModel.describe model (k + n) = inl response_text ->
      exists t,
        GeminiImageModel.predict_with_image sleep model max_retries base None k
        = Some (Return response_text, t) /\ ncalls t = S n) /\
  (forall error_str,
      GeminiImageModel.describe model (k + n) = inr error_str ->
      is_rate_limit error_str = false ->
      exists t,
        GeminiImageModel.predict_with_image sleep model max_retries base None k
        = Some (Raise (APIError (lit "Error generating image description: "
                                 ++ error_str)), t) /\
        ncalls t = S n) /\
  (forall error_str msg,
      GeminiImageModel.describe model (k + n) = inr error_str ->
      is_rate_limit error_str = true ->
      sleep (extract_retry_delay error_str (base * 2 ^ Z.of_nat n)) = Some msg ->
      exists t,
        GeminiImageModel.predict_with_image sleep model max_retries base None k
        = Some (Raise (SleepException msg), t) /\
        ncalls t = S n).
Proof.
  intros Hn Hrl.
  assert (Hfin : forall r, image_body model base (Z.of_nat n) (k + n) = Finish r ->
            exists t,
              GeminiImageModel.predict_with_image sleep model max_retries base None k
              = Some (r, t) /\ ncalls t = S n).
  { intros r Hr. unfold GeminiImageModel.predict_with_image.
    rewrite image_loop_shape.
    replace (S (Z.to_nat (max_retries + 1)))
      with (n + S (Z.to_nat (max_retries + 1) - n))%nat by lia.
    rewrite (retry_loop_finish _ _ _ _ n _ 0 k r).
    - eexists. split; [reflexivity|].
      rewrite ncalls_app, ncalls_retried_prefix. cbn. lia.
    - intros j Hj. apply image_body_retried, Hrl, Hj.
    - lia.
    - exact Hr. }
  split; [|split].
  - intros response_text E. apply Hfin. unfold image_body. rewrite E. reflexivity.
  - intros error_str E Hno. apply Hfin. unfold image_body. rewrite E, Hno. reflexivity.
  - intros error_str msg E Hlimit Hs. unfold GeminiImageModel.predict_with_image.
    rewrite image_loop_shape.
    replace (S (Z.to_nat (max_retries + 1)))
      with (n + S (Z.to_nat (max_retries + 1) - n))%nat by lia.
    rewrite (retry_loop_sleep_fails _ _ _ _ n _ 0 k
               (extract_retry_delay error_str (base * 2 ^ Z.of_nat n)) msg).
    + eexists. split; [reflexivity|].
      rewrite ncalls_app, ncalls_retried_prefix. cbn. lia.
    + intros j Hj. apply image_body_retried, Hrl, Hj.
    + lia.
    + apply image_body_rate_limited; assumption.
    + exact Hs.
Qed.

Lemma predict_with_image_decisive_pass_witness :
  (exists t,
      GeminiImageModel.predict_with_image time_sleep image_empty_text 3 5 None 0
      = Some (Return [], t) /\ ncalls t = 1%nat) /\
  (exists t,
      GeminiImageModel.predict_with_image time_sleep image_blocked 3 5 None 0
      = Some (Raise (APIError (lit "Error generating image description: "
                               ++ lit "Image description blocked: DANGEROUS_CONTENT")), t) /\
      ncalls t = 1%nat) /\
  (exists t,
      GeminiImageModel.predict_with_image time_sleep image_suggesting_too_much 3 5 None 0
      = Some (Raise (SleepException clock_overflow), t) /\
      ncalls t = 1%nat).
Proof.
  split; [|split].
  - apply (proj1 (predict_with_image_decisive_pass time_sleep image_empty_text 3 5 0 0
                    ltac:(lia) ltac:(intros j Hj; lia))).
    reflexivity.
  - apply (proj1 (proj2 (predict_with_image_decisive_pass time_sleep image_blocked 3 5 0 0
                           ltac:(lia) ltac:(intros j Hj; lia))));
      reflexivity.
  - apply (proj2 (proj2 (predict_with_image_decisive_pass time_sleep
                           image_suggesting_too_much 3 5 0 0
                           ltac:(lia) ltac:(intros j Hj; lia)))
             (lit "429 Resource exhausted. retry_delay { seconds: 9223372035 }"));
      reflexivity.
Defined.

(** X6 (image prediction, exhausted). When every pass fails with a
    rate-limit-class error and the sleep after each returns,
    [predict_with_image] raises [APIRateLimitError] with the message of
    the image path after exactly [max_retries + 1] calls. *)
Theorem predict_with_image_exhausted
    (sleep : Sleep) (model : GeminiImageModel.ImageModel) (max_retries base : Z)
    (k : nat) :
  0 <= max_retries ->
  (forall j, Z.of_nat j <= max_retries ->
             image_retried_at sleep model base (Z.of_nat j) (k + j)) ->
  exists t,
    GeminiImageModel.predict_with_image sleep model max_retries base None k
    = Some (Raise (APIRateLimitError image_limit_message), t) /\
    Z.of_nat (ncalls t) = max_retries + 1.
Proof.
  intros Hmax Hrl. unfold GeminiImageModel.predict_with_image.
  rewrite image_loop_shape.
  pose proof (retry_loop_exhausted sleep (image_body model base)
                (Raise (APIRateLimitError image_limit_message)) max_retries 0 k) as H.
  cbn zeta in H. replace (max_retries - 0 + 1) with (max_retries + 1) in H by lia.
  rewrite H; [| lia | intros j Hj; apply image_body_retried, Hrl; lia].
  eexists. split; [reflexivity|].
  rewrite ncalls_retried_prefix. lia.
Qed.

Lemma predict_with_image_exhausted_witness :
  exists t,
    GeminiImageModel.predict_with_image time_sleep image_always_429 3 5 None 0
    = Some (Raise (APIRateLimitError image_limit_message), t) /\
    Z.of_nat (ncalls t) = 3 + 1.
Proof.
  apply (predict_with_image_exhausted time_sleep image_always_429 3 5 0); [lia|].
  intros j Hj. exists (lit "429 Too Many Requests").
  split; [reflexivity|]. split; [reflexivity|].
  assert (E : (j = 0 \/ j = 1 \/ j = 2 \/ j = 3)%nat) by lia.
  destruct E as [->|[->|[->| ->]]]; reflexivity.
Defined.

Lemma undecodable_rate_limited_loop (sleep : Sleep)
    (model : GeminiImageModel.ImageModel) (max_retries base : Z) (e : str) :
  is_rate_limit (lit "Failed to decode base64 image: " ++ e) = true ->
  forall (fuel : nat) (rc : Z) (k : nat),
    0 <= rc <= max_retries + 1 ->
    max_retries - rc + 1 < Z.of_nat fuel ->
    (forall rc', rc <= rc' <= max_retries ->
                 sleep (undecodable_delay e base rc') = None) ->
    exists t,
      GeminiImageModel.predict_with_image_loop sleep model max_retries base (Some e)
        fuel rc k
      = Some (Raise (APIRateLimitError image_limit_message), t) /\
      ncalls t = O /\ Z.of_nat (nsleeps t) = max_retries + 1 - rc.
Proof.
  intros Hrl. induction fuel as [|fuel IH]; intros rc k Hrc Hf Hs; [lia|].
  cbn [GeminiImageModel.predict_with_image_loop].
  destruct (rc <=? max_retries) eqn:E.
  - apply Z.leb_le in E. rewrite Hrl.
    fold (undecodable_delay e base rc). rewrite Hs by lia.
    cbn [List.length app]. rewrite Nat.add_0_r.
    destruct (IH (rc + 1) k) as (t & -> & Hc & Hn);
      [lia | lia | intros rc' Hrc'; apply Hs; lia |].
    eexists. split; [reflexivity|]. split.
    + rewrite ncalls_cons_sleep. exact Hc.
    + change (nsleeps (EvSleep ?d :: t)) with (S (nsleeps t)). lia.
  - apply Z.leb_gt in E. eexists. split; [reflexivity|]. split; [reflexivity|].
    change (nsleeps []) with O. lia.
Qed.

Lemma undecodable_sleep_fails_loop (sleep : Sleep)
    (model : GeminiImageModel.ImageModel) (max_retries base : Z) (e msg : str)
    (n : Z) :
  is_rate_limit (lit "Failed to decode base64 image: " ++ e) = true ->
  n <= max_retries ->
  sleep (undecodable_delay e base n) = Some msg ->
  forall (fuel : nat) (rc : Z) (k : nat),
    0 <= rc <= n ->
    n - rc < Z.of_nat fuel ->
    (forall rc', rc <= rc' < n -> sleep (undecodable_delay e base rc') = None) ->
    exists t,
      GeminiImageModel.predict_with_image_loop sleep model max_retries base (Some e)
        fuel rc k
      = Some (Raise (SleepException msg), t) /\
      ncalls t = O /\ Z.of_nat (nsleeps t) = n - rc.
Proof.
  intros Hrl Hn Hfail. induction fuel as [|fuel IH]; intros rc k Hrc Hf Hs; [lia|].
  cbn [GeminiImageModel.predict_with_image_loop].
  destruct (rc <=? max_retries) eqn:E; [|apply Z.leb_gt in E; lia].
  rewrite Hrl. fold (undecodable_delay e base rc).
  destruct (Z.eq_dec rc n) as [->|Hne].
  - rewrite Hfail. eexists. split; [reflexivity|]. split; [reflexivity|].
    change (nsleeps []) with O. lia.
  - rewrite Hs by lia. cbn [List.length app]. rewrite Nat.add_0_r.
    destruct (IH (rc + 1) k) as (t & -> & Hc & Hcount);
      [lia | lia | intros rc' Hrc'; apply Hs; lia |].
    eexists. split; [reflexivity|]. split.
    + rewrite ncalls_cons_sleep. exact Hc.
    + change (nsleeps (EvSleep ?d :: t)) with (S (nsleeps t)). lia.
Qed.

(** X7 (image prediction, undecodable image). For an image that
    [b64decode] refuses, [predict_with_image] never calls the model. When
    the text of the decoding error is not rate-limit-class, it raises at
    once an [APIError] that holds this text. When that text happens to
    have "429", "rate limit" or "quota" in it, the error is taken for a
    rate limit: the function sleeps after each pass, [max_retries + 1]
    times when every sleep returns, and then raises [APIRateLimitError];
    when the sleep after pass [n] is the first that raises, the function
    ends there with the exception of [time.sleep], after [n] sleeps that
    returned. *)
Theorem predict_with_image_undecodable
    (sleep : Sleep) (model : GeminiImageModel.ImageModel) (max_retries base : Z)
    (e : str) (k : nat) :
  0 <= max_retries ->
  (is_rate_limit (lit "Failed to decode base64 image: " ++ e) = false ->
   GeminiImageModel.predict_with_image sleep model max_retries base (Some e) k
   = Some (Raise (APIError (lit "Error generating image description: "
                            ++ lit "Failed to decode base64 image: " ++ e)), [])) /\
  (is_rate_limit (lit "Failed to decode base64 image: " ++ e) = true ->
   ((forall rc, 0 <= rc <= max_retries -> sleep (undecodable_delay e base rc) = None) ->
    exists t,
      GeminiImageModel.predict_with_image sleep model max_retries base (Some e) k
      = Some (Raise (APIRateLimitError image_limit_message), t) /\
      ncalls t = O /\ Z.of_nat (nsleeps t) = max_retries + 1) /\
   (forall n msg,
       0 <= n <= max_retries ->
       (forall rc, 0 <= rc < n -> sleep (undecodable_delay e base rc) = None) ->
       sleep (undecodable_delay e base n) = Some msg ->
       exists t,
         GeminiImageModel.predict_with_image sleep model max_retries base (Some e) k
         = Some (Raise (SleepException msg), t) /\
         ncalls t = O /\ Z.of_nat (nsleeps t) = n)).
Proof.
  intros Hmax. split.
  - intros Hno. unfold GeminiImageModel.predict_with_image.
    cbn [GeminiImageModel.predict_with_image_loop].
    destruct (0 <=? max_retries) eqn:E; [|apply Z.leb_gt in E; lia].
    rewrite Hno. reflexivity.
  - intros Hrl. split.
    + intros Hs. unfold GeminiImageModel.predict_with_image.
      destruct (undecodable_rate_limited_loop sleep model max_retries base e Hrl
                  (S (Z.to_nat (max_retries + 1))) 0 k) as (t & -> & Hc & Hn);
        [lia | lia | exact Hs |].
      exists t. repeat split; [exact Hc | lia].
    + intros n msg Hn Hs Hfail. unfold GeminiImageModel.predict_with_image.
      destruct (undecodable_sleep_fails_loop sleep model max_retries base e msg n Hrl
                  ltac:(lia) Hfail (S (Z.to_nat (max_retries + 1))) 0 k)
        as (t & -> & Hc & Hcount); [lia | lia | exact Hs |].
      exists t. repeat split; [exact Hc | lia].
Qed.

Lemma predict_with_image_undecodable_witness :
  GeminiImageModel.predict_with_image time_sleep image_always_429 3 5
    (Some (lit "Incorrect padding")) 0
  = Some (Raise (APIError (lit "Error generating image description: "
                           ++ lit "Failed to decode base64 image: "
                           ++ lit "Incorrect padding")), []) /\
  exists t,
    GeminiImageModel.predict_with_image time_sleep image_always_429 3 5
      (Some decode_error_429) 0
    = Some (Raise (APIRateLimitError image_limit_message), t) /\
    ncalls t = O /\ Z.of_nat (nsleeps t) = 3 + 1.
Proof.
  split.
  - apply (proj1 (predict_with_image_undecodable time_sleep image_always_429 3 5
                    (lit "Incorrect padding") 0 ltac:(lia))).
    reflexivity.
  - apply (proj1 (proj2 (predict_with_image_undecodable time_sleep image_always_429 3 5
                           decode_error_429 0 ltac:(lia)) eq_refl)).
    intros rc Hrc.
    assert (E : rc = 0 \/ rc = 1 \/ rc = 2 \/ rc = 3) by lia.
    destruct E as [->|[->|[->| ->]]]; reflexivity.
Defined.

(** ** Dicts *)

Lemma str_eqb_refl (a : str) : str_eqb a a = true.
Proof. apply str_eqb_eq. reflexivity. Qed.

Lemma str_eqb_neq (a b : str) : str_eqb a b = false <-> a <> b.
Proof.
  split.
  - intros H E. apply str_eqb_eq in E. congruence.
  - intros H. destruct (str_eqb a b) eqn:E; [|reflexivity].
    apply str_eqb_eq in E. contradiction.
Qed.

Lemma lookup_set_same {V} (d : list (str * V)) (key : str) (v : V) :
  Dict.lookup (Dict.set d key v) key = Some v.
Proof.
  induction d as [|[k x] d IH]; cbn [Dict.set Dict.lookup].
  - rewrite str_eqb_refl. reflexivity.
  - destruct (str_eqb k key) eqn:E; cbn [Dict.lookup]; rewrite E; [reflexivity | exact IH].
Qed.

Lemma lookup_set_other {V} (d : list (str * V)) (key key' : str) (v : V) :
  key <> key' -> Dict.lookup (Dict.set d key v) key' = Dict.lookup d key'.
Proof.
  intros Hne. induction d as [|[k x] d IH]; cbn [Dict.set Dict.lookup].
  - apply str_eqb_neq in Hne. rewrite Hne. reflexivity.
  - destruct (str_eqb k key) eqn:E; cbn [Dict.lookup].
    + apply str_eqb_eq in E. subst k. apply str_eqb_neq in Hne. rewrite Hne. reflexivity.
    + destruct (str_eqb k key'); [reflexivity | exact IH].
Qed.

Lemma lookup_None_keys {V} (d : list (str * V)) (key : str) :
  Dict.lookup d key = None <-> ~ In key (map fst d).
Proof.
  induction d as [|[k x] d IH]; cbn [Dict.lookup map fst In].
  - split; [intros _ [] | reflexivity].
  - destruct (str_eqb k key) eqn:E.
    + apply str_eqb_eq in E. split; [discriminate | intros H; exfalso; apply H; left; exact E].
    + apply str_eqb_neq in E. rewrite IH. split; [intros H [H'|H']; auto | intros H H'; auto].
Qed.

Lemma set_new_key {V} (d : list (str * V)) (key : str) (v : V) :
  Dict.lookup d key = None -> Dict.set d key v = d ++ [(key, v)].
Proof.
  induction d as [|[k x] d IH]; cbn [Dict.set Dict.lookup app]; [reflexivity|].
  destruct (str_eqb k key); [discriminate|]. intros H. rewrite IH by exact H. reflexivity.
Qed.

Lemma keys_set {V} (d : list (str * V)) (key : str) (v : V) :
  map fst (Dict.set d key v)
  = if existsb (str_eqb key) (map fst d) then map fst d else map fst d ++ [key].
Proof.
  induction d as [|[k x] d IH]; cbn [Dict.set map fst existsb app]; [reflexivity|].
  destruct (str_eqb k key) eqn:E.
  - assert (E' : str_eqb key k = true) by (apply str_eqb_eq; apply str_eqb_eq in E; auto).
    rewrite E'. reflexivity.
  - assert (E' : str_eqb key k = false)
      by (apply str_eqb_neq; apply str_eqb_neq in E; auto).
    rewrite E'. cbn [map fst orb]. rewrite IH.
    destruct (existsb _ _); reflexivity.
Qed.

Lemma existsb_str_eqb (key : str) (l : list str) :
  existsb (str_eqb key) l = true <-> In key l.
Proof.
  rewrite existsb_exists. split.
  - intros (x & Hin & E). apply str_eqb_eq in E. subst. exact Hin.
  - intros H. exists key. split; [exact H | apply str_eqb_refl].
Qed.

Lemma distinct_keys_set {V} (d : list (str * V)) (key : str) (v : V) :
  distinct_keys d -> distinct_keys (Dict.set d key v).
Proof.
  unfold distinct_keys. intros H. rewrite keys_set.
  destruct (existsb (str_eqb key) (map fst d)) eqn:E; [exact H|].
  apply NoDup_app; [exact H | repeat constructor; intros [] | ].
  intros x Hx [<-|[]]. apply existsb_str_eqb in Hx. congruence.
Qed.

Lemma keys_del_incl {V} (d : list (str * V)) (key : str) :
  incl (map fst (Dict.del d key)) (map fst d).
Proof.
  induction d as [|[k x] d IH]; cbn [Dict.del map fst]; [apply incl_refl|].
  destruct (str_eqb k key); [apply incl_tl, incl_refl|].
  cbn [map fst]. intros y [<-|Hy]; [left; reflexivity | right; apply IH, Hy].
Qed.

Lemma distinct_keys_del {V} (d : list (str * V)) (key : str) :
  distinct_keys d -> distinct_keys (Dict.del d key).
Proof.
  unfold distinct_keys. induction d as [|[k x] d IH]; cbn [Dict.del map fst];
    [auto|].
  intros H. inversion H as [|? ? Hnot Hd]; subst.
  destruct (str_eqb k key); [exact Hd|].
  cbn [map fst]. constructor; [|apply IH, Hd].
  intros Hin. apply Hnot. eapply keys_del_incl, Hin.
Qed.

Lemma lookup_del_same {V} (d : list (str * V)) (key : str) :
  distinct_keys d -> Dict.lookup (Dict.del d key) key = None.
Proof.
  unfold distinct_keys. induction d as [|[k x] d IH]; cbn [Dict.del map fst];
    [reflexivity|].
  intros H. inversion H as [|? ? Hnot Hd]; subst.
  destruct (str_eqb k key) eqn:E.
  - apply str_eqb_eq in E. subst k. apply lookup_None_keys. exact Hnot.
  - cbn [Dict.lookup]. rewrite E. apply IH, Hd.
Qed.

Lemma lookup_del_other {V} (d : list (str * V)) (key key' : str) :
  key <> key' -> Dict.lookup (Dict.del d key) key' = Dict.lookup d key'.
Proof.
  intros Hne. induction d as [|[k x] d IH]; cbn [Dict.del Dict.lookup]; [reflexivity|].
  destruct (str_eqb k key) eqn:E.
  - apply str_eqb_eq in E. subst k. apply str_eqb_neq in Hne. rewrite Hne. reflexivity.
  - cbn [Dict.lookup]. destruct (str_eqb k key'); [reflexivity | exact IH].
Qed.

Lemma del_set_new {V} (d : list (str * V)) (key : str) (v : V) :
  Dict.lookup d key = None -> Dict.del (Dict.set d key v) key = d.
Proof.
  induction d as [|[k x] d IH]; cbn [Dict.set Dict.lookup Dict.del].
  - rewrite str_eqb_refl. reflexivity.
  - destruct (str_eqb k key) eqn:E; [discriminate|]. intros H.
    cbn [Dict.del]. rewrite E, IH by exact H. reflexivity.
Qed.

(** ** [ModelLoader] *)

Import ModelLoader.

(** X8 (model cache, hit). Once [get_model] has returned a model, every
    later request whose key [model_type_model_name] is the same returns
    that model from the cache, without loading and whatever the API key:
    the same type and name again, and also another type and name that give
    the same key, even a type that [model_classes] does not have. *)
Theorem get_model_served_from_cache
    (models models' : cache) (model_type model_name api_key : str)
    (genai_error : option str) (model : model_object) :
  get_model models model_type model_name api_key genai_error = (inl model, models') ->
  forall model_type' model_name' api_key' genai_error',
    model_key model_type' model_name' = model_key model_type model_name ->
    get_model models' model_type' model_name' api_key' genai_error'
    = (inl model, models').
Proof.
  unfold get_model. intros H t' n' a' g' Hkey. rewrite Hkey.
  destruct (Dict.lookup models (model_key model_type model_name)) as [m|] eqn:L.
  - injection H as <- <-. rewrite L. reflexivity.
  - destruct (negb (str_eqb model_type (lit "gemini"))); [discriminate|].
    destruct (load _ _) as [m|e]; [|discriminate].
    injection H as <- <-. rewrite lookup_set_same. reflexivity.
Qed.

Lemma get_model_served_from_cache_witness :
  get_model (snd (get_model [] (lit "gemini") (lit "a_b") (lit "key") None))
    (lit "gemini_a") (lit "b") [] None
  = (inl (mkModel (lit "a_b") (lit "key") true),
     [(lit "gemini_a_b", mkModel (lit "a_b") (lit "key") true)]).
Proof.
  apply (get_model_served_from_cache [] _ (lit "gemini") (lit "a_b") (lit "key") None);
    reflexivity.
Defined.

(** X9 (model cache, errors). A request that [get_model] refuses leaves
    the cache as it was, and its key is not in the cache. The exception is
    [ModelNotFoundError] exactly when the type is not "gemini"; otherwise
    it is [ModelLoadingError], whose message wraps the message of
    [GeminiModel.load]: a missing API key, or the error of the library. *)
Theorem get_model_errors
    (models models' : cache) (model_type model_name api_key : str)
    (genai_error : option str) (e : exn) :
  get_model models model_type model_name api_key genai_error = (inr e, models') ->
  models' = models /\
  Dict.lookup models (model_key model_type model_name) = None /\
  (model_type <> lit "gemini" /\
   e = ModelNotFoundError (lit "Model type '" ++ model_type ++ lit "' not found.")
   \/
   model_type = lit "gemini" /\
   exists reason,
     e = ModelLoadingError
           (lit "Failed to load model '" ++ model_key model_type model_name
            ++ lit "': " ++ lit "Failed to load Gemini model: " ++ reason) /\
     (api_key = [] /\
      reason = lit "Missing Google API key. Set GOOGLE_API_KEY in the environment variables."
      \/ api_key <> [] /\ genai_error = Some reason)).
Proof.
  unfold get_model.
  destruct (Dict.lookup models (model_key model_type model_name)) as [m|] eqn:L;
    [discriminate|].
  destruct (str_eqb model_type (lit "gemini")) eqn:T; cbn [negb].
  - apply str_eqb_eq in T. unfold load. cbn [ModelLoader.api_key].
    destruct api_key as [|c key]; cbn [truthy negb].
    + intros [= <- <-]. repeat split. right. split; [exact T|].
      eexists. split; [reflexivity|]. left. split; reflexivity.
    + destruct genai_error as [reason|]; [|discriminate].
      intros [= <- <-]. repeat split. right. split; [exact T|].
      exists reason. split; [reflexivity|]. right. split; [discriminate | reflexivity].
  - apply str_eqb_neq in T. intros [= <- <-]. repeat split. left. split; [exact T | reflexivity].
Qed.

Lemma get_model_errors_witness :
  snd (get_model loaded_cache (lit "vision") (lit "pro") (lit "key") None) = loaded_cache /\
  Dict.lookup loaded_cache (model_key (lit "vision") (lit "pro")) = None.
Proof.
  destruct (get_model_errors loaded_cache
              (snd (get_model loaded_cache (lit "vision") (lit "pro") (lit "key") None))
              (lit "vision") (lit "pro") (lit "key") None
              (ModelNotFoundError (lit "Model type 'vision' not found.")))
    as (H1 & H2 & _); [reflexivity|].
  split; [exact H1 | exact H2].
Defined.

(** X10 (model cache, unload). [unload_model] answers [True]; after it
    the key is not in the cache and every other key holds what it held;
    unloading what [get_model] has just loaded gives back the cache from
    before the load. *)
Theorem unload_model_removes (models : cache) (model_type model_name : str) :
  distinct_keys models ->
  fst (unload_model models model_type model_name) = true /\
  distinct_keys (snd (unload_model models model_type model_name)) /\
  Dict.lookup (snd (unload_model models model_type model_name))
    (model_key model_type model_name) = None /\
  (forall key, key <> model_key model_type model_name ->
               Dict.lookup (snd (unload_model models model_type model_name)) key
               = Dict.lookup models key) /\
  (forall api_key genai_error model loaded,
      Dict.lookup models (model_key model_type model_name) = None ->
      get_model models model_type model_name api_key genai_error = (inl model, loaded) ->
      unload_model loaded model_type model_name = (true, models)).
Proof.
  intros Hd. unfold unload_model.
  destruct (Dict.lookup models (model_key model_type model_name)) as [m|] eqn:L;
    cbn [fst snd].
  - split; [reflexivity|]. split; [apply distinct_keys_del, Hd|].
    split; [apply lookup_del_same, Hd|].
    split; [intros key Hk; apply lookup_del_other; congruence|].
    intros a g model loaded Hnone. congruence.
  - split; [reflexivity|]. split; [exact Hd|]. split; [exact L|].
    split; [reflexivity|].
    intros a g model loaded _. unfold get_model. rewrite L.
    destruct (negb (str_eqb model_type (lit "gemini"))); [discriminate|].
    destruct (load _ _) as [m|e]; [|discriminate].
    intros [= <- <-]. rewrite lookup_set_same, del_set_new by exact L. reflexivity.
Qed.

Lemma unload_model_removes_witness :
  fst (unload_model loaded_cache (lit "gemini") (lit "flash")) = true /\
  Dict.lookup (snd (unload_model loaded_cache (lit "gemini") (lit "flash")))
    (lit "gemini_flash") = None.
Proof.
  destruct (unload_model_removes loaded_cache (lit "gemini") (lit "flash")
              ltac:(repeat constructor; intros [])) as (H1 & _ & H3 & _).
  split; [exact H1 | exact H3].
Defined.

(** X11 (model cache, unload all). [unload_all_models] answers [True]
    and leaves the cache empty, whatever it held. *)
Theorem unload_all_models_empties (models : cache) :
  unload_all_models models = (true, []).
Proof.
  unfold unload_all_models. generalize true as success.
  induction models as [|[k m] models IH]; intros success; [reflexivity|].
  cbn [fold_left Dict.del]. rewrite str_eqb_refl. apply IH.
Qed.

(** ** [InferencePipeline.process] *)

(** The batches of a non-empty list of contents are non-empty, and
    together they are the list. *)
Lemma batches_shape {Doc} (D : list Doc) (size : Z) :
  1 <= size ->
  exists bs,
    process_documents_in_batches D size = Some bs /\
    Forall (fun b => b <> []) bs /\
    (D <> [] -> bs <> []) /\
    concat bs = D.
Proof.
  intros Hsize. destruct D as [|d D'] eqn:HD.
  - exists []. repeat split; [constructor | congruence].
  - unfold process_documents_in_batches, range. cbv iota.
    rewrite <- HD. pose proof (len_nonneg D) as Hlen.
    assert (Hpos : 0 < len D) by (rewrite HD; unfold len; cbn [List.length]; lia).
    destruct (size =? 0) eqn:E0; [apply Z.eqb_eq in E0; lia|].
    destruct (size <? 0) eqn:E1; [apply Z.ltb_lt in E1; lia|].
    eexists. split; [reflexivity|]. split; [|split].
    + apply Forall_forall. intros b Hb. apply in_map_iff in Hb as (j & <- & Hj).
      apply In_nth_error in Hj as [k Hk].
      apply (range_fuel_nth size Hsize) in Hk as [Hjk Hjs].
      intros Hnil. pose proof (len_chunk D j size ltac:(nia) ltac:(lia)) as Hl.
      rewrite Hnil in Hl. unfold len at 1 in Hl. cbn [List.length] in Hl. lia.
    + intros _. destruct (Z.to_nat (len D - 0)) as [|fuel] eqn:Ef; [lia|].
      cbn [range_fuel]. destruct (0 <? len D) eqn:E; [discriminate|].
      apply Z.ltb_ge in E. lia.
    + rewrite (concat_range_fuel D size Hsize) by lia. reflexivity.
Qed.

Section PipelineFacts.
Variable system_prompts : table.
Variable case_type : str.
Variable sleep : Sleep.
Variable model : Model.
Variables base max_retries : Z.
Context {Doc : Type}.
Variable section : str.

Local Abbreviation run_batches :=
  (InferenceService.run_batches system_prompts case_type sleep model base max_retries).

(** The batch phase of the service makes at most two runs of [predict]
    for each batch. *)
Lemma service_run_batches_bound (batches : list (list Doc)) :
  forall i k r t,
    run_batches batches section i k = Some (r, t) ->
    Z.of_nat (ncalls t) <= 2 * Z.max 0 (max_retries + 1) * Z.of_nat (List.length batches).
Proof.
  induction batches as [|batch rest IH]; intros i k r t;
    cbn [InferenceService.run_batches].
  - intros [= <- <-]. change (ncalls []) with O. lia.
  - destruct (service_query_total system_prompts case_type sleep model base max_retries
                batch section k) as (response & t1 & -> & Ht1).
    destruct (InferenceService.run_batches _ _ _ _ _ _ rest section (S i) (k + ncalls t1))
      as [[[[results failed]|e] t2]|] eqn:R; [| |discriminate].
    + apply IH in R.
      destruct (startswith response (lit "Error:")); intros [= <- <-];
        rewrite ncalls_app; cbn [List.length]; lia.
    + apply IH in R. intros [= <- <-]. rewrite ncalls_app. cbn [List.length]. lia.
Qed.

(** Every call rate-limited and every sleep returning: each batch ends
    with the rate-limit message, and the batch phase is marked as failed. *)
Lemma service_run_batches_exhausted (batches : list (list Doc)) (p : str) :
  Forall (fun b => b <> []) batches ->
  0 <= max_retries ->
  InferenceService.resolve_prompt system_prompts case_type section
    = InferenceService.Prompt p ->
  (forall j rc, 0 <= rc <= max_retries -> retried_at sleep model base rc j) ->
  forall i k, exists results t,
    run_batches batches section i k
    = Some (Return (results, negb (Nat.eqb (List.length batches) 0)), t) /\
    Z.of_nat (ncalls t) = (max_retries + 1) * Z.of_nat (List.length batches).
Proof.
  intros Hne Hmax Hp Hrl.
  induction Hne as [|batch rest Hbatch Hrest IH]; intros i k;
    cbn [InferenceService.run_batches].
  - eexists _, _. split; [reflexivity|]. change (ncalls []) with O. cbn. lia.
  - destruct (service_query_exhausted system_prompts case_type sleep model base
                max_retries batch section k p Hbatch Hmax Hp)
      as (t1 & -> & Ht1); [intros j Hj; apply Hrl; lia|].
    destruct (IH (S i) (k + ncalls t1)%nat) as (results & t2 & -> & Ht2).
    change (startswith (lit "Error: Rate limit exceeded after maximum retries.")
              (lit "Error:")) with true.
    cbv iota. eexists _, _. split; [reflexivity|].
    rewrite ncalls_app. cbn [List.length]. lia.
Qed.

(** The whole analysis: the batch phase and one more run of [predict]. *)
Lemma service_analysis_bound (all_content : list Doc) (batch_size : Z)
    (batches : list (list Doc)) r t :
  process_documents_in_batches all_content batch_size = Some batches ->
  InferenceService.create_unified_analysis system_prompts case_type sleep model base
    max_retries all_content section batch_size = Some (r, t) ->
  Z.of_nat (ncalls t)
  <= 2 * Z.max 0 (max_retries + 1) * Z.of_nat (List.length batches)
     + Z.max 0 (max_retries + 1).
Proof.
  intros Hb. unfold InferenceService.create_unified_analysis. rewrite Hb.
  destruct batches as [|b bs]; [intros [= <- <-]; change (ncalls []) with O; lia|].
  destruct (InferenceService.run_batches _ _ _ _ _ _ (b :: bs) section 0 0)
    as [[[[results failed]|e] t1]|] eqn:R; [| |discriminate].
  - apply service_run_batches_bound in R.
    assert (Hsyn : forall r t,
              match InferenceService.predict sleep model base max_retries (ncalls t1) with
              | None => None
              | Some (Return unified_response, t') => Some (Return unified_response, t1 ++ t')
              | Some (Raise (APIRateLimitError _), t') =>
                  Some (Return (lit "Error: Could not create unified analysis due to persistent API rate limits."),
                        t1 ++ t')
              | Some (Raise (APIError msg), t') => Some (Return (lit "Error: " ++ msg), t1 ++ t')
              | Some (Raise e, t') =>
                  Some (Return (lit "Error: An unexpected error occurred during analysis: "
                                ++ exn_str e), t1 ++ t')
              end = Some (r, t) ->
              Z.of_nat (ncalls t)
              <= 2 * Z.max 0 (max_retries + 1) * Z.of_nat (List.length (b :: bs))
                 + Z.max 0 (max_retries + 1)).
    { intros r0 t0. unfold InferenceService.predict.
      destruct (predict_total sleep model max_retries base GeminiModel.Loaded (ncalls t1))
        as (r2 & t2 & -> & Ht2).
      destruct r2 as [u|[m|m|m|m|m|m|m|m]]; intros [= <- <-]; rewrite ncalls_app; lia. }
    destruct results as [|x [|y l]]; destruct failed; try apply Hsyn.
    intros [= <- <-]. lia.
  - apply service_run_batches_bound in R. intros [= <- <-]. lia.
Qed.

End PipelineFacts.

Import InferencePipeline.

Section PipelineTheorems.
Context {Doc Image : Type}.
Variable self_case_id : str.
Variable system_prompts : table.
Variable case_type : str.
Variable sleep : Sleep.
Variable model : Model.
Variable all_content : list Doc.
Variable all_exhibits : list Image * list str.
Variable section_images : option (list Image).
Variable section : str.

Local Abbreviation pipeline :=
  (process self_case_id system_prompts case_type sleep model all_content
     all_exhibits section_images).

Local Abbreviation analysis :=
  (InferenceService.create_unified_analysis system_prompts case_type sleep model 5 3
     all_content section 3).

(** The result of [process] from the text of the analysis, when it has
    none of the four phrases that [process] looks for. *)
Lemma process_plain (response_text : str) (t : list event) :
  str_eqb section (lit "Exhibits") = false ->
  analysis = Some (Return response_text, t) ->
  contains (lit "Error: Rate limit exceeded") response_text = false ->
  contains (lit "Error: Could not generate unified analysis due to persistent API rate limits")
    response_text = false ->
  contains (lit "An unexpected error occurred during analysis") response_text = false ->
  contains (lit "Error querying Gemini") response_text = false ->
  pipeline section
  = Some (plain_result self_case_id section response_text section_images, t).
Proof.
  intros Hs Ha H1 H2 H3 H4. unfold process, plain_result.
  rewrite Hs, Ha, H1, H2, H3, H4. cbn [orb].
  destruct (str_eqb section (lit "Background Information")).
  - destruct (parse_background_response response_text); reflexivity.
  - destruct (extract_findings_and_background response_text); reflexivity.
Qed.

(** X12 (pipeline, every request answered). [process] turns every
    outcome of the analysis into a response for the case and the section
    asked for: no exception leaves it. With the contents in batches of
    three, it makes at most eight model calls for each batch and four for
    the synthesis. For the section "Exhibits" it makes no model call and
    joins the exhibit names with newlines. *)
Theorem pipeline_process_returns :
  exists batches res t,
    process_documents_in_batches all_content 3 = Some batches /\
    pipeline section = Some (res, t) /\
    case_id res = self_case_id /\
    InferencePipeline.section res = section /\
    Z.of_nat (ncalls t) <= 8 * Z.of_nat (List.length batches) + 4 /\
    (section = lit "Exhibits" ->
     t = [] /\ error res = None /\ images res = fst all_exhibits /\
     exhibit_names_string res = Some (join [nl] (snd all_exhibits))).
Proof.
  destruct (batches_shape all_content 3 ltac:(lia)) as (bs & Hbs & _ & _ & _).
  exists bs. unfold process.
  destruct (str_eqb section (lit "Exhibits")) eqn:Es.
  - destruct all_exhibits as [exhibit_images names].
    eexists _, _. split; [exact Hbs|]. split; [reflexivity|].
    cbn [case_id InferencePipeline.section error images exhibit_names_string fst snd].
    change (ncalls []) with O. repeat split. lia.
  - assert (Hsec : section <> lit "Exhibits")
      by (intros E; apply str_eqb_neq in Es; contradiction).
    destruct (service_analysis_total system_prompts case_type sleep model 5 3
                all_content section 3 ltac:(lia)) as (response_text & t & Ha).
    pose proof (service_analysis_bound system_prompts case_type sleep model 5 3 section
                  all_content 3 bs _ _ Hbs Ha) as Hbound.
    change (Z.max 0 (3 + 1)) with 4 in Hbound.
    rewrite Ha.
    destruct (_ || _).
    { eexists _, _. split; [exact Hbs|]. split; [reflexivity|].
      cbn [case_id InferencePipeline.section]. repeat split; [lia | contradiction..]. }
    destruct (_ || _).
    { eexists _, _. split; [exact Hbs|]. split; [reflexivity|].
      cbn [case_id InferencePipeline.section]. repeat split; [lia | contradiction..]. }
    destruct (str_eqb section (lit "Background Information")).
    + destruct (parse_background_response response_text).
      eexists _, _. split; [exact Hbs|]. split; [reflexivity|].
      cbn [case_id InferencePipeline.section]. repeat split; [lia | contradiction..].
    + destruct (extract_findings_and_background response_text).
      eexists _, _. split; [exact Hbs|]. split; [reflexivity|].
      cbn [case_id InferencePipeline.section]. repeat split; [lia | contradiction..].
Qed.

(** X13 (pipeline, no documents). For a case without extracted contents
    and a section other than "Exhibits", [process] makes no model call and
    returns the message of the service, "Error: No documents found or
    processed successfully for this case.", as the [response], with empty
    findings and no [error] key. *)
Theorem pipeline_without_documents :
  all_content = [] ->
  section <> lit "Exhibits" ->
  pipeline section
  = Some (mkResult Image self_case_id section no_documents_message []
            (match section_images with Some found => found | None => [] end)
            None None None,
          []).
Proof.
  intros Hnone Hs. apply str_eqb_neq in Hs.
  rewrite (process_plain no_documents_message []); try reflexivity; try exact Hs.
  - unfold plain_result.
    destruct (str_eqb section (lit "Background Information")); reflexivity.
  - rewrite Hnone. reflexivity.
Qed.

(** X14 (pipeline, rate limits). When every model call fails with a
    rate-limit-class error and every sleep between the attempts returns,
    for a case with contents and a section whose prompt is found, the
    service ends with "Error: Could not create unified analysis due to
    persistent API rate limits." and [process] does not take its branch
    for rate limits, which looks for other phrases: it returns that string
    as the [response], with empty findings and no [error] key, after four
    calls for each batch and four for the synthesis. The sleeps are those
    of the delays after call [k] at retry count [rc], for a base delay of
    five seconds and [rc] from 0 to 3. *)
Theorem pipeline_rate_limits_unreported (p : str) :
  all_content <> [] ->
  section <> lit "Exhibits" ->
  InferenceService.resolve_prompt system_prompts case_type section
    = InferenceService.Prompt p ->
  (forall k, rate_limited_at model k) ->
  (forall k rc, 0 <= rc <= 3 -> sleep (delay_after model 5 rc k) = None) ->
  exists batches t,
    process_documents_in_batches all_content 3 = Some batches /\
    pipeline section
    = Some (mkResult Image self_case_id section persistent_rate_limits []
              (match section_images with Some found => found | None => [] end)
              None None None,
            t) /\
    Z.of_nat (ncalls t) = 4 * Z.of_nat (List.length batches) + 4.
Proof.
  intros Hsome Hs Hp Hrl Hsleep. apply str_eqb_neq in Hs.
  assert (Hretried : forall j rc, 0 <= rc <= 3 -> retried_at sleep model 5 rc j)
    by (intros j rc Hrc; split; [apply Hrl | apply Hsleep, Hrc]).
  destruct (batches_shape all_content 3 ltac:(lia)) as (bs & Hbs & Hne & Hbatch & _).
  specialize (Hbatch Hsome).
  destruct (service_run_batches_exhausted system_prompts case_type sleep model 5 3
              section bs p Hne ltac:(lia) Hp Hretried 0%nat 0%nat)
    as (results & t1 & Hrun & Ht1).
  assert (Hfailed : negb (Nat.eqb (List.length bs) 0) = true)
    by (destruct bs; [congruence | reflexivity]).
  rewrite Hfailed in Hrun.
  destruct (predict_exhausted sleep model 3 5 GeminiModel.Loaded (ncalls t1) I
              ltac:(lia)) as (t2 & Hpred & Ht2);
    [intros j Hj; apply Hretried; lia|].
  assert (Hsingle : single_success results true = false)
    by (destruct results as [|x [|y l]]; reflexivity).
  pose proof (service_analysis_of_predict system_prompts case_type sleep model 5 3
                all_content section 3 bs Hbs Hbatch results true t1 Hsingle
                _ _ Hrun Hpred) as Ha.
  cbv iota in Ha. fold persistent_rate_limits in Ha.
  exists bs, (t1 ++ t2). split; [exact Hbs|]. split.
  - rewrite (process_plain persistent_rate_limits (t1 ++ t2));
      try reflexivity; try exact Hs; try exact Ha.
    unfold plain_result.
    destruct (str_eqb section (lit "Background Information")); reflexivity.
  - rewrite ncalls_app. lia.
Qed.

End PipelineTheorems.

Lemma pipeline_without_documents_witness :
  process (lit "case-1") example_prompts (lit "case_type_1") time_sleep always_429
    (@nil str) no_exhibits no_images (lit "Findings")
  = Some (mkResult str (lit "case-1") (lit "Findings") no_documents_message []
            [] None None None, []).
Proof.
  apply (pipeline_without_documents (lit "case-1") example_prompts (lit "case_type_1")
           time_sleep always_429 (@nil str) no_exhibits no_images (lit "Findings"));
    [reflexivity | discriminate].
Defined.

Lemma pipeline_rate_limits_unreported_witness :
  exists batches t,
    process_documents_in_batches seven_documents 3 = Some batches /\
    process (lit "case-1") example_prompts (lit "case_type_1") time_sleep always_429
      seven_documents no_exhibits no_images (lit "Findings")
    = Some (mkResult str (lit "case-1") (lit "Findings") persistent_rate_limits []
              [] None None None, t) /\
    Z.of_nat (ncalls t) = 4 * Z.of_nat (List.length batches) + 4.
Proof.
  apply (pipeline_rate_limits_unreported (lit "case-1") example_prompts
           (lit "case_type_1") time_sleep always_429 seven_documents no_exhibits
           no_images (lit "Findings") (lit "List the findings."));
    [discriminate | discriminate | reflexivity | apply always_429_rate_limited |].
  intros k rc Hrc. apply always_429_retried, Hrc.
Defined.

(** ** Loading the prompt table *)

Import PromptTables.

Lemma get_lookup (d : table) (key : str) : get d key = Dict.lookup d key.
Proof. induction d as [|[k v] d IH]; cbn [get Dict.lookup]; [|rewrite IH]; reflexivity. Qed.

Lemma get_set (d : table) (key key' value : str) :
  get (Dict.set d key value) key'
  = if str_eqb key key' then Some value else get d key'.
Proof.
  rewrite !get_lookup. destruct (str_eqb key key') eqn:E.
  - apply str_eqb_eq in E. subst. apply lookup_set_same.
  - apply str_eqb_neq in E. apply lookup_set_other, E.
Qed.

(** [replace] of one character by one character, character by
    character. *)
Lemma replace_char_go (a b : ascii) (s : str) :
  replace_go [a] [b] s 0 = map (fun c => if Ascii.eqb c a then b else c) s.
Proof.
  induction s as [|c s IH]; [reflexivity|].
  cbn [replace_go startswith map List.length Nat.sub app].
  destruct (Ascii.eqb c a); cbn [andb app]; rewrite ?startswith_nil, IH; reflexivity.
Qed.

Lemma replace_char (a b : ascii) (s : str) :
  replace s [a] [b] = map (fun c => if Ascii.eqb c a then b else c) s.
Proof. apply replace_char_go. Qed.

(** The section name with spaces, as [query_with_batch] computes it, is
    the name with its underscores replaced. *)
Lemma section_with_spaces_eq (s : str) :
  replace (replace s (lit " ") (lit "_")) (lit "_") (lit " ") = replace s (lit "_") (lit " ").
Proof.
  change (lit " ") with [" "%char]. change (lit "_") with ["_"%char].
  rewrite !replace_char, map_map. apply map_ext. intros c.
  destruct (Ascii.eqb c " ") eqn:E1.
  - apply Ascii.eqb_eq in E1. subst c. reflexivity.
  - reflexivity.
Qed.

Lemma replace_underscores_none (s : str) :
  ~ In "_"%char (replace s (lit "_") (lit " ")).
Proof.
  change (lit " ") with [" "%char]. change (lit "_") with ["_"%char].
  rewrite replace_char. intros H. apply in_map_iff in H as (c & Hc & _).
  destruct (Ascii.eqb c "_") eqn:E; [discriminate|].
  apply Ascii.eqb_neq in E. congruence.
Qed.

Lemma replace_no_underscore (s : str) :
  ~ In "_"%char s -> replace s (lit "_") (lit " ") = s.
Proof.
  change (lit " ") with [" "%char]. change (lit "_") with ["_"%char].
  rewrite replace_char. induction s as [|c s IH]; intros H; [reflexivity|].
  cbn [map]. destruct (Ascii.eqb c "_") eqn:E.
  - apply Ascii.eqb_eq in E. subst c. exfalso. apply H. left. reflexivity.
  - rewrite IH; [reflexivity|]. intros Hin. apply H. right. exact Hin.
Qed.

Lemma contains_char (c : ascii) (s : str) : contains [c] s = true <-> In c s.
Proof.
  unfold contains. induction s as [|x s IH].
  - cbn. split; [discriminate | intros []].
  - cbn [index startswith]. destruct (Ascii.eqb x c) eqn:E; cbn [andb].
    + rewrite startswith_nil. apply Ascii.eqb_eq in E. subst. split; [left; reflexivity | reflexivity].
    + apply Ascii.eqb_neq in E.
      destruct (index s [c]) as [i|]; cbn [option_map].
      * split; [intros _; right; apply IH; reflexivity | reflexivity].
      * split; [discriminate|]. intros [H|H]; [contradiction|]. apply IH in H. discriminate.
Qed.

Lemma service_no_prompts_resolution (case_type section : str) :
  InferenceService.resolve_prompt [] case_type section
  = InferenceService.EarlyReturn no_prompts_message.
Proof.
  unfold InferenceService.resolve_prompt. destruct (truthy case_type); reflexivity.
Qed.

Lemma service_no_prompts_batches (case_type : str) (sleep : Sleep) (model : Model)
    (base max_retries : Z) {Doc} (batches : list (list Doc)) (section : str) :
  Forall (fun b => b <> []) batches ->
  forall i k, exists results,
    InferenceService.run_batches [] case_type sleep model base max_retries batches
      section i k
    = Some (Return (results, negb (Nat.eqb (List.length batches) 0)), []).
Proof.
  intros Hne. induction Hne as [|batch rest Hbatch Hrest IH]; intros i k;
    cbn [InferenceService.run_batches].
  - eexists. reflexivity.
  - unfold InferenceService.query_with_batch.
    destruct batch as [|d batch]; [congruence|].
    rewrite service_no_prompts_resolution.
    destruct (IH (S i) (k + ncalls [])%nat) as (results & ->).
    change (startswith no_prompts_message (lit "Error:")) with true.
    cbv iota. eexists. reflexivity.
Qed.

(** X15 (no stored prompts). When the prompt collection is empty or
    the database raises, the service's table is empty. Then no batch is
    sent to the model: every batch query returns at once "Error: Not
    enough information is provided. No system prompts found in MongoDB.".
    The analysis of a case with contents still runs the synthesis
    [predict], whose calls are the only model calls, and returns what the
    synthesis gives. *)
Theorem service_without_prompts
    (case_type : str) (db : option (list document)) (sleep : Sleep) (model : Model)
    (base max_retries : Z) {Doc} (all_content : list Doc) (section : str)
    (batch_size : Z) :
  db = None \/ db = Some [] ->
  load_system_prompts case_type db = [] /\
  (forall (batch : list Doc) k,
      batch <> [] ->
      InferenceService.query_with_batch (load_system_prompts case_type db) case_type
        sleep model base max_retries batch section k
      = Some (Return no_prompts_message, [])) /\
  (all_content <> [] -> 1 <= batch_size ->
   exists r t,
     GeminiModel.predict sleep model max_retries base GeminiModel.Loaded 0
     = Some (r, t) /\
     InferenceService.create_unified_analysis (load_system_prompts case_type db)
       case_type sleep model base max_retries all_content section batch_size
     = Some (synthesis_result r, t)).
Proof.
  intros Hdb.
  assert (Hload : load_system_prompts case_type db = [])
    by (destruct Hdb as [-> | ->]; reflexivity).
  rewrite Hload. split; [reflexivity|]. split.
  - intros batch k Hbatch. unfold InferenceService.query_with_batch.
    destruct batch; [congruence|]. rewrite service_no_prompts_resolution. reflexivity.
  - intros Hsome Hsize.
    destruct (batches_shape all_content batch_size Hsize) as (bs & Hbs & Hne & Hbatch & _).
    specialize (Hbatch Hsome).
    destruct (service_no_prompts_batches case_type sleep model base max_retries bs
                section Hne 0%nat 0%nat) as (results & Hrun).
    assert (Hfailed : negb (Nat.eqb (List.length bs) 0) = true)
      by (destruct bs; [congruence | reflexivity]).
    rewrite Hfailed in Hrun.
    destruct (predict_total sleep model max_retries base GeminiModel.Loaded 0)
      as (r & t & Hpred & _).
    exists r, t. split; [exact Hpred|].
    assert (Hsingle : single_success results true = false)
      by (destruct results as [|x [|y l]]; reflexivity).
    rewrite (service_analysis_of_predict [] case_type sleep model base max_retries
               all_content section batch_size bs Hbs Hbatch results true []
               Hsingle r t Hrun Hpred).
    unfold synthesis_result. fold persistent_rate_limits. reflexivity.
Qed.

Lemma service_without_prompts_witness :
  exists r t,
    GeminiModel.predict time_sleep always_429 3 5 GeminiModel.Loaded 0 = Some (r, t) /\
    InferenceService.create_unified_analysis
      (load_system_prompts (lit "case_type_1") (Some [])) (lit "case_type_1")
      time_sleep always_429 5 3 two_documents (lit "Findings") 3
    = Some (synthesis_result r, t).
Proof.
  apply (service_without_prompts (lit "case_type_1") (Some []) time_sleep always_429
           5 3 two_documents (lit "Findings") 3);
    [right; reflexivity | discriminate | lia].
Defined.

Lemma fold_left_invariant {A B} (f : A -> B -> A) (P : A -> Prop) (l : list B) :
  (forall acc x, In x l -> P acc -> P (f acc x)) ->
  forall init, P init -> P (fold_left f l init).
Proof.
  induction l as [|x l IH]; intros Hstep init Hinit; [exact Hinit|].
  cbn [fold_left]. apply IH.
  - intros acc y Hy. apply Hstep. right. exact Hy.
  - apply Hstep; [left; reflexivity | exact Hinit].
Qed.

(** A property that every step keeps and the step of [x] sets up holds at
    the end of the loop. *)
Lemma fold_left_reaches {A B} (f : A -> B -> A) (Q : A -> Prop) (l : list B) (x : B) :
  In x l ->
  (forall acc, Q (f acc x)) ->
  (forall acc y, Q acc -> Q (f acc y)) ->
  forall init, Q (fold_left f l init).
Proof.
  intros Hin Hx Hkeep. induction l as [|y l IH]; intros init; [contradiction|].
  cbn [fold_left]. destruct Hin as [->|Hin].
  - apply fold_left_invariant; [intros acc z _; apply Hkeep | apply Hx].
  - apply IH, Hin.
Qed.

Lemma has_key_set (d : table) (key key' value : str) :
  has_key (Dict.set d key value) key' = str_eqb key key' || has_key d key'.
Proof. unfold has_key. rewrite get_set. destruct (str_eqb key key'); reflexivity. Qed.

Lemma has_key_true (d : table) (key : str) :
  has_key d key = true <-> exists v, get d key = Some v.
Proof.
  unfold has_key. destruct (get d key) as [v|]; split; try discriminate; eauto.
  intros [v H]. discriminate.
Qed.

(** One field of a document: the keys that the loop body writes. *)
Lemma add_section_keeps (self_case_type : str) (specific : bool) (result : table)
    (field : str * str) (key : str) :
  has_key result key = true ->
  has_key (add_section self_case_type specific result field) key = true.
Proof.
  intros H. unfold add_section. destruct field as [k v].
  destruct (existsb (str_eqb k) non_section_fields); [exact H|].
  destruct specific, (contains (lit "_") k);
    rewrite ?has_key_set, H, ?orb_true_r; reflexivity.
Qed.

Lemma add_section_adds (self_case_type : str) (specific : bool) (result : table)
    (k v : str) :
  section_field k = true ->
  has_key (add_section self_case_type specific result (k, v)) k = true /\
  has_key (add_section self_case_type specific result (k, v))
    (replace k (lit "_") (lit " ")) = true /\
  (specific = true ->
   has_key (add_section self_case_type specific result (k, v))
     (k ++ lit "_" ++ self_case_type) = true).
Proof.
  unfold section_field, add_section. intros Hk. apply negb_true_iff in Hk. rewrite Hk.
  destruct (contains (lit "_") k) eqn:C.
  - rewrite !has_key_set, !str_eqb_refl. cbn [orb].
    repeat split; try (rewrite ?orb_true_r; reflexivity).
    intros ->. rewrite !has_key_set, !str_eqb_refl, ?orb_true_r. reflexivity.
  - assert (Hno : replace k (lit "_") (lit " ") = k).
    { apply replace_no_underscore. intros Hin.
      apply (contains_char "_"%char) in Hin. change ["_"%char] with (lit "_") in Hin.
      congruence. }
    rewrite Hno, !has_key_set, !str_eqb_refl. cbn [orb].
    repeat split. intros ->. rewrite !has_key_set, !str_eqb_refl, ?orb_true_r. reflexivity.
Qed.

(** The values that the loop body writes are those of the field. *)
Lemma add_section_values (self_case_type : str) (specific : bool) (result : table)
    (k v : str) (P : str -> Prop) :
  (section_field k = true -> P v) ->
  (forall key x, get result key = Some x -> P x) ->
  forall key x,
    get (add_section self_case_type specific result (k, v)) key = Some x -> P x.
Proof.
  intros Hv Hres key x. unfold add_section.
  destruct (existsb (str_eqb k) non_section_fields) eqn:Hk; [apply Hres|].
  assert (Pv : P v) by (apply Hv; unfold section_field; rewrite Hk; reflexivity).
  destruct specific, (contains (lit "_") k); rewrite ?get_set;
    repeat match goal with
           | |- (if ?c then _ else _) = _ -> _ => destruct c
           end;
    try (intros [= <-]; exact Pv); apply Hres.
Qed.

Section LoaderFacts.
Variable self_case_type : str.
Variable prompts : list document.

(** Every prompt text of the collection is non-empty. *)
Hypothesis texts_nonempty :
  forall d key v, In d prompts -> In (key, v) d -> section_field key = true -> v <> [].

(** A loop over the documents, whatever test guards the case-specific
    key: its table holds stored texts only, and a key for every section
    field, as written and with spaces for underscores. *)
Lemma loaded_values (specific : document -> bool) :
  forall key x,
    get (fold_left (fun result prompt =>
                      fold_left (add_section self_case_type (specific prompt)) prompt result)
                   prompts []) key = Some x ->
    x <> [] /\ stored_prompt prompts x.
Proof.
  apply (fold_left_invariant _
           (fun result => forall key x, get result key = Some x ->
                                        x <> [] /\ stored_prompt prompts x)).
  - intros result d Hd Hres.
    apply (fold_left_invariant _
             (fun result => forall key x, get result key = Some x ->
                                          x <> [] /\ stored_prompt prompts x));
      [|exact Hres].
    intros acc [k v] Hf Hacc. apply add_section_values; [|exact Hacc].
    intros Hk. split; [eapply texts_nonempty; eassumption|].
    exists d, k. auto.
  - intros key x H. discriminate.
Qed.

Lemma loaded_keys (specific : document -> bool) (d : document) (s v : str) :
  In d prompts -> In (s, v) d -> section_field s = true ->
  let result :=
    fold_left (fun result prompt =>
                 fold_left (add_section self_case_type (specific prompt)) prompt result)
              prompts [] in
  has_key result s = true /\
  has_key result (replace s (lit "_") (lit " ")) = true /\
  (specific d = true -> has_key result (s ++ lit "_" ++ self_case_type) = true).
Proof.
  intros Hd Hf Hs. cbv zeta.
  assert (Hkeep : forall key acc (y : document),
            has_key acc key = true ->
            has_key (fold_left (add_section self_case_type (specific y)) y acc) key = true).
  { intros key acc y.
    apply (fold_left_invariant (add_section self_case_type (specific y))
             (fun a => has_key a key = true)).
    intros a x _. apply add_section_keeps. }
  assert (Hstep : forall key (sp : bool),
            (forall acc, has_key (add_section self_case_type sp acc (s, v)) key = true) ->
            sp = specific d ->
            has_key (fold_left (fun result prompt =>
                       fold_left (add_section self_case_type (specific prompt)) prompt result)
                     prompts []) key = true).
  { intros key sp Hadd ->.
    apply (fold_left_reaches _ (fun result => has_key result key = true) prompts d Hd).
    - intros acc.
      apply (fold_left_reaches _ (fun result => has_key result key = true) d (s, v) Hf).
      + exact Hadd.
      + intros a y. apply add_section_keeps.
    - intros acc y. apply Hkeep. }
  split; [|split].
  - apply (Hstep s (specific d)); [|reflexivity].
    intros acc. apply add_section_adds, Hs.
  - apply (Hstep _ (specific d)); [|reflexivity].
    intros acc. apply add_section_adds, Hs.
  - intros Hsp. apply (Hstep _ true); [|congruence].
    intros acc. apply add_section_adds; [exact Hs | reflexivity].
Qed.

End LoaderFacts.

(** The service finds a prompt when the table has a non-empty text under
    the section name with spaces. *)
Lemma service_prompt_found (system_prompts : table) (case_type section : str)
    (c : ascii) (p : str) :
  get system_prompts (replace section (lit "_") (lit " ")) = Some (c :: p) ->
  exists found,
    InferenceService.resolve_prompt system_prompts case_type section
    = InferenceService.Prompt found.
Proof.
  intros Hget. unfold InferenceService.resolve_prompt. cbv zeta.
  rewrite section_with_spaces_eq, Hget.
  set (tier1 := if truthy case_type then _ else None).
  set (generic := get system_prompts (replace section (lit " ") (lit "_"))).
  set (tier2 := if falsy generic then _ else generic).
  assert (Hgen : falsy tier2 = false)
    by (subst tier2; destruct (falsy generic) eqn:F; [reflexivity | exact F]).
  destruct (falsy tier1) eqn:F1.
  - rewrite Hgen. destruct tier2; eexists; reflexivity.
  - rewrite F1. destruct tier1; eexists; reflexivity.
Qed.

(** X16 (stored sections resolve, service). When the prompt texts of
    the collection are non-empty, every section that a document has as a
    field resolves, in the service's batch query, to a prompt: a non-empty
    text stored in the collection, and never the error "No system prompt
    found". *)
Theorem service_stored_section_resolves
    (self_case_type : str) (prompts : list document) (d : document) (section v : str) :
  (forall d key v, In d prompts -> In (key, v) d -> section_field key = true -> v <> []) ->
  In d prompts -> In (section, v) d -> section_field section = true ->
  exists p,
    InferenceService.resolve_prompt
      (load_system_prompts self_case_type (Some prompts)) self_case_type section
    = InferenceService.Prompt p /\
    p <> [] /\ stored_prompt prompts p.
Proof.
  intros Htexts Hd Hf Hs.
  set (specific := fun prompt : document =>
         match best_match self_case_type prompts with
         | Some b => truthy (case_type_of prompt) && truthy b
                     && str_eqb (case_type_of prompt) b
         | None => false
         end).
  assert (Hload : load_system_prompts self_case_type (Some prompts)
                  = fold_left (fun result prompt =>
                       fold_left (add_section self_case_type (specific prompt)) prompt result)
                     prompts []).
  { unfold load_system_prompts. destruct prompts; [contradiction | reflexivity]. }
  rewrite Hload.
  pose proof (loaded_values self_case_type prompts Htexts specific) as Hvalues.
  destruct (loaded_keys self_case_type prompts specific d section v Hd Hf Hs)
    as (_ & Hspaces & _).
  apply has_key_true in Hspaces as [x Hx].
  destruct (Hvalues _ _ Hx) as [Hne _].
  destruct x as [|c x]; [congruence|].
  destruct (service_prompt_found _ self_case_type section c x Hx) as [found Hfound].
  exists found. split; [exact Hfound|].
  pose proof (service_prompt_cases
                (fold_left (fun result prompt =>
                   fold_left (add_section self_case_type (specific prompt)) prompt result)
                 prompts []) self_case_type section) as Hcases.
  rewrite Hfound in Hcases. destruct Hcases as (Hp & key & Hkey).
  split; [exact Hp|]. apply (Hvalues key found Hkey).
Qed.

(** The text under a case-specific key comes from the field of that
    section of a document of that case type, when no field has the name
    of the key. *)
Lemma add_section_specific_value (self_case_type : str) (specific : bool)
    (result : table) (k v s : str) (P : str -> Prop) :
  k <> s ++ lit "_" ++ self_case_type ->
  (specific = true -> k = s -> P v) ->
  (forall x, get result (s ++ lit "_" ++ self_case_type) = Some x -> P x) ->
  forall x,
    get (add_section self_case_type specific result (k, v))
      (s ++ lit "_" ++ self_case_type) = Some x -> P x.
Proof.
  intros Hname Hv Hres x. unfold add_section.
  destruct (existsb (str_eqb k) non_section_fields); [apply Hres|].
  assert (Hgeneric : str_eqb k (s ++ lit "_" ++ self_case_type) = false)
    by (apply str_eqb_neq, Hname).
  assert (Hspaces : str_eqb (replace k (lit "_") (lit " "))
                      (s ++ lit "_" ++ self_case_type) = false).
  { apply str_eqb_neq. intros E. apply (replace_underscores_none k).
    rewrite E. apply in_or_app. right. left. reflexivity. }
  assert (Hspecific : str_eqb (k ++ lit "_" ++ self_case_type)
                        (s ++ lit "_" ++ self_case_type) = true -> k = s).
  { intros E. apply str_eqb_eq in E. apply app_inv_tail in E. exact E. }
  destruct specific, (contains (lit "_") k);
    rewrite ?get_set, ?Hgeneric, ?Hspaces;
    try apply Hres;
    (destruct (str_eqb (k ++ lit "_" ++ self_case_type)
                 (s ++ lit "_" ++ self_case_type)) eqn:E;
     [intros [= <-]; apply Hv; [reflexivity | apply Hspecific; reflexivity]
     | apply Hres]).
Qed.

(** X17 (case-specific prompt, handler). Let the collection have a
    document of the handler's own case type with a field for the section,
    let the texts stored for this section under this case type be
    non-empty, and let no document have a field with the name of the
    case-specific key [section_casetype]. Then the prompt that the
    handler's batch query resolves is a text stored for this section in a
    document of this case type: the prompts of other case types and the
    default prompt do not replace it. *)
Theorem handler_case_specific_prompt
    (self_case_type : str) (prompts : list document) (file : prompts_file)
    (d : document) (section v : str) :
  self_case_type <> [] ->
  In d prompts -> case_type_of d = self_case_type ->
  In (section, v) d -> section_field section = true ->
  (forall d' v', In d' prompts -> case_type_of d' = self_case_type ->
                 In (section, v') d' -> v' <> []) ->
  (forall d' v', In d' prompts ->
                 ~ In (section ++ lit "_" ++ self_case_type, v') d') ->
  exists d' v',
    In d' prompts /\ case_type_of d' = self_case_type /\ In (section, v') d' /\
    GeminiHandler.resolve_prompt
      (load_system_prompts_from_db self_case_type (Some prompts) file)
      self_case_type section
    = v'.
Proof.
  intros Hct Hd Hcase Hf Hs Htexts Hnames.
  set (specific := fun prompt : document =>
         truthy (case_type_of prompt) && str_eqb (case_type_of prompt) self_case_type).
  set (result := fold_left (fun result prompt =>
                   fold_left (add_section self_case_type (specific prompt)) prompt result)
                 prompts []).
  set (K := section ++ lit "_" ++ self_case_type).
  assert (Hsp : specific d = true).
  { subst specific. cbv beta. rewrite Hcase, str_eqb_refl.
    destruct self_case_type; [congruence | reflexivity]. }
  destruct (loaded_keys self_case_type prompts specific d section v Hd Hf Hs)
    as (_ & _ & Hkey).
  specialize (Hkey Hsp). fold result K in Hkey.
  assert (Hload : load_system_prompts_from_db self_case_type (Some prompts) file = result).
  { unfold load_system_prompts_from_db. destruct prompts as [|d0 ps] eqn:Hp; [contradiction|].
    fold (fold_left (add_prompt_handler self_case_type) (d0 :: ps) []).
    change (fold_left (add_prompt_handler self_case_type) (d0 :: ps) []) with result.
    destruct result; [discriminate Hkey | reflexivity]. }
  rewrite Hload.
  assert (Hvalue : forall x, get result K = Some x ->
            exists d', In d' prompts /\ case_type_of d' = self_case_type /\
                       In (section, x) d').
  { subst result.
    apply (fold_left_invariant _
             (fun result => forall x, get result K = Some x ->
                exists d', In d' prompts /\ case_type_of d' = self_case_type /\
                           In (section, x) d')); [|discriminate].
    intros acc d' Hd' Hacc.
    apply (fold_left_invariant _
             (fun result => forall x, get result K = Some x ->
                exists d'', In d'' prompts /\ case_type_of d'' = self_case_type /\
                            In (section, x) d'')); [|exact Hacc].
    intros acc' [k x] Hkx Hacc'. apply add_section_specific_value; [| |exact Hacc'].
    - intros ->. apply (Hnames d' x Hd' Hkx).
    - intros Hspec ->. exists d'. split; [exact Hd'|]. split; [|exact Hkx].
      subst specific. cbv beta in Hspec. apply andb_true_iff in Hspec as [_ Hspec].
      apply str_eqb_eq, Hspec. }
  apply has_key_true in Hkey as [x Hx].
  destruct (Hvalue x Hx) as (d' & Hd' & Hcase' & Hx').
  exists d', x. repeat split; try assumption.
  pose proof (Htexts d' x Hd' Hcase' Hx') as Hne.
  destruct x as [|c x]; [congruence|].
  apply handler_prompt_case_specific; [|exact Hx].
  destruct self_case_type; [congruence | reflexivity].
Qed.

(** Case analysis on a field of a document of [example_collection]. *)
Ltac in_collection Hd Hf :=
  unfold example_collection in Hd; cbn [In] in Hd;
  destruct Hd as [<-|[<-|[]]]; cbn [In] in Hf;
  repeat (destruct Hf as [Hf|Hf];
          [first [exfalso; vm_compute in Hf; discriminate Hf
                 | inversion Hf; subst] |]);
  try contradiction.

Lemma service_stored_section_resolves_witness :
  exists p,
    InferenceService.resolve_prompt
      (load_system_prompts (lit "slip") (Some example_collection)) (lit "slip")
      (lit "Site_Inspection")
    = InferenceService.Prompt p /\
    p <> [] /\ stored_prompt example_collection p.
Proof.
  apply (service_stored_section_resolves (lit "slip") example_collection
           (nth 0 example_collection []) (lit "Site_Inspection")
           (lit "Describe the inspection of the site.")).
  - intros d key v Hd Hf Hs. in_collection Hd Hf; discriminate.
  - left. reflexivity.
  - cbn. auto.
  - reflexivity.
Defined.

Lemma handler_case_specific_prompt_witness :
  exists d' v',
    In d' example_collection /\ case_type_of d' = lit "slip" /\
    In (lit "Findings", v') d' /\
    GeminiHandler.resolve_prompt
      (load_system_prompts_from_db (lit "slip") (Some example_collection) FileMissing)
      (lit "slip") (lit "Findings")
    = v'.
Proof.
  apply (handler_case_specific_prompt (lit "slip") example_collection FileMissing
           (nth 0 example_collection []) (lit "Findings")
           (lit "List the findings of the fall.")).
  - discriminate.
  - left. reflexivity.
  - reflexivity.
  - cbn. auto.
  - reflexivity.
  - intros d' v' Hd Hc Hf. in_collection Hd Hf; discriminate.
  - intros d' v' Hd Hf. in_collection Hd Hf; discriminate.
Defined.

(** ** Text extraction *)

Import Preprocessing.

Lemma lstrip_head (s : str) (c : ascii) (r : str) :
  lstrip s = c :: r -> isspace c = false.
Proof.
  induction s as [|x s IH]; cbn [lstrip]; [discriminate|].
  destruct (isspace x) eqn:E; [exact IH|]. intros [= <- _]. exact E.
Qed.

(** [strip] gives the empty text or a text without blanks at its ends. *)
Lemma strip_clean (s : str) : strip s = [] \/ solid (strip s) = true.
Proof.
  unfold strip, rstrip.
  destruct (lstrip (rev (lstrip s))) as [|c' z] eqn:Ez; [left; reflexivity|].
  right. pose proof (lstrip_head _ _ _ Ez) as Hc'.
  destruct (lstrip_suffix (rev (lstrip s))) as [b Hb]. rewrite Ez in Hb.
  assert (Hy : lstrip s = rev (c' :: z) ++ rev b).
  { rewrite <- rev_app_distr, <- Hb, rev_involutive. reflexivity. }
  unfold solid.
  destruct (rev (c' :: z)) as [|c y] eqn:Er.
  - apply (f_equal (@List.length ascii)) in Er. rewrite length_rev in Er. discriminate.
  - rewrite <- Er, rev_involutive.
    cbn [app] in Hy. apply lstrip_head in Hy. rewrite Hy, Hc'. reflexivity.
Qed.

(** [strip] keeps a text without blanks at its ends where it is. *)
Lemma strip_around_solid (a m b : str) :
  solid m = true -> strip (a ++ m ++ b) = lstrip a ++ m ++ rstrip b.
Proof.
  unfold solid. destruct m as [|c m0] eqn:Em; [discriminate|].
  rewrite <- Em. destruct (rev m) as [|c' r] eqn:Er; [discriminate|].
  intros H. apply andb_true_iff in H as [Hc Hc'].
  apply negb_true_iff in Hc, Hc'.
  unfold strip.
  assert (Hl : lstrip (a ++ m ++ b) = lstrip a ++ m ++ b).
  { rewrite Em. cbn [app]. apply lstrip_app_nonspace, Hc. }
  rewrite Hl. unfold rstrip. rewrite !rev_app_distr, Er.
  rewrite <- app_assoc. cbn [app]. rewrite lstrip_app_nonspace by exact Hc'.
  rewrite rev_app_distr.
  change (c' :: r ++ rev (lstrip a)) with ((c' :: r) ++ rev (lstrip a)).
  rewrite rev_app_distr, <- Er, !rev_involutive, <- app_assoc. reflexivity.
Qed.

Lemma processed_clean (text_content t : str) :
  (if negb (truthy (strip text_content)) then None else Some (strip text_content)) = Some t ->
  clean t.
Proof.
  destruct (strip_clean text_content) as [E|E].
  - rewrite E. discriminate.
  - destruct (strip text_content) as [|c r] eqn:Es; [discriminate|].
    cbn [truthy negb]. intros [= <-]. split; [discriminate | exact E].
Qed.

Lemma process_pdf_clean pdf t : process_pdf_for_gemini pdf = Some t -> clean t.
Proof. destruct pdf as [pages|]; [apply processed_clean | discriminate]. Qed.

Lemma process_docx_clean docx t : process_docx docx = Some t -> clean t.
Proof. destruct docx as [paragraphs|]; [apply processed_clean | discriminate]. Qed.

Lemma process_txt_clean txt t : process_txt txt = Some t -> clean t.
Proof. destruct txt as [text_content|]; [apply processed_clean | discriminate]. Qed.

Lemma append_contents_extracted {F} (process : F -> option str) (files : list F) :
  forall all_content,
    append_contents process files all_content = all_content ++ extracted process files.
Proof.
  induction files as [|file files IH]; intros acc; cbn [append_contents extracted flat_map].
  - rewrite app_nil_r. reflexivity.
  - fold (extracted process files). destruct (process file) as [content|].
    + rewrite IH, <- app_assoc. reflexivity.
    + rewrite IH. reflexivity.
Qed.

Lemma extracted_clean {F} (process : F -> option str) (files : list F) :
  (forall file t, process file = Some t -> clean t) ->
  Forall clean (extracted process files).
Proof.
  intros Hp. apply Forall_forall. intros t Ht. unfold extracted in Ht.
  apply in_flat_map in Ht as (file & _ & Ht).
  destruct (process file) as [content|] eqn:E; [|contradiction].
  destruct Ht as [<-|[]]. eapply Hp, E.
Qed.

(** X18 (extracted contents). The contents that go into the batches
    are the texts of the PDF files, then of the DOCX files, then of the TXT
    files, each in the order of its list and without the files that give no
    text; every text in every batch is non-empty and has no blank at its
    start or its end. *)
Theorem extracted_contents_clean
    (pdf_files : list (option (list (option str))))
    (docx_files : list (option (list str))) (txt_files : list (option str))
    (max_batch_size : Z) :
  1 <= max_batch_size ->
  all_content pdf_files docx_files txt_files
  = extracted process_pdf_for_gemini pdf_files
    ++ extracted process_docx docx_files ++ extracted process_txt txt_files /\
  exists batches,
    process_documents_in_batches (all_content pdf_files docx_files txt_files)
      max_batch_size = Some batches /\
    forall batch t, In batch batches -> In t batch ->
                    t <> [] /\ solid t = true /\ strip t = t.
Proof.
  intros Hsize.
  assert (Hall : all_content pdf_files docx_files txt_files
                 = extracted process_pdf_for_gemini pdf_files
                   ++ extracted process_docx docx_files
                   ++ extracted process_txt txt_files).
  { unfold all_content. rewrite !append_contents_extracted, <- app_assoc. reflexivity. }
  split; [exact Hall|].
  destruct (batches_shape (all_content pdf_files docx_files txt_files) max_batch_size Hsize)
    as (bs & Hbs & _ & _ & Hconcat).
  exists bs. split; [exact Hbs|]. intros batch t Hbatch Ht.
  assert (Hin : In t (all_content pdf_files docx_files txt_files)).
  { rewrite <- Hconcat. apply in_concat. exists batch. split; assumption. }
  assert (Hclean : clean t).
  { rewrite Hall in Hin.
    pose proof (extracted_clean process_pdf_for_gemini pdf_files process_pdf_clean) as H1.
    pose proof (extracted_clean process_docx docx_files process_docx_clean) as H2.
    pose proof (extracted_clean process_txt txt_files process_txt_clean) as H3.
    rewrite Forall_forall in H1, H2, H3.
    apply in_app_or in Hin as [Hin|Hin]; [apply H1, Hin|].
    apply in_app_or in Hin as [Hin|Hin]; [apply H2, Hin | apply H3, Hin]. }
  destruct Hclean as [Hne Hsolid]. split; [exact Hne|]. split; [exact Hsolid|].
  rewrite <- (app_nil_r t) at 1. rewrite strip_solid by exact Hsolid.
  apply app_nil_r.
Qed.

Lemma extracted_contents_clean_witness :
  exists batches,
    process_documents_in_batches
      (all_content [Some [Some (lit " page one "); None]] [Some [lit "  "; lit "para"]]
         [Some (lit "   "); None; Some (lit " notes ")]) 2 = Some batches /\
    forall batch t, In batch batches -> In t batch ->
                    t <> [] /\ solid t = true /\ strip t = t.
Proof.
  apply (extracted_contents_clean
           [Some [Some (lit " page one "); None]] [Some [lit "  "; lit "para"]]
           [Some (lit "   "); None; Some (lit " notes ")] 2).
  lia.
Defined.

Lemma pages_text_acc (pages : list (option str)) :
  forall page_num text_content,
    pages_text pages page_num text_content
    = text_content ++ pages_text pages page_num [].
Proof.
  induction pages as [|[page_text|] pages IH]; intros n acc; cbn [pages_text].
  - rewrite app_nil_r. reflexivity.
  - rewrite IH, (IH _ (if truthy page_text then [] ++ page_text else [])).
    destruct (truthy page_text); rewrite ?app_nil_r, <- ?app_assoc; reflexivity.
  - rewrite IH, (IH _ ([] ++ _)). rewrite <- !app_assoc. reflexivity.
Qed.

Lemma pages_text_marker (pages : list (option str)) :
  forall i page_num,
    nth_error pages i = Some None ->
    exists before after,
      pages_text pages page_num []
      = before ++ page_error_marker (page_num + i + 1) ++ after.
Proof.
  induction pages as [|page pages IH]; intros i n Hi; [destruct i; discriminate|].
  destruct i as [|i]; cbn [nth_error] in Hi.
  - injection Hi as ->. cbn [pages_text]. rewrite pages_text_acc.
    exists [nl], ([nl] ++ pages_text pages (S n) []).
    rewrite Nat.add_0_r. unfold page_error_marker.
    cbn [app]. rewrite <- !app_assoc. reflexivity.
  - destruct (IH i (S n) Hi) as (before & after & E).
    replace (S n + i + 1)%nat with (n + S i + 1)%nat in E by lia.
    destruct page as [page_text|]; cbn [pages_text]; rewrite pages_text_acc, E;
      match goal with
      | |- exists _ _, ?x ++ _ = _ =>
          exists (x ++ before), after; rewrite <- !app_assoc; reflexivity
      end.
Qed.

Lemma solid_ends (c c' : ascii) (m : str) :
  isspace c = false -> isspace c' = false -> solid (c :: m ++ [c']) = true.
Proof.
  intros Hc Hc'.
  assert (E : forall h, solid h = match h, rev h with
                                  | x :: _, x' :: _ => negb (isspace x) && negb (isspace x')
                                  | _, _ => false
                                  end) by reflexivity.
  rewrite E. change (c :: m ++ [c']) with ((c :: m) ++ [c']).
  rewrite rev_unit. cbn [app]. rewrite Hc, Hc'. reflexivity.
Qed.

Lemma page_error_marker_solid (page : nat) : solid (page_error_marker page) = true.
Proof.
  unfold page_error_marker.
  change (lit "[Error extracting page ") with ("["%char :: lit "Error extracting page ").
  change (lit "]") with ["]"%char]. cbn [app]. rewrite app_assoc.
  apply solid_ends; reflexivity.
Qed.

(** X19 (unreadable PDF pages). A PDF with a page whose text cannot
    be extracted always gives a document: the text sent to the model holds
    the marker "[Error extracting page N]" of that page, N counting from
    one, even when no page of the file could be read. *)
Theorem pdf_page_errors_marked (pages : list (option str)) (i : nat) :
  nth_error pages i = Some None ->
  exists processed_text,
    process_pdf_for_gemini (Some pages) = Some processed_text /\
    contains (page_error_marker (i + 1)) processed_text = true.
Proof.
  intros Hi. unfold process_pdf_for_gemini.
  destruct (pages_text_marker pages i 0 Hi) as (before & after & E).
  cbn [Nat.add] in E. rewrite E.
  rewrite strip_around_solid by apply page_error_marker_solid.
  assert (Hc : contains (page_error_marker (i + 1))
                 (lstrip before ++ page_error_marker (i + 1) ++ rstrip after) = true)
    by (apply contains_true; eexists _, _; reflexivity).
  destruct (lstrip before ++ page_error_marker (i + 1) ++ rstrip after) as [|c r] eqn:Et.
  - apply app_eq_nil in Et as [_ Et]. apply app_eq_nil in Et as [Et _].
    unfold page_error_marker in Et. discriminate.
  - cbn [truthy negb]. eexists. split; [reflexivity | exact Hc].
Qed.

Lemma pdf_page_errors_marked_witness :
  exists processed_text,
    process_pdf_for_gemini unreadable_pdf = Some processed_text /\
    contains (lit "[Error extracting page 2]") processed_text = true.
Proof.
  apply (pdf_page_errors_marked [None; None] 1). reflexivity.
Defined.

(** ** File names of the downloaded documents *)

Import Download.

Lemma lstrip_chars_head (chars s : str) (c : ascii) (r : str) :
  lstrip_chars chars s = c :: r -> existsb (Ascii.eqb c) chars = false.
Proof.
  induction s as [|x s IH]; cbn [lstrip_chars]; [discriminate|].
  destruct (existsb (Ascii.eqb x) chars) eqn:E; [exact IH|]. intros [= <- _]. exact E.
Qed.

Lemma lstrip_chars_suffix (chars s : str) : exists a, s = a ++ lstrip_chars chars s.
Proof.
  induction s as [|c s [a IH]]; [exists []; reflexivity|].
  cbn [lstrip_chars]. destruct (existsb (Ascii.eqb c) chars).
  - exists (c :: a). cbn [app]. f_equal. exact IH.
  - exists []. reflexivity.
Qed.

(** [strip(chars)] gives a part of the text, which neither starts nor ends
    with one of the characters. *)
Lemma strip_chars_spec (chars s : str) :
  (exists a b, s = a ++ strip_chars chars s ++ b) /\
  (strip_chars chars s = [] \/
   exists c, exists m, strip_chars chars s = m ++ [c] /\
                       existsb (Ascii.eqb c) chars = false).
Proof.
  unfold strip_chars.
  destruct (lstrip_chars_suffix chars s) as [a Ha].
  destruct (lstrip_chars_suffix chars (rev (lstrip_chars chars s))) as [b Hb].
  split.
  - exists a, (rev b). rewrite <- rev_app_distr, <- Hb, rev_involutive. exact Ha.
  - destruct (lstrip_chars chars (rev (lstrip_chars chars s))) as [|c z] eqn:Ez;
      [left; reflexivity|].
    right. exists c, (rev z). split; [reflexivity|].
    eapply lstrip_chars_head, Ez.
Qed.

(** The base name has no slash, and what comes before it in the path is
    empty or ends with a slash. *)
Lemma basename_from_spec (p : str) :
  forall seen, ~ In "/"%char seen ->
  ~ In "/"%char (basename_from p (seen ++ p)) /\
  exists dir,
    seen ++ p = dir ++ basename_from p (seen ++ p) /\
    (dir = [] \/ exists d, dir = d ++ ["/"%char]).
Proof.
  induction p as [|c p IH]; intros seen Hseen; cbn [basename_from].
  - rewrite app_nil_r. split; [exact Hseen|]. exists []. split; [reflexivity | left; reflexivity].
  - destruct (Ascii.eqb c "/") eqn:E.
    + apply Ascii.eqb_eq in E. subst c.
      destruct (IH [] ltac:(intros [])) as (Hno & dir & Hdir & Hend).
      cbn [app] in Hno, Hdir. split; [exact Hno|].
      exists (seen ++ "/"%char :: dir). split.
      * rewrite <- app_assoc. cbn [app]. do 2 f_equal. exact Hdir.
      * right. destruct Hend as [->|[d ->]].
        -- exists seen. reflexivity.
        -- exists (seen ++ "/"%char :: d). rewrite <- app_assoc. reflexivity.
    + apply Ascii.eqb_neq in E.
      replace (seen ++ c :: p) with ((seen ++ [c]) ++ p)
        by (rewrite <- app_assoc; reflexivity).
      apply IH. intros Hin. apply in_app_or in Hin as [Hin|[Hin|[]]]; [auto | congruence].
Qed.

Lemma basename_spec (p : str) :
  ~ In "/"%char (basename p) /\
  exists dir, p = dir ++ basename p /\ (dir = [] \/ exists d, dir = d ++ ["/"%char]).
Proof. apply (basename_from_spec p []). intros []. Qed.

Lemma normalized_path_spec (doc_path : str) :
  ~ In backslash (normalized_path doc_path) /\
  (normalized_path doc_path = [] \/
   exists m c, normalized_path doc_path = m ++ [c] /\ c <> "/"%char).
Proof.
  unfold normalized_path.
  destruct (strip_chars_spec (lit "/") (replace doc_path [backslash] (lit "/")))
    as ((a & b & Hinfix) & Hend).
  split.
  - intros Hin.
    assert (Hin' : In backslash (replace doc_path [backslash] (lit "/")))
      by (rewrite Hinfix; apply in_or_app; right; apply in_or_app; left; exact Hin).
    change [backslash] with [backslash] in Hin'. change (lit "/") with ["/"%char] in Hin'.
    rewrite replace_char in Hin'. apply in_map_iff in Hin' as (c & Hc & _).
    destruct (Ascii.eqb c backslash) eqn:E; [discriminate Hc|].
    apply Ascii.eqb_neq in E. congruence.
  - destruct Hend as [E|(c & m & E & Hc)]; [left; exact E|].
    right. exists m, c. split; [exact E|]. intros ->. discriminate.
Qed.

(** X20 (file names of the downloads). A document path is skipped
    exactly when nothing is left of it once the backslashes are slashes
    and the slashes at both ends are removed; the test for an empty file
    name that follows never holds. The file name of any other path is the
    last component of the normalized path, what follows its last slash: it
    is not empty, has no slash and no backslash, and what comes before it
    in the normalized path is empty or ends with a slash. *)
Theorem downloaded_file_name (doc_path : str) :
  (file_name doc_path = None <-> normalized_path doc_path = []) /\
  (forall name,
      file_name doc_path = Some name ->
      name <> [] /\ ~ In "/"%char name /\ ~ In backslash name /\
      exists dir,
        normalized_path doc_path = dir ++ name /\
        (dir = [] \/ exists d, dir = d ++ ["/"%char])).
Proof.
  destruct (normalized_path_spec doc_path) as [Hback Hend].
  destruct (basename_spec (normalized_path doc_path)) as (Hno & dir & Hdir & Hdir_end).
  assert (Hname : normalized_path doc_path <> [] -> basename (normalized_path doc_path) <> []).
  { intros Hne Hnil. rewrite Hnil, app_nil_r in Hdir.
    destruct Hend as [E|(m & c & E & Hc)]; [contradiction|].
    destruct Hdir_end as [->|[d ->]]; [contradiction|].
    rewrite E in Hdir. apply app_inj_tail in Hdir as [_ ->]. congruence. }
  unfold file_name.
  destruct doc_path as [|c0 doc_path0] eqn:Hdoc.
  - cbn [truthy negb]. split; [split; [reflexivity | intros _; reflexivity] | discriminate].
  - rewrite <- Hdoc in *. replace (truthy doc_path) with true by (rewrite Hdoc; reflexivity).
    cbn [negb].
    destruct (normalized_path doc_path) as [|c n] eqn:En.
    + cbn [truthy negb]. split; [split; reflexivity | discriminate].
    + cbn [truthy negb].
      destruct (basename (c :: n)) as [|c1 name1] eqn:Eb;
        [exfalso; apply Hname; [discriminate | reflexivity]|].
      cbn [truthy negb]. split; [split; discriminate|].
      intros name [= <-]. split; [discriminate|]. split; [exact Hno|]. split.
      * intros Hin. apply Hback. rewrite Hdir. apply in_or_app. right. exact Hin.
      * exists dir. split; [exact Hdir | exact Hdir_end].
Qed.

Lemma downloaded_file_name_witness :
  lit "report.pdf" <> [] /\ ~ In "/"%char (lit "report.pdf") /\
  ~ In backslash (lit "report.pdf") /\
  exists dir,
    normalized_path (example_path) = dir ++ lit "report.pdf" /\
    (dir = [] \/ exists d, dir = d ++ ["/"%char]).
Proof.
  apply (proj2 (downloaded_file_name (example_path))).
  reflexivity.
Defined.

(** ** The texts returned by the analysis *)

(** The outcome of a retry loop is the outcome of a pass that finishes,
    or that of the exhausted loop, or the exception of a sleep. *)
Lemma retry_loop_outcome (sleep : Sleep) (body : Z -> nat -> verdict)
    (exhausted : outcome str) (max_retries : Z) (fuel : nat) :
  forall rc k r t,
    retry_loop sleep body exhausted max_retries fuel rc k = Some (r, t) ->
    r = exhausted \/
    (exists rc' k', body rc' k' = Finish r) \/
    (exists rc' k' d msg,
        body rc' k' = RetryAfter (Some d) /\ sleep d = Some msg /\
        r = Raise (SleepException msg)).
Proof.
  intros rc k r t H.
  apply retry_loop_inv in H
    as (n & _ & [(_ & -> & _)|(_ & _ & [B|(d & msg & B & Hs & ->)])]).
  - left. reflexivity.
  - right. left. eauto.
  - right. right. eauto 8.
Qed.

Lemma app_lit_nonempty (prefix rest : str) : prefix <> [] -> prefix ++ rest <> [].
Proof. intros H E. apply app_eq_nil in E as [E _]. contradiction. Qed.

(** A message of the code is not empty. *)
Ltac message_nonempty :=
  first [assumption | discriminate | apply app_lit_nonempty; discriminate].

Lemma truthy_nonempty (s : str) : negb (truthy s) = false -> s <> [].
Proof. destruct s; [discriminate | intros _; discriminate]. Qed.

(** The outcome of a pass that ends a loop. *)
Ltac pass_outcome B :=
  match type of B with
  | Finish (Return ?x) = Finish (Return ?r) =>
      let E := fresh "E" in
      assert (E : r = x) by congruence; clear B; subst r
  | Finish ?x = Finish ?r =>
      is_var r;
      let E := fresh "E" in
      assert (E : r = x) by congruence; clear B; subst r
  | _ => discriminate B
  end.

Lemma predict_body_finish (model : Model) (base rc : Z) (k : nat) (r : outcome str) :
  predict_body model base rc k = Finish r ->
  match r with
  | Return response_text => response_text <> []
  | Raise e => exists error_str, e = APIError (lit "Gemini API error: " ++ error_str)
  end.
Proof.
  unfold predict_body, GeminiModel.try_generate. intros B.
  destruct (model k) as [resp|e].
  - destruct (block_reason resp).
    + destruct (is_rate_limit _); pass_outcome B. eauto.
    + destruct (negb (truthy (text resp))) eqn:T.
      * destruct (is_rate_limit _); pass_outcome B. eauto.
      * pass_outcome B. apply truthy_nonempty, T.
  - destruct (is_rate_limit e); pass_outcome B. eauto.
Qed.

(** The outcomes of [predict]. *)
Lemma predict_outcomes (sleep : Sleep) (model : Model) (max_retries base : Z)
    (self_model : GeminiModel.model_state) (k : nat) r t :
  GeminiModel.predict sleep model max_retries base self_model k = Some (r, t) ->
  match r with
  | Return response_text => response_text <> []
  | Raise e => predict_exception sleep self_model e
  end.
Proof.
  unfold predict_exception. intros H.
  destruct self_model as [|[load_error|]].
  2:{ cbn in H. injection H as <- <-. right. right. right. eauto. }
  all: rewrite predict_loaded in H by exact I;
    apply retry_loop_outcome in H
      as [->|[(rc & k' & B)|(rc & k' & d & msg & B & Hs & ->)]];
    [ left; reflexivity
    | apply predict_body_finish in B; destruct r as [x|e]; [exact B|];
      right; left; exact B
    | right; right; left; eauto ].
Qed.

Lemma query_body_finish (model : Model) (base rc : Z) (k : nat) (response : str) :
  query_body model base rc k = Finish (Return response) -> response <> [].
Proof.
  unfold query_body. intros B. destruct (model k) as [resp|e].
  - destruct (block_reason resp); [pass_outcome B; apply app_lit_nonempty; discriminate|].
    destruct (negb (truthy (text resp))) eqn:T; pass_outcome B;
      [apply app_lit_nonempty; discriminate | apply truthy_nonempty, T].
  - destruct (is_rate_limit e); [discriminate|].
    destruct (contains format_error_phrase e); [discriminate|]. pass_outcome B.
Qed.

Lemma synthesis_body_finish (model : Model) (base rc : Z) (k : nat) (response : str) :
  synthesis_body model base rc k = Finish (Return response) -> response <> [].
Proof.
  unfold synthesis_body. intros B. destruct (model k) as [resp|e].
  - destruct (block_reason resp); [pass_outcome B; apply app_lit_nonempty; discriminate|].
    destruct (negb (truthy (text resp))) eqn:T; pass_outcome B;
      [apply app_lit_nonempty; discriminate | apply truthy_nonempty, T].
  - destruct (is_rate_limit_synthesis e); [discriminate|]. pass_outcome B.
Qed.

Section NonEmptyTexts.
Variable system_prompts : table.
Variable case_type : str.
Variable sleep : Sleep.
Variable model : Model.
Variables base max_retries : Z.
Context {Doc : Type}.
Variable section : str.

Lemma service_query_nonempty (batch : list Doc) (k : nat) r t :
  InferenceService.query_with_batch system_prompts case_type sleep model base
    max_retries batch section k = Some (r, t) ->
  exists response, r = Return response /\ response <> [].
Proof.
  unfold InferenceService.query_with_batch.
  destruct batch as [|d batch]; [intros [= <- <-]; eexists; split; [reflexivity|discriminate]|].
  destruct (InferenceService.resolve_prompt system_prompts case_type section)
    as [p|err] eqn:Ep.
  - unfold InferenceService.predict.
    destruct (GeminiModel.predict sleep model max_retries base GeminiModel.Loaded k)
      as [[r1 t1]|] eqn:P1; [|discriminate].
    apply predict_outcomes in P1.
    destruct r1 as [response|[m|m|m|m|m|m|m|m]];
      try (intros [= <- <-]; eexists; split; [reflexivity | message_nonempty]).
    destruct (contains format_error_phrase m).
    + destruct (GeminiModel.predict sleep model max_retries base GeminiModel.Loaded
                  (k + ncalls t1))
        as [[r2 t2]|] eqn:P2; [|discriminate].
      apply predict_outcomes in P2.
      destruct r2 as [response|e]; intros [= <- <-]; eexists; split;
        try reflexivity; message_nonempty.
    + intros [= <- <-]. eexists; split; [reflexivity | message_nonempty].
  - pose proof (service_prompt_cases system_prompts case_type section) as Hc.
    rewrite Ep in Hc. intros [= <- <-]. eexists; split; [reflexivity|].
    destruct Hc as [[_ ->]|[_ ->]]; message_nonempty.
Qed.

Lemma service_run_batches_nonempty (batches : list (list Doc)) :
  forall i k results failed t,
    InferenceService.run_batches system_prompts case_type sleep model base max_retries
      batches section i k = Some (Return (results, failed), t) ->
    Forall (fun result => result <> []) results.
Proof.
  induction batches as [|batch rest IH]; intros i k results failed t;
    cbn [InferenceService.run_batches].
  - intros [= <- <- <-]. constructor.
  - destruct (InferenceService.query_with_batch _ _ _ _ _ _ batch section k)
      as [[r1 t1]|] eqn:Q; [|discriminate].
    apply service_query_nonempty in Q as (response & -> & Hne).
    destruct (InferenceService.run_batches _ _ _ _ _ _ rest section (S i) (k + ncalls t1))
      as [[[[results' failed']|e] t2]|] eqn:R; [| discriminate | discriminate].
    apply IH in R.
    destruct (startswith response (lit "Error:")); intros [= <- <- <-];
      constructor; try exact R; message_nonempty.
Qed.

Lemma handler_query_nonempty (batch : list Doc) (k : nat) response t :
  GeminiHandler.query_with_batch system_prompts case_type sleep model base max_retries
    batch section k = Some (Return response, t) ->
  response <> [].
Proof.
  unfold GeminiHandler.query_with_batch.
  destruct batch as [|d batch]; [intros [= <- <-]; discriminate|].
  rewrite query_loop_shape. intros H.
  apply retry_loop_outcome in H
    as [E|[(rc & k' & B)|(rc & k' & delay & msg & _ & _ & E)]];
    [ | eapply query_body_finish, B | discriminate].
  assert (E' : response = lit "Error: Rate limit exceeded after maximum retries.")
    by congruence.
  rewrite E'. discriminate.
Qed.

Lemma handler_run_batches_nonempty (batches : list (list Doc)) :
  forall i k results failed t,
    GeminiHandler.run_batches system_prompts case_type sleep model base max_retries
      batches section i k = Some (Return (results, failed), t) ->
    Forall (fun result => result <> []) results.
Proof.
  induction batches as [|batch rest IH]; intros i k results failed t;
    cbn [GeminiHandler.run_batches].
  - intros [= <- <- <-]. constructor.
  - destruct (GeminiHandler.query_with_batch _ _ _ _ _ _ batch section k)
      as [[[response|e] t1]|] eqn:Q; [| discriminate | discriminate].
    apply handler_query_nonempty in Q.
    destruct (GeminiHandler.run_batches _ _ _ _ _ _ rest section (S i) (k + ncalls t1))
      as [[[[results' failed']|e] t2]|] eqn:R; [| discriminate | discriminate].
    apply IH in R.
    destruct (startswith response (lit "Error:")); intros [= <- <- <-];
      constructor; try exact R; message_nonempty.
Qed.

(** X21 (no empty analysis). [predict] never returns an empty text,
    and what it raises is one of four exceptions: the [APIRateLimitError]
    of the exhausted retries, an [APIError] "Gemini API error: ...", the
    exception of a [time.sleep] that raised, and, only when the model was
    not loaded and loading it fails, the [ModelLoadingError] of [load].
    The text that [create_unified_analysis] returns, in the service and in
    the handler, is never empty either: it is a text of the model or one
    of the messages of the code. *)
Theorem analysis_text_nonempty (all_content : list Doc) (batch_size : Z) (k : nat) :
  (forall self_model r t,
      GeminiModel.predict sleep model max_retries base self_model k = Some (r, t) ->
      match r with
      | Return response_text => response_text <> []
      | Raise e => predict_exception sleep self_model e
      end) /\
  (forall response_text t,
      InferenceService.create_unified_analysis system_prompts case_type sleep model base
        max_retries all_content section batch_size = Some (Return response_text, t) ->
      response_text <> []) /\
  (forall response_text t,
      GeminiHandler.create_unified_analysis system_prompts case_type sleep model base
        max_retries all_content section batch_size = Some (Return response_text, t) ->
      response_text <> []).
Proof.
  split; [|split].
  - intros self_model r t H. apply predict_outcomes in H. exact H.
  - intros response_text t. unfold InferenceService.create_unified_analysis.
    destruct (process_documents_in_batches all_content batch_size) as [[|b bs]|];
      [intros [= <- <-]; discriminate | | discriminate].
    destruct (InferenceService.run_batches _ _ _ _ _ _ (b :: bs) section 0 0)
      as [[[[results failed]|e] t1]|] eqn:R; [| discriminate | discriminate].
    apply service_run_batches_nonempty in R.
    assert (Hsyn :
      match InferenceService.predict sleep model base max_retries (ncalls t1) with
      | None => None
      | Some (Return unified_response, t') => Some (Return unified_response, t1 ++ t')
      | Some (Raise (APIRateLimitError _), t') =>
          Some (Return (lit "Error: Could not create unified analysis due to persistent API rate limits."),
                t1 ++ t')
      | Some (Raise (APIError msg), t') => Some (Return (lit "Error: " ++ msg), t1 ++ t')
      | Some (Raise e, t') =>
          Some (Return (lit "Error: An unexpected error occurred during analysis: "
                        ++ exn_str e), t1 ++ t')
      end = Some (Return response_text, t) -> response_text <> []).
    { unfold InferenceService.predict.
      destruct (GeminiModel.predict sleep model max_retries base GeminiModel.Loaded
                  (ncalls t1)) as [[r2 t2]|] eqn:P;
        [|discriminate].
      apply predict_outcomes in P.
      destruct r2 as [u|[m|m|m|m|m|m|m|m]]; intros [= <- <-]; message_nonempty. }
    destruct results as [|x [|y l]]; destruct failed; try exact Hsyn.
    intros [= <- <-]. inversion R; assumption.
  - intros response_text t. unfold GeminiHandler.create_unified_analysis.
    destruct (process_documents_in_batches all_content batch_size) as [[|b bs]|];
      [intros [= <- <-]; discriminate | | discriminate].
    destruct (GeminiHandler.run_batches _ _ _ _ _ _ (b :: bs) section 0 0)
      as [[[[results failed]|e] t1]|] eqn:R; [| discriminate | discriminate].
    apply handler_run_batches_nonempty in R.
    assert (Hsyn :
      match GeminiHandler.synthesis_loop sleep model base max_retries
              (S (Z.to_nat (max_retries + 1))) 0 (ncalls t1) with
      | None => None
      | Some (r, t') => Some (r, t1 ++ t')
      end = Some (Return response_text, t) -> response_text <> []).
    { rewrite synthesis_loop_shape.
      destruct (retry_loop _ _ _ _ _ _ _) as [[r2 t2]|] eqn:L; [|discriminate].
      intros E0. assert (Er : r2 = Return response_text) by congruence. subst r2.
      apply retry_loop_outcome in L
        as [E|[(rc & k' & B)|(rc & k' & delay & msg & _ & _ & E)]];
        [ | eapply synthesis_body_finish, B | discriminate].
      assert (E' : response_text = repeated_rate_limit) by (unfold repeated_rate_limit; congruence).
      rewrite E'. discriminate. }
    destruct results as [|x [|y l]]; destruct failed; try exact Hsyn.
    intros [= <- <-]. inversion R; assumption.
Qed.

End NonEmptyTexts.

(** ** [parse_text_to_json]: what is kept of the text *)

(** The position that [search] returns is where a word of the pattern
    starts. *)
Lemma search_from_position (r : regex) (s : str) :
  forall i a b, search_from r s i = Some (a, b) ->
  exists pre w rest,
    s = pre ++ w ++ rest /\ lang r w /\ a = Z.of_nat (i + List.length pre).
Proof.
  induction s as [|c s IH]; intros i a b H; cbn [search_from] in H.
  - destruct (match_here r []) as [n|] eqn:E; [|discriminate].
    injection H as <- _.
    apply match_here_sound in E as (w & rest & Hs & L).
    exists [], w, rest. cbn [List.length]. rewrite Nat.add_0_r. auto.
  - destruct (match_here r (c :: s)) as [n|] eqn:E.
    + injection H as <- _. apply match_here_sound in E as (w & rest & Hs & L).
      exists [], w, rest. cbn [List.length]. rewrite Nat.add_0_r. auto.
    + apply IH in H as (pre & w & rest & -> & L & ->).
      exists (c :: pre), w, rest. cbn [List.length]. repeat split; [exact L | f_equal; lia].
Qed.

Lemma search_slice (r : regex) (text : str) (a b : Z) :
  search r text = Some (a, b) ->
  exists w rest, slice_from text a = w ++ rest /\ lang r w.
Proof.
  unfold search. intros H.
  apply search_from_position in H as (pre & w & rest & -> & L & ->).
  exists w, rest. split; [|exact L].
  unfold slice_from. rewrite clamp_inside.
  - rewrite Nat2Z.id. cbn [Nat.add]. apply skipn_app_exact. reflexivity.
  - unfold len. rewrite length_app. lia.
Qed.

Lemma lstrip_all_space (s : str) : lstrip s = [] -> forallb isspace s = true.
Proof.
  induction s as [|c s IH]; cbn [lstrip forallb]; [reflexivity|].
  destruct (isspace c); [exact IH | discriminate].
Qed.

(** A text that [strip] empties is made of blanks. *)
Lemma strip_nil_all_space (s : str) : strip s = [] -> forallb isspace s = true.
Proof.
  unfold strip, rstrip. intros H.
  apply (f_equal (@rev ascii)) in H. rewrite rev_involutive in H. cbn [rev] in H.
  apply lstrip_all_space in H.
  destruct (lstrip_suffix s) as [a Ha].
  assert (Hl : forallb isspace (lstrip s) = true).
  { rewrite forallb_forall in *. intros c Hc. apply H, in_rev. rewrite rev_involutive. exact Hc. }
  destruct (lstrip s) as [|c l] eqn:El.
  - apply lstrip_all_space, El.
  - apply lstrip_head in El. cbn [forallb] in Hl. rewrite El in Hl. discriminate.
Qed.

(** A text with a letter of a lower-case key in it is not emptied by
    [strip]. *)
Lemma strip_keeps_key (key s : str) (c : ascii) (key' : str) :
  key = c :: key' -> isspace c = false ->
  contains key (lower s) = true -> strip s <> [].
Proof.
  intros -> Hc H E. apply strip_nil_all_space in E.
  apply contains_true in H as (a & b & H).
  assert (Hin : In c (lower s)) by (rewrite H; apply in_or_app; right; left; reflexivity).
  unfold lower in Hin. apply in_map_iff in Hin as (x & Hx & Hin).
  rewrite forallb_forall in E. specialize (E x Hin).
  rewrite <- isspace_lower_char, Hx in E. congruence.
Qed.

Lemma strip_from_match (r : regex) (key : str) (c : ascii) (key' : str)
    (text : str) (a b : Z) :
  (forall w, lang r w -> contains key (lower w) = true) ->
  key = c :: key' -> isspace c = false ->
  search r text = Some (a, b) ->
  strip (slice_from text a) <> [].
Proof.
  intros Hword Hkey Hc H. apply search_slice in H as (w & rest & -> & L).
  apply (strip_keeps_key key _ c key' Hkey Hc).
  rewrite lower_app.
  pose proof (contains_in_context key (lower w) [] (lower rest) (Hword w L)) as Hin.
  exact Hin.
Qed.

(** The standardization of the findings header keeps a non-empty
    section non-empty. *)
Lemma standardized_findings_nonempty (findings_section : str) :
  findings_section <> [] ->
  (if truthy findings_section && negb (startswith findings_section canonical_findings)
   then
     let replaced := sub1 findings_pattern canonical_findings findings_section in
     if negb (startswith replaced canonical_findings)
     then findings_prefix ++ replaced
     else replaced
   else findings_section) <> [].
Proof.
  intros Hne. destruct (truthy findings_section && negb _); [|exact Hne].
  cbv zeta.
  destruct (startswith (sub1 findings_pattern canonical_findings findings_section)
              canonical_findings) eqn:S; cbn [negb].
  - apply startswith_true in S as [rest ->]. discriminate.
  - discriminate.
Qed.

(** The standardization of the background header gives a text that the
    background pattern matches at its start. *)
Lemma standardized_background (background_section : str) :
  let standardized :=
    if truthy background_section
       && negb (matches_at_start background_pattern background_section)
    then lit "**Background Information**" ++ [nl] ++ background_section
    else background_section in
  (background_section <> [] -> standardized <> []) /\
  (standardized = [] \/ matches_at_start background_pattern standardized = true).
Proof.
  cbv zeta. destruct background_section as [|c b]; [split; [congruence | left; reflexivity]|].
  cbn [truthy andb].
  destruct (matches_at_start background_pattern (c :: b)) eqn:M; cbn [negb].
  - split; [intros _; discriminate | right; exact M].
  - split; [intros _; discriminate | right; reflexivity].
Qed.

(** X22 (nothing lost by the text parser). [parse_text_to_json]
    returns two empty fields exactly for a text that is empty or blank.
    For any other text at least one field is not empty; and the [response]
    field, when it is not empty, starts with a background header that the
    pattern of the parser matches, the one of the text or the synthesized
    [**Background Information**]. *)
Theorem parse_text_to_json_keeps_text (text : str) :
  (strip text = [] -> parse_text_to_json text = ([], [])) /\
  (strip text <> [] ->
   fst (parse_text_to_json text) <> [] \/ snd (parse_text_to_json text) <> []) /\
  (snd (parse_text_to_json text) = [] \/
   matches_at_start background_pattern (snd (parse_text_to_json text)) = true).
Proof.
  unfold parse_text_to_json.
  destruct (negb (truthy text) || str_eqb (strip text) []) eqn:Blank.
  - split; [reflexivity|]. split; [|left; reflexivity].
    intros Hne. exfalso. apply orb_true_iff in Blank as [B|B].
    + destruct text; [apply Hne; reflexivity | discriminate].
    + apply str_eqb_eq in B. contradiction.
  - apply orb_false_iff in Blank as [_ Blank]. apply str_eqb_neq in Blank.
    split; [intros E; contradiction|].
    assert (Hsections :
      forall findings_section background_section,
        match search findings_pattern text, search background_pattern text with
        | Some (findings_start, _), Some (background_start, _) =>
            if findings_start <? background_start
            then (strip (slice text findings_start background_start),
                  strip (slice_from text background_start))
            else (strip (slice_from text findings_start),
                  strip (slice text background_start findings_start))
        | Some (findings_start, _), None =>
            (strip (slice_from text findings_start), [])
        | None, Some (background_start, _) =>
            let background_section := strip (slice_from text background_start) in
            let findings_section :=
              if 0 <? background_start then
                let pre_content := strip (slice_to text background_start) in
                if truthy pre_content then findings_prefix ++ pre_content else []
              else [] in
            (findings_section, background_section)
        | None, None =>
            if contains (lit "finding") (lower text)
            then (findings_prefix ++ strip text, [])
            else ([], strip text)
        end = (findings_section, background_section) ->
        findings_section <> [] \/ background_section <> []).
    { intros fs bs.
      destruct (search findings_pattern text) as [[fstart fend]|] eqn:Sf;
        destruct (search background_pattern text) as [[bstart bend]|] eqn:Sb.
      - destruct (fstart <? bstart); intros [= <- <-].
        + right. eapply (strip_from_match background_pattern (lit "background information"));
            [apply background_pattern_word | reflexivity | reflexivity | exact Sb].
        + left. eapply (strip_from_match findings_pattern (lit "findings"));
            [apply findings_pattern_word | reflexivity | reflexivity | exact Sf].
      - intros [= <- <-]. left.
        eapply (strip_from_match findings_pattern (lit "findings"));
          [apply findings_pattern_word | reflexivity | reflexivity | exact Sf].
      - cbv zeta. intros [= <- <-]. right.
        eapply (strip_from_match background_pattern (lit "background information"));
          [apply background_pattern_word | reflexivity | reflexivity | exact Sb].
      - destruct (contains (lit "finding") (lower text)); intros [= <- <-].
        + left. discriminate.
        + right. exact Blank. }
    match goal with
    | |- (_ -> fst (let '(_, _) := ?sections in _) <> _ \/ _) /\ _ =>
        destruct sections as [findings_section background_section] eqn:Es
    end.
    specialize (Hsections _ _ eq_refl). cbv zeta.
    fold first_test_phrase second_test_phrase.
    set (f1 := if contains first_test_phrase text
               then findings_prefix
                    ++ strip (slice_to text (find text (lit "**2. Background Information**")))
               else findings_section).
    set (f2 := if contains second_test_phrase text
               then findings_prefix ++ strip text
               else f1).
    cbn [fst snd].
    pose proof (standardized_background background_section) as [Hb1 Hb2].
    cbv zeta in Hb1, Hb2.
    split; [|exact Hb2].
    intros _. destruct Hsections as [Hf|Hb]; [left | right; apply Hb1, Hb].
    assert (Hf2 : f2 <> []).
    { subst f2 f1. destruct (contains second_test_phrase text); [discriminate|].
      destruct (contains first_test_phrase text); [discriminate | exact Hf]. }
    apply (standardized_findings_nonempty f2 Hf2).
Qed.

Lemma parse_text_to_json_keeps_text_witness :
  parse_text_to_json (lit "  ") = ([], []) /\
  (fst (parse_text_to_json plain_example) <> [] \/
   snd (parse_text_to_json plain_example) <> []).
Proof.
  split.
  - apply (proj1 (parse_text_to_json_keeps_text (lit "  "))). reflexivity.
  - apply (proj1 (proj2 (parse_text_to_json_keeps_text plain_example))). discriminate.
Defined.

(** ** [parse_background_response]: the parts around the marker *)

Lemma lstrip_idempotent (s : str) : lstrip (lstrip s) = lstrip s.
Proof.
  destruct (lstrip s) as [|c r] eqn:E; [reflexivity|].
  apply lstrip_nonspace. eapply lstrip_head, E.
Qed.

Lemma rstrip_idempotent (s : str) : rstrip (rstrip s) = rstrip s.
Proof. unfold rstrip. rewrite rev_involutive, lstrip_idempotent. reflexivity. Qed.

Lemma contains_strip_false (sub s : str) :
  contains sub s = false -> contains sub (strip s) = false.
Proof.
  intros H. destruct (contains sub (strip s)) eqn:E; [|reflexivity].
  destruct (strip_infix s) as (a & b & Hs). rewrite Hs in H.
  rewrite contains_in_context in H by exact E. discriminate.
Qed.

(** No occurrence of [sub] lies before its first occurrence. *)
Lemma contains_before_index (s sub : str) (i : nat) :
  sub <> [] -> index s sub = Some i -> contains sub (firstn i s) = false.
Proof.
  intros Hne Hi. apply index_Some in Hi as (Hlen & _ & Hmin).
  destruct (contains sub (firstn i s)) eqn:E; [|reflexivity].
  apply contains_true in E as (a & b & E).
  assert (Hla : (List.length a < i)%nat).
  { apply (f_equal (@List.length ascii)) in E.
    rewrite length_firstn, !length_app in E.
    destruct sub; [congruence|]. cbn [List.length] in E. lia. }
  specialize (Hmin (List.length a) Hla).
  rewrite <- (firstn_skipn i s), E, <- !app_assoc in Hmin.
  rewrite skipn_app_exact in Hmin by reflexivity.
  rewrite startswith_app in Hmin. discriminate.
Qed.

(** X23 (background marker, stable split). When the marker
    [**Background Information**] occurs in the text, the findings that
    [parse_background_response] returns do not contain the marker, the
    response starts with it, and parsing the response again returns no
    findings and the same response. *)
Theorem background_response_stable (text : str) :
  contains background_marker text = true ->
  contains background_marker (fst (parse_background_response text)) = false /\
  startswith (snd (parse_background_response text)) background_marker = true /\
  parse_background_response (snd (parse_background_response text))
  = ([], snd (parse_background_response text)).
Proof.
  intros H. unfold contains in H.
  destruct (index text background_marker) as [i|] eqn:Ei; [|discriminate].
  assert (Hfind : find text background_marker = Z.of_nat i)
    by (unfold find; rewrite Ei; reflexivity).
  pose proof Ei as Hi. apply index_Some in Hi as (Hlen & Hs & _).
  apply startswith_true in Hs as [post Hpost].
  assert (Hparse : parse_background_response text
                   = (strip (firstn i text), background_marker ++ rstrip post)).
  { unfold parse_background_response. rewrite Hfind.
    destruct (Z.of_nat i =? -1) eqn:E; [apply Z.eqb_eq in E; lia|].
    cbn [negb]. unfold slice_to, slice_from.
    rewrite clamp_inside by (unfold len; lia). rewrite Nat2Z.id, Hpost.
    rewrite strip_solid by reflexivity. reflexivity. }
  rewrite Hparse. cbn [fst snd]. split; [|split].
  - apply contains_strip_false, (contains_before_index text background_marker i);
      [discriminate | exact Ei].
  - apply startswith_app.
  - unfold parse_background_response.
    assert (Hzero : find (background_marker ++ rstrip post) background_marker = 0).
    { unfold find.
      assert (E0 : index (background_marker ++ rstrip post) background_marker = Some O).
      { apply index_Some. repeat split; [lia | apply startswith_app | intros j Hj; lia]. }
      rewrite E0. reflexivity. }
    rewrite Hzero. change (negb (0 =? -1)) with true. cbv iota.
    unfold slice_to, slice_from. rewrite clamp_inside by (pose proof (len_nonneg (background_marker ++ rstrip post)); lia).
    cbn [Z.to_nat firstn skipn].
    rewrite strip_solid by reflexivity. rewrite rstrip_idempotent. reflexivity.
Qed.

Lemma background_response_stable_witness :
  contains background_marker (fst (parse_background_response marker_example)) = false /\
  startswith (snd (parse_background_response marker_example)) background_marker = true /\
  parse_background_response (snd (parse_background_response marker_example))
  = ([], snd (parse_background_response marker_example)).
Proof. apply (background_response_stable marker_example). reflexivity. Defined.

(** ** [best_match]: the case type that the service takes for its own *)

Lemma contains_refl (s : str) : contains s s = true.
Proof. apply contains_true. exists [], []. rewrite app_nil_r. reflexivity. Qed.

Lemma In_set (d : table) (key value : str) (e : str * str) :
  In e (Dict.set d key value) -> In e d \/ e = (key, value).
Proof.
  induction d as [|[k v] d IH]; cbn [Dict.set].
  - intros [<-|[]]. right. reflexivity.
  - destruct (str_eqb k key) eqn:E.
    + apply str_eqb_eq in E. subst k. intros [<-|H]; [right; reflexivity|].
      left. right. exact H.
    + intros [<-|H]; [left; left; reflexivity|].
      destruct (IH H) as [H'|H']; [left; right; exact H' | right; exact H'].
Qed.

Lemma get_In (d : table) (key v : str) : get d key = Some v -> In (key, v) d.
Proof.
  induction d as [|[k x] d IH]; cbn [get]; [discriminate|].
  destruct (str_eqb k key) eqn:E.
  - apply str_eqb_eq in E. subst k. intros [= ->]. left. reflexivity.
  - intros H. right. apply IH, H.
Qed.

(** The entries of the mapping: a case type of the collection under its
    lower-case form. *)
Lemma case_type_mapping_entries (prompts : list document) (k v : str) :
  In (k, v) (case_type_mapping prompts) ->
  k = lower v /\ v <> [] /\ exists d, In d prompts /\ case_type_of d = v.
Proof.
  unfold case_type_mapping.
  apply (fold_left_invariant
           (fun mapping prompt =>
              let case_type := case_type_of prompt in
              if truthy case_type
              then Dict.set mapping (lower case_type) case_type
              else mapping)
           (fun mapping => In (k, v) mapping ->
              k = lower v /\ v <> [] /\ exists d, In d prompts /\ case_type_of d = v));
    [|intros []].
  intros acc d Hd Hacc. cbv zeta.
  destruct (truthy (case_type_of d)) eqn:T; [|exact Hacc].
  intros H. apply In_set in H as [H|[= -> ->]]; [apply Hacc, H|].
  split; [reflexivity|]. split; [|exists d; split; [exact Hd | reflexivity]].
  intros E. rewrite E in T. discriminate.
Qed.

(** Every non-empty case type of the collection has an entry. *)
Lemma case_type_mapping_complete (prompts : list document) (d : document) :
  In d prompts -> case_type_of d <> [] ->
  has_key (case_type_mapping prompts) (lower (case_type_of d)) = true.
Proof.
  intros Hd Hne. unfold case_type_mapping.
  apply (fold_left_reaches
           (fun mapping prompt =>
              let case_type := case_type_of prompt in
              if truthy case_type
              then Dict.set mapping (lower case_type) case_type
              else mapping)
           (fun mapping => has_key mapping (lower (case_type_of d)) = true)
           prompts d Hd).
  - intros acc. cbv zeta.
    destruct (case_type_of d) as [|c r] eqn:E; [congruence|].
    cbn [truthy]. rewrite has_key_set, str_eqb_refl. reflexivity.
  - intros acc y Hacc. cbv zeta. destruct (truthy (case_type_of y)); [|exact Hacc].
    rewrite has_key_set, Hacc. apply orb_true_r.
Qed.

Lemma partial_match_Some (current : str) (items : table) (b : str) :
  partial_match current items = Some b ->
  exists k, In (k, b) items /\
            (contains k current = true \/ contains current k = true).
Proof.
  induction items as [|[k v] items IH]; cbn [partial_match]; [discriminate|].
  destruct (contains k current || contains current k) eqn:E.
  - intros [= ->]. exists k. split; [left; reflexivity|].
    apply orb_true_iff, E.
  - intros H. destruct (IH H) as (k' & Hin & Hc). exists k'. split; [right; exact Hin | exact Hc].
Qed.

Lemma partial_match_finds (current : str) (items : table) (k v : str) :
  In (k, v) items ->
  contains k current = true \/ contains current k = true ->
  partial_match current items <> None.
Proof.
  intros Hin Hc. induction items as [|[k' v'] items IH]; [contradiction|].
  cbn [partial_match].
  destruct (contains k' current || contains current k') eqn:E; [discriminate|].
  destruct Hin as [[= -> ->]|Hin]; [|apply IH, Hin].
  apply orb_true_iff in Hc. congruence.
Qed.

(** The case type that [best_match] returns. *)
Lemma best_match_Some (self_case_type : str) (prompts : list document) (b : str) :
  best_match self_case_type prompts = Some b ->
  self_case_type <> [] /\ b <> [] /\
  (exists d, In d prompts /\ case_type_of d = b) /\
  (contains (lower b) (lower self_case_type) = true \/
   contains (lower self_case_type) (lower b) = true).
Proof.
  unfold best_match. destruct (truthy self_case_type) eqn:T; [|discriminate].
  assert (Hs : self_case_type <> []) by (intros E; rewrite E in T; discriminate).
  cbv zeta.
  destruct (has_key (case_type_mapping prompts) (lower self_case_type)) eqn:Hk.
  - intros H. apply get_In, case_type_mapping_entries in H as (Hl & Hne & Hd).
    repeat split; [exact Hs | exact Hne | exact Hd |].
    left. rewrite <- Hl. apply contains_refl.
  - intros H. apply partial_match_Some in H as (k & Hin & Hc).
    apply case_type_mapping_entries in Hin as (-> & Hne & Hd).
    repeat split; [exact Hs | exact Hne | exact Hd | exact Hc].
Qed.

(** X24 (case types, matching). The case type that [load_system_prompts]
    takes for the service's own is a non-empty case type of the collection
    that, in lower case, contains the service's case type or is contained
    in it; a case type that is equal up to case is preferred to the
    others; and whenever the service has a case type and the collection
    has such a case type, one is found. *)
Theorem best_match_case_types (self_case_type : str) (prompts : list document) :
  (forall b, best_match self_case_type prompts = Some b ->
     self_case_type <> [] /\ b <> [] /\
     (exists d, In d prompts /\ case_type_of d = b) /\
     (contains (lower b) (lower self_case_type) = true \/
      contains (lower self_case_type) (lower b) = true)) /\
  (forall d, self_case_type <> [] -> In d prompts -> case_type_of d <> [] ->
     lower (case_type_of d) = lower self_case_type ->
     exists b, best_match self_case_type prompts = Some b /\
               lower b = lower self_case_type) /\
  (forall d, self_case_type <> [] -> In d prompts -> case_type_of d <> [] ->
     contains (lower (case_type_of d)) (lower self_case_type) = true \/
     contains (lower self_case_type) (lower (case_type_of d)) = true ->
     best_match self_case_type prompts <> None).
Proof.
  assert (Htruthy : forall s : str, s <> [] -> truthy s = true)
    by (intros [|c r] H; [congruence | reflexivity]).
  unfold best_match. split; [|split].
  - intros b. fold (best_match self_case_type prompts). apply best_match_Some.
  - intros d Hs Hd Hne Hl. rewrite (Htruthy _ Hs). cbv zeta.
    pose proof (case_type_mapping_complete prompts d Hd Hne) as Hk.
    rewrite Hl in Hk. rewrite Hk.
    apply has_key_true in Hk as [b Hb]. exists b. split; [exact Hb|].
    apply get_In, case_type_mapping_entries in Hb as (Hlb & _). symmetry. exact Hlb.
  - intros d Hs Hd Hne Hc. rewrite (Htruthy _ Hs). cbv zeta.
    destruct (has_key (case_type_mapping prompts) (lower self_case_type)) eqn:Hk.
    + apply has_key_true in Hk as [b Hb]. rewrite Hb. discriminate.
    + pose proof (case_type_mapping_complete prompts d Hd Hne) as Hk'.
      apply has_key_true in Hk' as [v Hv]. apply get_In in Hv.
      eapply partial_match_finds; [exact Hv | exact Hc].
Qed.

Lemma best_match_case_types_witness :
  best_match (lit "Slip and Fall") example_collection <> None.
Proof.
  apply (proj2 (proj2 (best_match_case_types (lit "Slip and Fall") example_collection))
           (nth 0 example_collection [])).
  - discriminate.
  - left. reflexivity.
  - discriminate.
  - left. reflexivity.
Defined.

(** ** The prompts of the matched case type *)

Lemma replace_no_space (s : str) :
  ~ In " "%char s -> replace s (lit " ") (lit "_") = s.
Proof.
  change (lit " ") with [" "%char]. change (lit "_") with ["_"%char].
  rewrite replace_char. induction s as [|c s IH]; intros H; [reflexivity|].
  cbn [map]. destruct (Ascii.eqb c " ") eqn:E.
  - apply Ascii.eqb_eq in E. subst c. exfalso. apply H. left. reflexivity.
  - rewrite IH; [reflexivity|]. intros Hin. apply H. right. exact Hin.
Qed.

(** The first tier of the service: the case-specific key. *)
Lemma service_prompt_case_specific (system_prompts : table) (case_type section : str)
    (c : ascii) (p : str) :
  truthy case_type = true -> ~ In " "%char section ->
  get system_prompts (section ++ lit "_" ++ case_type) = Some (c :: p) ->
  InferenceService.resolve_prompt system_prompts case_type section
  = InferenceService.Prompt (c :: p).
Proof.
  intros Hct Hsp Hget. unfold InferenceService.resolve_prompt. cbv zeta.
  rewrite (replace_no_space section Hsp), Hct, Hget. reflexivity.
Qed.

(** X25 (prompts of the matched case type, service). Let [best_match]
    give the case type [b] for the service's own, let a document of case
    type [b] have a field for the section, a name without blanks, let the
    texts stored for this section under case type [b] be non-empty, and
    let no document have a field with the name of the case-specific key
    [section_casetype]. Then the batch query of the service resolves the
    section to a text stored for it in a document of case type [b], also
    when [b] is not the service's case type letter for letter. *)
Theorem service_matched_case_type_prompt
    (self_case_type : str) (prompts : list document) (b : str)
    (d : document) (section v : str) :
  best_match self_case_type prompts = Some b ->
  In d prompts -> case_type_of d = b ->
  In (section, v) d -> section_field section = true -> ~ In " "%char section ->
  (forall d' v', In d' prompts -> case_type_of d' = b ->
                 In (section, v') d' -> v' <> []) ->
  (forall d' v', In d' prompts ->
                 ~ In (section ++ lit "_" ++ self_case_type, v') d') ->
  exists d' v',
    In d' prompts /\ case_type_of d' = b /\ In (section, v') d' /\
    InferenceService.resolve_prompt
      (load_system_prompts self_case_type (Some prompts)) self_case_type section
    = InferenceService.Prompt v'.
Proof.
  intros Hb Hd Hcase Hf Hs Hblank Htexts Hnames.
  destruct (best_match_Some _ _ _ Hb) as (Hself & Hbne & _ & _).
  set (specific := fun prompt : document =>
         match best_match self_case_type prompts with
         | Some b => truthy (case_type_of prompt) && truthy b
                     && str_eqb (case_type_of prompt) b
         | None => false
         end).
  assert (Hload : load_system_prompts self_case_type (Some prompts)
                  = fold_left (fun result prompt =>
                       fold_left (add_section self_case_type (specific prompt)) prompt result)
                     prompts []).
  { unfold load_system_prompts. destruct prompts; [contradiction | reflexivity]. }
  rewrite Hload. clear Hload.
  set (result := fold_left (fun result prompt =>
                   fold_left (add_section self_case_type (specific prompt)) prompt result)
                 prompts []).
  set (K := section ++ lit "_" ++ self_case_type).
  assert (Hspec : forall prompt, specific prompt = true -> case_type_of prompt = b).
  { intros prompt. subst specific. cbv beta. rewrite Hb.
    intros H. apply andb_true_iff in H as [_ H]. apply str_eqb_eq, H. }
  assert (Hsp : specific d = true).
  { subst specific. cbv beta. rewrite Hb, Hcase, str_eqb_refl.
    destruct b; [congruence | reflexivity]. }
  destruct (loaded_keys self_case_type prompts specific d section v Hd Hf Hs)
    as (_ & _ & Hkey).
  specialize (Hkey Hsp). fold result K in Hkey.
  assert (Hvalue : forall x, get result K = Some x ->
            exists d', In d' prompts /\ case_type_of d' = b /\ In (section, x) d').
  { subst result.
    apply (fold_left_invariant
             (fun result prompt =>
                fold_left (add_section self_case_type (specific prompt)) prompt result)
             (fun result => forall x, get result K = Some x ->
                exists d', In d' prompts /\ case_type_of d' = b /\
                           In (section, x) d')); [|discriminate].
    intros acc d' Hd' Hacc.
    apply (fold_left_invariant (add_section self_case_type (specific d'))
             (fun result => forall x, get result K = Some x ->
                exists d'', In d'' prompts /\ case_type_of d'' = b /\
                            In (section, x) d'')); [|exact Hacc].
    intros acc' [k x] Hkx Hacc'. apply add_section_specific_value; [| |exact Hacc'].
    - intros ->. apply (Hnames d' x Hd' Hkx).
    - intros Hspec' ->. exists d'. split; [exact Hd'|]. split; [|exact Hkx].
      apply Hspec, Hspec'. }
  apply has_key_true in Hkey as [x Hx].
  destruct (Hvalue x Hx) as (d' & Hd' & Hcase' & Hx').
  exists d', x. repeat split; try assumption.
  pose proof (Htexts d' x Hd' Hcase' Hx') as Hne.
  destruct x as [|c x]; [congruence|].
  apply service_prompt_case_specific; [| exact Hblank | exact Hx].
  destruct self_case_type; [congruence | reflexivity].
Qed.

Lemma service_matched_case_type_prompt_witness :
  exists d' v',
    In d' example_collection /\ case_type_of d' = lit "slip" /\
    In (lit "Findings", v') d' /\
    InferenceService.resolve_prompt
      (load_system_prompts (lit "Slip and Fall") (Some example_collection))
      (lit "Slip and Fall") (lit "Findings")
    = InferenceService.Prompt v'.
Proof.
  apply (service_matched_case_type_prompt (lit "Slip and Fall") example_collection
           (lit "slip") (nth 0 example_collection []) (lit "Findings")
           (lit "List the findings of the fall.")).
  - reflexivity.
  - left. reflexivity.
  - reflexivity.
  - cbn. auto.
  - reflexivity.
  - cbn. intros H. repeat (destruct H as [H|H]; [discriminate H|]). exact H.
  - intros d' v' Hd Hc Hf. in_collection Hd Hf; discriminate.
  - intros d' v' Hd Hf. in_collection Hd Hf; discriminate.
Defined.

(** ** The default prompts of the handler *)

(** Without a section field nothing is loaded. *)
Lemma loaded_nothing (self_case_type : str) (prompts : list document) :
  (forall d key v, In d prompts -> In (key, v) d -> section_field key = false) ->
  fold_left (add_prompt_handler self_case_type) prompts [] = [].
Proof.
  intros Hnone.
  apply (fold_left_invariant (add_prompt_handler self_case_type)
           (fun result => result = [])); [|reflexivity].
  intros acc d Hd ->. unfold add_prompt_handler. cbv zeta.
  apply (fold_left_invariant
           (add_section self_case_type
              (truthy (case_type_of d) && str_eqb (case_type_of d) self_case_type))
           (fun result => result = [])); [|reflexivity].
  intros acc [key v] Hf ->. unfold add_section.
  specialize (Hnone d key v Hd Hf). unfold section_field in Hnone.
  apply negb_false_iff in Hnone. rewrite Hnone. reflexivity.
Qed.

Lemma loaded_defaults (self_case_type : str) (db : option (list document))
    (file : prompts_file) :
  no_stored_sections db file ->
  load_system_prompts_from_db self_case_type db file = get_default_prompts.
Proof.
  unfold no_stored_sections, load_system_prompts_from_db.
  destruct db as [[|d prompts]|].
  - reflexivity.
  - intros H.
    change (fold_left (fun result prompt =>
              fold_left (add_section self_case_type
                           (truthy (case_type_of prompt)
                            && str_eqb (case_type_of prompt) self_case_type))
                        prompt result) (d :: prompts) [])
      with (fold_left (add_prompt_handler self_case_type) (d :: prompts) []).
    rewrite (loaded_nothing self_case_type (d :: prompts) H). reflexivity.
  - destruct file; [reflexivity | reflexivity | contradiction].
Qed.

(** X26 (default prompts, handler). When the prompt collection is empty
    or has no section field, or when the database fails and the prompts
    file is missing or unreadable, the batch query of the handler resolves
    each of the six sections of [get_default_prompts], spelled with
    underscores or with blanks, to the default text of that section,
    whatever the case type is. *)
Theorem handler_default_prompts
    (self_case_type case_type : str) (db : option (list document))
    (file : prompts_file) (section text : str) :
  no_stored_sections db file ->
  In (section, text) get_default_prompts ->
  text <> [] /\
  GeminiHandler.resolve_prompt
    (load_system_prompts_from_db self_case_type db file) case_type section
  = text.
Proof.
  intros Hnone Hin. rewrite (loaded_defaults self_case_type db file Hnone).
  vm_compute in Hin.
  repeat (destruct Hin as [Hin|Hin];
          [injection Hin as <- <-; split; [discriminate|];
           destruct case_type as [|c r];
           [vm_compute; reflexivity
           | apply handler_prompt_generic;
             [right; vm_compute; reflexivity | vm_compute; reflexivity]]
          |]).
  contradiction.
Qed.

Lemma handler_default_prompts_witness :
  GeminiHandler.resolve_prompt
    (load_system_prompts_from_db (lit "slip")
       (Some [[(lit "_id", lit "1"); (lit "case_type", lit "slip")]]) FileMissing)
    (lit "slip") (lit "Site Inspection")
  = lit "Analyze the provided documents and extract information about the site inspection.".
Proof.
  apply (handler_default_prompts (lit "slip") (lit "slip")
           (Some [[(lit "_id", lit "1"); (lit "case_type", lit "slip")]]) FileMissing
           (lit "Site Inspection")).
  - intros d key v [<-|[]] [[= <- <-]|[[= <- <-]|[]]]; reflexivity.
  - vm_compute. auto 10.
Defined.
